(** * Refund bot: paginated swap scans and sequential refund submission

    A shallow embedding of the two copies of the [RefundBot] class that the
    repository carries:

    - [Index]: the package entry point that [scripts/start.js] loads through
      [require('..')]; its text is the JavaScript that follows the
      introduction in [src/README.md];
    - [Legacy]: the older copy kept in [src/refund/refund.js].

    The chain SDKs (Kava, Binance Chain) are external: they are modelled as an
    oracle over an abstract world state, so every theorem holds for every
    behaviour of the two chains.  Everything the bot does to the outside
    (SDK calls with their replies, console output, pauses) is recorded in a
    trace of events. *)

From Stdlib Require Import List String ZArith Lia Bool PeanoNat.
Import ListNotations.

Local Open Scope string_scope.
Local Open Scope list_scope.
Local Open Scope Z_scope.

(** ** JavaScript values the bot handles *)

(** What a [throw] carries: an [Error] raised by an SDK call, or the
    [TypeError] the runtime raises when a property of [undefined] is read. *)
Inductive exn : Type :=
| Error (message : string)
| TypeError (message : string).

(** Completion of a call: a value, or an exception in flight. *)
Inductive result (A : Type) : Type :=
| Normal (a : A)
| Throw (e : exn).
Arguments Normal {A} a.
Arguments Throw {A} e.

(** ** JavaScript numbers

    Every number of the bot is an IEEE-754 double.  Those it handles hold
    integers, and a number is modelled by the integer it holds.  Every
    integer up to 2^53 in magnitude is a double; a larger one is a double
    when 53 bits hold its significant digits.  A sum that reaches 2^1024 in
    magnitude is [Infinity] in JavaScript; the model has no such value and
    rounds on, so what is stated of a computed sum is stated for operands
    in [js_finite_sum]. *)

(** The double nearest to the integer [z], a tie going to the even
    significand. *)
Definition round_double (z : Z) : Z :=
  let m := Z.abs z in
  if m <? 2 ^ 53 then z
  else
    let ulp := 2 ^ (Z.log2 m - 52) in
    let q := m / ulp in
    let r := m mod ulp in
    Z.sgn z
    * (ulp * (if 2 * r <? ulp then q
              else if ulp <? 2 * r then q + 1
              else if Z.even q then q else q + 1)).

Definition is_double (z : Z) : bool := round_double z =? z.

(** [a + b]: the double nearest to the exact sum.  An integer that is no
    double stands for no JavaScript number; on such an argument the sum is
    left exact. *)
Definition js_add (a b : Z) : Z :=
  if is_double a && is_double b then round_double (a + b) else a + b.

(** Operands whose sum stays finite: the double that [js_add] computes is
    then the one JavaScript computes. *)
Definition js_finite_sum (a b : Z) : Prop := Z.abs a + Z.abs b < 2 ^ 1023.

(** [Number(x)] where [x] holds the decimal numeral of [z]. *)
Definition js_Number (z : Z) : Z := round_double z.

(** The spacing of the doubles around a magnitude of 2^53 or more. *)
Definition ulp_of (m : Z) : Z := 2 ^ (Z.log2 m - 52).

(** Item of a Kava swap listing; the swap ID is not part of it. *)
Record KavaSwap : Type := mkKavaSwap {
  random_number_hash : string;
  sender : string;
  sender_other_chain : string
}.

(** Item of a Binance Chain [atomicSwaps] listing.  [status] 1 is Open. *)
Record BnbSwap : Type := mkBnbSwap {
  swapId : string;
  status : Z;
  expireHeight : Z
}.

(** [args] of [kavaClient.getSwaps]: the older copy pages by page number,
    the entry point by offset. *)
Inductive KavaArgs : Type :=
| ByPage (status : string) (page limit : Z)
| ByOffset (status : Z) (pagination_offset pagination_limit : Z).

Record Fee : Type := mkFee {
  fee_denom : string;
  fee_amount : string;
  fee_gas : string
}.

(** Reply of [bnbClient.swap.refundHTLT]: the HTTP status and the hashes of
    [res.result]. *)
Record HtltRes : Type := mkHtltRes {
  res_status : Z;
  res_hashes : list string
}.

(** The fields of a [RefundBot] set by its constructor. *)
Record RefundBot : Type := mkRefundBot {
  deputyAddresses : list string;
  limit : Z;
  offsetIncoming : Z;
  offsetOutgoing : Z
}.

(** [constructor(deputyAddresses, limit = 100, offsetIncoming = 0,
    offsetOutgoing = 0)]: an omitted argument is [None]. *)
Definition new_RefundBot (deputies : list string)
    (limit offsetIncoming offsetOutgoing : option Z) : result RefundBot :=
  if Nat.eqb (List.length deputies) 0
  then Throw (Error "must specify at least one Binance Chain deputy address")
  else Normal {| deputyAddresses := deputies;
                 limit := match limit with Some l => l | None => 100 end;
                 offsetIncoming :=
                   match offsetIncoming with Some o => o | None => 0 end;
                 offsetOutgoing :=
                   match offsetOutgoing with Some o => o | None => 0 end |}.

(** ** Console output and the trace *)

(** One constructor per [console.log] of the two copies. *)
Inductive LogMsg : Type :=
| LogKavaCount (n : nat)
| LogBnbCount (n : nat)
| LogRefunding (id : option string)
| LogTxHash (hash : string)
| LogCouldNotRefund (id : string)
| LogExn (e : exn)
| LogCouldntQueryKava
| LogCouldntQueryBnb (incoming : bool)
| LogOffsetsHeader
| LogOffsetIncoming (offset : Z)
| LogOffsetOutgoing (offset : Z).

(** A query of one direction of the Binance Chain listing, with its reply
    ([_.get(res, 'result.atomicSwaps')], [None] when the path is absent). *)
Record BnbQuery : Type := mkBnbQuery {
  q_incoming : bool;
  q_address : string;
  q_limit : Z;
  q_offset : Z;
  q_reply : result (option (list BnbSwap))
}.

Inductive Event : Type :=
| EvGetSwaps (args : KavaArgs) (timeout : Z)
             (reply : result (option (list KavaSwap)))
| EvLoadMetaData (reply : result Z)
| EvRefundSwap (id : string) (fee : option Fee) (sequence : Z)
               (reply : result string)
| EvNodeInfo (reply : result Z)
| EvBnbQuery (q : BnbQuery)
| EvRefundHTLT (from : string) (id : option string)
               (reply : result (option HtltRes))
| EvLog (m : LogMsg)
| EvSleep (ms : Z).

(** ** The chain SDKs as an oracle *)

(** Each call takes the world to a reply and a new world.  [None] as a swap
    ID is [undefined].  [calculateSwapID] is a pure hash of its arguments,
    which raises on those it cannot encode. *)
Record Sdk (W : Type) : Type := mkSdk {
  sdk_getSwaps : KavaArgs -> Z -> W -> result (option (list KavaSwap)) * W;
  sdk_loadMetaData : W -> result Z * W;
  sdk_refundSwap : string -> option Fee -> Z -> W -> result string * W;
  sdk_calculateSwapID : string -> string -> string -> result string;
  sdk_nodeInfo : W -> result Z * W;
  sdk_getSwapByCreator :
    string -> Z -> Z -> W -> result (option (list BnbSwap)) * W;
  sdk_getSwapByRecipient :
    string -> Z -> Z -> W -> result (option (list BnbSwap)) * W;
  sdk_refundHTLT : string -> option string -> W -> result (option HtltRes) * W
}.
Arguments sdk_getSwaps {W}.
Arguments sdk_loadMetaData {W}.
Arguments sdk_refundSwap {W}.
Arguments sdk_calculateSwapID {W}.
Arguments sdk_nodeInfo {W}.
Arguments sdk_getSwapByCreator {W}.
Arguments sdk_getSwapByRecipient {W}.
Arguments sdk_refundHTLT {W}.

(** ** Machine state and the monad of bot code *)

Record St (W : Type) : Type := mkSt {
  world : W;
  this : RefundBot;
  trace : list Event
}.
Arguments mkSt {W}.
Arguments world {W}.
Arguments this {W}.
Arguments trace {W}.

(** A computation either runs out of loop fuel ([None]) or completes with a
    value or an exception, in a new state. *)
Definition M (W A : Type) : Type := St W -> option (result A * St W).

Section Monad.
Context {W : Type}.

Definition ret {A} (a : A) : M W A := fun s => Some (Normal a, s).

Definition throw {A} (e : exn) : M W A := fun s => Some (Throw e, s).

Definition diverge {A} : M W A := fun _ => None.

(** A pure computation that may raise. *)
Definition lift {A} (r : result A) : M W A := fun s => Some (r, s).

Definition bind {A B} (m : M W A) (k : A -> M W B) : M W B :=
  fun s =>
    match m s with
    | None => None
    | Some (Normal a, s1) => k a s1
    | Some (Throw e, s1) => Some (Throw e, s1)
    end.

(** [try { m } catch (e) { ... }], the handler being the continuation. *)
Definition try {A} (m : M W A) : M W (result A) :=
  fun s =>
    match m s with
    | None => None
    | Some (r, s1) => Some (Normal r, s1)
    end.

Definition get_this : M W RefundBot := fun s => Some (Normal (this s), s).

Definition emit (e : Event) : M W unit :=
  fun s => Some (Normal tt, mkSt (world s) (this s) (trace s ++ [e])).

(** An SDK call: the reply is recorded, an exception propagates. *)
Definition call {A} (f : W -> result A * W) (ev : result A -> Event)
  : M W A :=
  fun s =>
    let (r, w) := f (world s) in
    Some (r, mkSt w (this s) (trace s ++ [ev r])).

Definition log (m : LogMsg) : M W unit := emit (EvLog m).

Definition sleep (ms : Z) : M W unit := emit (EvSleep ms).
End Monad.

Declare Scope bot_scope.
Delimit Scope bot_scope with bot.
Notation "x <- m ;; k" := (bind m (fun x => k))
  (at level 61, m at next level, right associativity) : bot_scope.
Notation "m ;; k" := (bind m (fun _ => k))
  (at level 61, right associativity) : bot_scope.
Local Open Scope bot_scope.

(** ** Control flow *)

Inductive step (L R : Type) : Type :=
| Continue (l : L)
| Break (r : R).
Arguments Continue {L R} l.
Arguments Break {L R} r.

(** How a block ends: it falls through with its variables, or a [return]
    leaves the enclosing function. *)
Inductive flow (A B : Type) : Type :=
| Fallthrough (a : A)
| Return (b : B).
Arguments Fallthrough {A B} a.
Arguments Return {A B} b.

Section Loops.
Context {W : Type}.

(** [while (checkNextBatch) { body }] over the loop's variables [l]; one
    unit of fuel per iteration. *)
Fixpoint while {L R} (fuel : nat) (body : L -> M W (step L R)) (l : L)
  : M W R :=
  match fuel with
  | O => diverge
  | S fuel' =>
      x <- body l ;;
      match x with
      | Continue l' => while fuel' body l'
      | Break r => ret r
      end
  end.

(** [asyncForEach(array, callback)]: the callback is awaited on each item
    in order; the variables it closes over are threaded as [l]. *)
Fixpoint asyncForEach {A L} (array : list A) (callback : A -> L -> M W L)
    (l : L) : M W L :=
  match array with
  | [] => ret l
  | x :: rest => l' <- callback x l ;; asyncForEach rest callback l'
  end.

(** [for (const x of array) { body }] where the body may [return]. *)
Fixpoint for_of {A L B} (array : list A) (body : A -> L -> M W (flow L B))
    (l : L) : M W (flow L B) :=
  match array with
  | [] => ret (Fallthrough l)
  | x :: rest =>
      f <- body x l ;;
      match f with
      | Fallthrough l' => for_of rest body l'
      | Return b => ret (Return b)
      end
  end.
End Loops.

(** [swapBatch.length > 0] *)
Definition nonempty {A} (l : list A) : bool := 0 <? Z.of_nat (List.length l).

(** [swapBatch && swapBatch.length > 0] *)
Definition present_nonempty {A} (b : option (list A)) : bool :=
  match b with
  | Some l => nonempty l
  | None => false
  end.

(** The items of a batch; an absent batch has none. *)
Definition batch_items {A} (b : option (list A)) : list A :=
  match b with
  | Some l => l
  | None => []
  end.

(** The variables of [getRefundableBinanceSwaps] that its loops update. *)
Record ScanVars : Type := mkScanVars {
  openSwaps : list BnbSwap;
  v_offsetIncoming : Z;
  v_offsetOutgoing : Z
}.

(** The offset the scan of a direction sends. *)
Definition v_offset (incoming : bool) (v : ScanVars) : Z :=
  if incoming then v_offsetIncoming v else v_offsetOutgoing v.

(** [if (swapBatch.length <= this.limit) { if (incoming) offsetIncoming =
    offsetIncoming + this.limit; else offsetOutgoing = ... }], after the
    matching swaps were appended to [openSwaps]. *)
Definition advance (incoming : bool) (lim : Z) (batch matching : list BnbSwap)
    (v : ScanVars) : ScanVars :=
  let found := openSwaps v ++ matching in
  if Z.of_nat (List.length batch) <=? lim
  then if incoming
       then mkScanVars found (js_add (v_offsetIncoming v) lim)
              (v_offsetOutgoing v)
       else mkScanVars found (v_offsetIncoming v)
              (js_add (v_offsetOutgoing v) lim)
  else mkScanVars found (v_offsetIncoming v) (v_offsetOutgoing v).

Section Calls.
Context {W : Type} (sdk : Sdk W).

(** [bnbClient.getSwapByCreator(deputyAddress, limit, offset)] when
    [incoming], [getSwapByRecipient] otherwise, then [_.get]. *)
Definition bnb_query (incoming : bool) (deputyAddress : string)
    (lim offset : Z) : M W (option (list BnbSwap)) :=
  call ((if incoming then sdk_getSwapByCreator sdk
         else sdk_getSwapByRecipient sdk) deputyAddress lim offset)
       (fun r => EvBnbQuery (mkBnbQuery incoming deputyAddress lim offset r)).

(** [Kava.utils.calculateSwapID] on the three fields of a listed swap. *)
Definition swapID_of (expiredSwap : KavaSwap) : result string :=
  sdk_calculateSwapID sdk (random_number_hash expiredSwap)
    (sender expiredSwap) (sender_other_chain expiredSwap).

(** [for (const expiredSwap of expiredSwaps) { const swapID = ...;
    swapIDs.push(swapID) }]: no [try] surrounds the call, so the first one
    that raises ends the loop and the function around it. *)
Fixpoint calculate_swapIDs (expiredSwaps : list KavaSwap)
    (swapIDs : list string) : result (list string) :=
  match expiredSwaps with
  | [] => Normal swapIDs
  | expiredSwap :: rest =>
      match swapID_of expiredSwap with
      | Throw e => Throw e
      | Normal swapID => calculate_swapIDs rest (swapIDs ++ [swapID])
      end
  end.

(** [printOffsets()], the same in both copies. *)
Definition printOffsets : M W unit :=
  bot <- get_this ;;
  log LogOffsetsHeader ;;
  log (LogOffsetIncoming (offsetIncoming bot)) ;;
  log (LogOffsetOutgoing (offsetOutgoing bot)).
End Calls.

(** ** The entry point (the JavaScript embedded in src/README.md) *)

Module Index.
Section Bot.
Context {W : Type} (sdk : Sdk W).
(** [this.bnbChainAddress], set by [initBnbChainClient]. *)
Variable bnbChainAddress : string.

Definition fee : Fee :=
  {| fee_denom := "ukava"; fee_amount := "50000"; fee_gas := "300000" |}.

(** Body of the [while] of [getRefundableKavaSwaps], over
    [(expiredSwaps, offset)]. *)
Definition kava_scan_body (l : list KavaSwap * Z)
  : M W (step (list KavaSwap * Z) (flow (list KavaSwap) (list string))) :=
  let '(expiredSwaps, offset) := l in
  bot <- get_this ;;
  let args := ByOffset 3 offset (limit bot) in
  r <- try (call (sdk_getSwaps sdk args 5000) (EvGetSwaps args 5000)) ;;
  match r with
  | Throw e =>
      log LogCouldntQueryKava ;;
      ret (Break (Return []))
  | Normal swapBatch =>
      if present_nonempty swapBatch
      then ret (Continue (expiredSwaps ++ batch_items swapBatch,
                          js_add offset (limit bot)))
      else ret (Break (Fallthrough expiredSwaps))
  end.

Definition getRefundableKavaSwaps (fuel : nat) : M W (list string) :=
  f <- while fuel kava_scan_body ([], 0) ;;
  match f with
  | Return v => ret v
  | Fallthrough expiredSwaps => lift (calculate_swapIDs sdk expiredSwaps [])
  end.

(** Callback of the [asyncForEach] of [refundKavaSwaps]; the counter [i]
    it closes over is threaded. *)
Definition kava_refund_callback (accountData_sequence : Z)
    (swapID : string) (i : Z) : M W Z :=
  let sequence := js_add (js_Number accountData_sequence) i in
  log (LogRefunding (Some swapID)) ;;
  r <- try (call (sdk_refundSwap sdk swapID (Some fee) sequence)
                 (EvRefundSwap swapID (Some fee) sequence)) ;;
  match r with
  | Normal txHash => log (LogTxHash txHash)
  | Throw e => log (LogCouldNotRefund swapID) ;; log (LogExn e)
  end ;;
  sleep 25000 ;;
  ret (js_add i 1).

(** What [refundKavaSwaps] does once the scan has returned [swapIDs]. *)
Definition refundKavaSwaps_submit (swapIDs : list string) : M W unit :=
  log (LogKavaCount (List.length swapIDs)) ;;
  r <- try (call (sdk_loadMetaData sdk) EvLoadMetaData) ;;
  match r with
  | Throw e => log (LogExn e) ;; ret tt
  | Normal accountData_sequence =>
      asyncForEach swapIDs (kava_refund_callback accountData_sequence) 0 ;;
      ret tt
  end.

Definition refundKavaSwaps (fuel : nat) : M W unit :=
  swapIDs <- getRefundableKavaSwaps fuel ;;
  refundKavaSwaps_submit swapIDs.

(** [swap.status == 1 && Number.parseInt(swap.expireHeight) <=
    latestBnbBlockHeight] *)
Definition refundable (latestBnbBlockHeight : Z) (swap : BnbSwap) : bool :=
  (status swap =? 1) && (expireHeight swap <=? latestBnbBlockHeight).

(** Body of the [while] in the callback of [getRefundableBinanceSwaps].
    The [return] of the [catch] leaves the callback only: the variables
    stay as they are. *)
Definition bnb_scan_body (incoming : bool) (latestBnbBlockHeight : Z)
    (deputyAddress : string) (v : ScanVars) : M W (step ScanVars ScanVars) :=
  bot <- get_this ;;
  r <- try (bnb_query sdk incoming deputyAddress (limit bot)
              (v_offset incoming v)) ;;
  match r with
  | Throw e =>
      log (LogCouldntQueryBnb incoming) ;;
      ret (Break v)
  | Normal swapBatch =>
      if present_nonempty swapBatch
      then
        let batch := batch_items swapBatch in
        ret (Continue (advance incoming (limit bot) batch
                         (filter (refundable latestBnbBlockHeight) batch) v))
      else
        ret (Break (mkScanVars (openSwaps v) (offsetIncoming bot)
                      (offsetOutgoing bot)))
  end.

Definition getRefundableBinanceSwaps (incoming : bool) (fuel : nat)
  : M W (list string) :=
  bot <- get_this ;;
  let v0 := mkScanVars [] (offsetIncoming bot) (offsetOutgoing bot) in
  latestBnbBlockHeight <- call (sdk_nodeInfo sdk) EvNodeInfo ;;
  v <- asyncForEach (deputyAddresses bot)
         (fun deputyAddress v =>
            while fuel
              (bnb_scan_body incoming latestBnbBlockHeight deputyAddress) v)
         v0 ;;
  ret (map swapId (openSwaps v)).

(** Callback of the [asyncForEach] of [refundBinanceChainSwaps].  Reading
    [res.result[0].hash] of an empty [result] raises inside the [try]. *)
Definition bnb_refund_callback (swapID : string) (_ : unit) : M W unit :=
  log (LogRefunding (Some swapID)) ;;
  r <- try (call (sdk_refundHTLT sdk bnbChainAddress (Some swapID))
                 (EvRefundHTLT bnbChainAddress (Some swapID))) ;;
  match r with
  | Normal (Some res) =>
      if res_status res =? 200
      then match res_hashes res with
           | hash :: _ => log (LogTxHash hash)
           | [] => log (LogExn (TypeError "result[0] is undefined"))
           end
      else ret tt
  | Normal None => ret tt
  | Throw e => log (LogExn e)
  end ;;
  sleep 5000.

(** What [refundBinanceChainSwaps] does once both scans have returned. *)
Definition refundBinanceChainSwaps_submit (swapIDs : list string)
  : M W unit :=
  log (LogBnbCount (List.length swapIDs)) ;;
  asyncForEach swapIDs bnb_refund_callback tt.

Definition refundBinanceChainSwaps (fuel : nat) : M W unit :=
  incomingSwaps <- getRefundableBinanceSwaps true fuel ;;
  outgoingSwaps <- getRefundableBinanceSwaps false fuel ;;
  refundBinanceChainSwaps_submit (incomingSwaps ++ outgoingSwaps).

Definition refundSwaps (fuel : nat) : M W unit :=
  refundKavaSwaps fuel ;;
  refundBinanceChainSwaps fuel.
End Bot.
End Index.

(** ** The older copy (src/refund/refund.js) *)

Module Legacy.
Section Bot.
Context {W : Type} (sdk : Sdk W).
Variable bnbChainAddress : string.

(** Body of the [while] of [getRefundableKavaSwaps], over
    [(expiredSwaps, page)].  The bare [return] of the [catch] makes the
    function return [undefined] ([None]); [swapBatch.length] of an absent
    batch raises outside the [try]. *)
Definition kava_scan_body (l : list KavaSwap * Z)
  : M W (step (list KavaSwap * Z)
              (flow (list KavaSwap) (option (list string)))) :=
  let '(expiredSwaps, page) := l in
  bot <- get_this ;;
  let args := ByPage "Expired" page (limit bot) in
  r <- try (call (sdk_getSwaps sdk args 5000) (EvGetSwaps args 5000)) ;;
  match r with
  | Throw e =>
      log LogCouldntQueryKava ;;
      ret (Break (Return None))
  | Normal None => throw (TypeError "swapBatch is undefined")
  | Normal (Some swapBatch) =>
      if nonempty swapBatch
      then ret (Continue (expiredSwaps ++ swapBatch, js_add page 1))
      else ret (Break (Fallthrough expiredSwaps))
  end.

Definition getRefundableKavaSwaps (fuel : nat) : M W (option (list string)) :=
  f <- while fuel kava_scan_body ([], 1) ;;
  match f with
  | Return v => ret v
  | Fallthrough expiredSwaps =>
      swapIDs <- lift (calculate_swapIDs sdk expiredSwaps []) ;;
      ret (Some swapIDs)
  end.

(** Body of [for (var i = 0; i < swapIDs.length; i++)] in
    [refundKavaSwaps], on [swapIDs[i]]. *)
Definition kava_refund_body (accountData_sequence : Z)
    (swapID : string) (i : Z) : M W Z :=
  let sequence := js_add (js_Number accountData_sequence) i in
  log (LogRefunding (Some swapID)) ;;
  r <- try (call (sdk_refundSwap sdk swapID None sequence)
                 (EvRefundSwap swapID None sequence)) ;;
  match r with
  | Normal txHash => log (LogTxHash txHash)
  | Throw e => log (LogCouldNotRefund swapID) ;; log (LogExn e)
  end ;;
  sleep 7000 ;;
  ret (js_add i 1).

(** What [refundKavaSwaps] does with the value the scan returned;
    [swapIDs.length] of [undefined] raises.  The [for] loop has no
    [return] or [break]: it visits the items in order as [asyncForEach]
    does. *)
Definition refundKavaSwaps_submit (swapIDs : option (list string))
  : M W unit :=
  match swapIDs with
  | None => throw (TypeError "swapIDs is undefined")
  | Some swapIDs =>
      log (LogKavaCount (List.length swapIDs)) ;;
      r <- try (call (sdk_loadMetaData sdk) EvLoadMetaData) ;;
      match r with
      | Throw e => log (LogExn e) ;; ret tt
      | Normal accountData_sequence =>
          asyncForEach swapIDs (kava_refund_body accountData_sequence) 0 ;;
          ret tt
      end
  end.

Definition refundKavaSwaps (fuel : nat) : M W unit :=
  swapIDs <- getRefundableKavaSwaps fuel ;;
  refundKavaSwaps_submit swapIDs.

(** [swap.status == 1] *)
Definition refundable (swap : BnbSwap) : bool := status swap =? 1.

(** Body of the [while] of [getRefundableBinanceSwaps].  The [return] of
    the [catch] leaves the function with [undefined]; an empty batch ends
    the loop and resets nothing. *)
Definition bnb_scan_body (incoming : bool) (deputyAddress : string)
    (v : ScanVars)
  : M W (step ScanVars (flow ScanVars (option (list string)))) :=
  bot <- get_this ;;
  r <- try (bnb_query sdk incoming deputyAddress (limit bot)
              (v_offset incoming v)) ;;
  match r with
  | Throw e =>
      log (LogCouldntQueryBnb incoming) ;;
      ret (Break (Return None))
  | Normal None => throw (TypeError "swapBatch is undefined")
  | Normal (Some swapBatch) =>
      if nonempty swapBatch
      then ret (Continue (advance incoming (limit bot) swapBatch
                            (filter refundable swapBatch) v))
      else ret (Break (Fallthrough v))
  end.

Definition getRefundableBinanceSwaps (incoming : bool) (fuel : nat)
  : M W (option (list string)) :=
  bot <- get_this ;;
  let v0 := mkScanVars [] (offsetIncoming bot) (offsetOutgoing bot) in
  f <- for_of (deputyAddresses bot)
         (fun deputyAddress v =>
            while fuel (bnb_scan_body incoming deputyAddress) v)
         v0 ;;
  match f with
  | Return r => ret r
  | Fallthrough v => ret (Some (map swapId (openSwaps v)))
  end.

(** Body of [for (const swapID of swapIDs)] in [refundBinanceChainSwaps];
    an item may be [undefined]. *)
Definition bnb_refund_body (swapID : option string) (_ : unit) : M W unit :=
  log (LogRefunding swapID) ;;
  r <- try (call (sdk_refundHTLT sdk bnbChainAddress swapID)
                 (EvRefundHTLT bnbChainAddress swapID)) ;;
  match r with
  | Normal (Some res) =>
      if res_status res =? 200
      then match res_hashes res with
           | hash :: _ => log (LogTxHash hash)
           | [] => log (LogExn (TypeError "result[0] is undefined"))
           end
      else ret tt
  | Normal None => ret tt
  | Throw e => log (LogExn e)
  end ;;
  sleep 3000.

(** [incomingSwaps.concat(outgoingSwaps)]: raises when [incomingSwaps] is
    [undefined]; an [undefined] argument is appended as one item. *)
Definition concat_ids (incomingSwaps outgoingSwaps : option (list string))
  : result (list (option string)) :=
  match incomingSwaps with
  | None => Throw (TypeError "incomingSwaps is undefined")
  | Some inc =>
      Normal (map Some inc ++
              match outgoingSwaps with
              | Some out => map Some out
              | None => [None]
              end)
  end.

Definition refundBinanceChainSwaps_submit
    (incomingSwaps outgoingSwaps : option (list string)) : M W unit :=
  match concat_ids incomingSwaps outgoingSwaps with
  | Throw e => throw e
  | Normal swapIDs =>
      log (LogBnbCount (List.length swapIDs)) ;;
      asyncForEach swapIDs bnb_refund_body tt
  end.

Definition refundBinanceChainSwaps (fuel : nat) : M W unit :=
  incomingSwaps <- getRefundableBinanceSwaps true fuel ;;
  outgoingSwaps <- getRefundableBinanceSwaps false fuel ;;
  refundBinanceChainSwaps_submit incomingSwaps outgoingSwaps.

Definition refundSwaps (fuel : nat) : M W unit :=
  refundKavaSwaps fuel ;;
  refundBinanceChainSwaps fuel.
End Bot.
End Legacy.

(** ** Reading a trace *)

(** The Kava refund submissions of a trace: swap ID and sequence number. *)
Fixpoint kava_attempts (evs : list Event) : list (string * Z) :=
  match evs with
  | [] => []
  | EvRefundSwap id _ sequence _ :: rest => (id, sequence) :: kava_attempts rest
  | _ :: rest => kava_attempts rest
  end.

(** The Binance Chain refund submissions of a trace. *)
Fixpoint bnb_attempts (evs : list Event) : list (option string) :=
  match evs with
  | [] => []
  | EvRefundHTLT _ id _ :: rest => id :: bnb_attempts rest
  | _ :: rest => bnb_attempts rest
  end.

(** The replies to the account metadata requests of a trace. *)
Fixpoint metadata_fetches (evs : list Event) : list (result Z) :=
  match evs with
  | [] => []
  | EvLoadMetaData r :: rest => r :: metadata_fetches rest
  | _ :: rest => metadata_fetches rest
  end.

(** The Binance Chain listing queries of a trace. *)
Fixpoint bnb_queries (evs : list Event) : list BnbQuery :=
  match evs with
  | [] => []
  | EvBnbQuery q :: rest => q :: bnb_queries rest
  | _ :: rest => bnb_queries rest
  end.

(** The Kava listing queries of a trace, with their replies. *)
Fixpoint kava_queries (evs : list Event)
  : list (KavaArgs * result (option (list KavaSwap))) :=
  match evs with
  | [] => []
  | EvGetSwaps args _ r :: rest => (args, r) :: kava_queries rest
  | _ :: rest => kava_queries rest
  end.

(** Submissions and pauses, in the order they happen. *)
Inductive Pace : Type :=
| Submit
| Pause (ms : Z).

Fixpoint pacing (evs : list Event) : list Pace :=
  match evs with
  | [] => []
  | EvRefundSwap _ _ _ _ :: rest => Submit :: pacing rest
  | EvRefundHTLT _ _ _ :: rest => Submit :: pacing rest
  | EvSleep ms :: rest => Pause ms :: pacing rest
  | _ :: rest => pacing rest
  end.

(** Every failed Kava submission of the trace is followed at once by the
    two lines of its [catch]. *)
Fixpoint kava_failures_logged (evs : list Event) : Prop :=
  match evs with
  | [] => True
  | EvRefundSwap id _ _ (Throw e) :: rest =>
      (exists rest',
          rest = EvLog (LogCouldNotRefund id) :: EvLog (LogExn e) :: rest')
      /\ kava_failures_logged rest
  | _ :: rest => kava_failures_logged rest
  end.

(** Every Binance Chain submission that raised is followed at once by the
    line of its [catch]. *)
Fixpoint bnb_failures_logged (evs : list Event) : Prop :=
  match evs with
  | [] => True
  | EvRefundHTLT _ _ (Throw e) :: rest =>
      (exists rest', rest = EvLog (LogExn e) :: rest')
      /\ bnb_failures_logged rest
  | _ :: rest => bnb_failures_logged rest
  end.

(** The pages a list of listing queries fetched. *)
Definition page_of (q : BnbQuery) : list BnbSwap :=
  match q_reply q with
  | Normal b => batch_items b
  | Throw _ => []
  end.

Definition pages_of (qs : list BnbQuery) : list BnbSwap :=
  flat_map page_of qs.

(** ** Traces of the submission loops *)

(** What one pass of the Kava loop leaves in the trace, given the reply of
    the chain. *)
Definition kava_item_events (fee : option Fee) (ms sequence : Z)
    (id : string) (reply : result string) : list Event :=
  [EvLog (LogRefunding (Some id)); EvRefundSwap id fee sequence reply]
  ++ match reply with
     | Normal txHash => [EvLog (LogTxHash txHash)]
     | Throw e => [EvLog (LogCouldNotRefund id); EvLog (LogExn e)]
     end
  ++ [EvSleep ms].

(** The sequence number that the loop computes from the account's
    sequence [base] when its counter is [i]. *)
Definition sequence_of (base i : Z) : Z := js_add (js_Number base) i.

(** What the loop leaves from the counter [i] on. *)
Fixpoint kava_batch_events (fee : option Fee) (ms base i : Z)
    (ids : list string) (replies : list (result string)) : list Event :=
  match ids, replies with
  | id :: ids', reply :: replies' =>
      kava_item_events fee ms (sequence_of base i) id reply
      ++ kava_batch_events fee ms base (js_add i 1) ids' replies'
  | _, _ => []
  end.

(** The line a Binance Chain pass prints after the reply, if any. *)
Definition bnb_reply_events (reply : result (option HtltRes)) : list Event :=
  match reply with
  | Normal (Some res) =>
      if res_status res =? 200
      then match res_hashes res with
           | hash :: _ => [EvLog (LogTxHash hash)]
           | [] => [EvLog (LogExn (TypeError "result[0] is undefined"))]
           end
      else []
  | Normal None => []
  | Throw e => [EvLog (LogExn e)]
  end.

Definition bnb_item_events (from : string) (ms : Z) (id : option string)
    (reply : result (option HtltRes)) : list Event :=
  [EvLog (LogRefunding id); EvRefundHTLT from id reply]
  ++ bnb_reply_events reply ++ [EvSleep ms].

Fixpoint bnb_batch_events (from : string) (ms : Z) (ids : list (option string))
    (replies : list (result (option HtltRes))) : list Event :=
  match ids, replies with
  | id :: ids', reply :: replies' =>
      bnb_item_events from ms id reply
      ++ bnb_batch_events from ms ids' replies'
  | _, _ => []
  end.

(** The sequence numbers of a batch: the i-th is [base + i]. *)
Fixpoint numbered (base : Z) (ids : list string) : list (string * Z) :=
  match ids with
  | [] => []
  | id :: ids' => (id, base) :: numbered (base + 1) ids'
  end.

(** The sequence numbers as the loop computes them, from the counter [i]
    on. *)
Fixpoint js_numbered (base i : Z) (ids : list string) : list (string * Z) :=
  match ids with
  | [] => []
  | id :: ids' => (id, sequence_of base i) :: js_numbered base (js_add i 1) ids'
  end.


(** ** Scripted chains

    A world that answers each kind of call from a list of prepared
    replies, to run the bot on explicit inputs.  When a list is used up the
    chain answers with an empty page, sequence 0, height 0, a hash ["tx"] or
    an empty HTTP reply.  A swap ID joins the three fields; an empty hash
    cannot be encoded. *)

Record Script : Type := mkScript {
  on_getSwaps : list (result (option (list KavaSwap)));
  on_loadMetaData : list (result Z);
  on_refundSwap : list (result string);
  on_nodeInfo : list (result Z);
  on_getSwapByCreator : list (result (option (list BnbSwap)));
  on_getSwapByRecipient : list (result (option (list BnbSwap)));
  on_refundHTLT : list (result (option HtltRes))
}.

Definition next_reply {A} (default : A) (l : list A) : A * list A :=
  match l with
  | [] => (default, [])
  | r :: rest => (r, rest)
  end.

Definition scripted : Sdk Script :=
  {| sdk_getSwaps := fun _ _ w =>
       let (r, l) := next_reply (Normal (Some [])) (on_getSwaps w) in
       (r, mkScript l (on_loadMetaData w) (on_refundSwap w) (on_nodeInfo w)
             (on_getSwapByCreator w) (on_getSwapByRecipient w)
             (on_refundHTLT w));
     sdk_loadMetaData := fun w =>
       let (r, l) := next_reply (Normal 0) (on_loadMetaData w) in
       (r, mkScript (on_getSwaps w) l (on_refundSwap w) (on_nodeInfo w)
             (on_getSwapByCreator w) (on_getSwapByRecipient w)
             (on_refundHTLT w));
     sdk_refundSwap := fun _ _ _ w =>
       let (r, l) := next_reply (Normal "tx") (on_refundSwap w) in
       (r, mkScript (on_getSwaps w) (on_loadMetaData w) l (on_nodeInfo w)
             (on_getSwapByCreator w) (on_getSwapByRecipient w)
             (on_refundHTLT w));
     sdk_calculateSwapID := fun h s o =>
       if String.eqb h EmptyString
       then Throw (Error "randomNumberHash is not a hex string")
       else Normal (h ++ "/" ++ s ++ "/" ++ o)%string;
     sdk_nodeInfo := fun w =>
       let (r, l) := next_reply (Normal 0) (on_nodeInfo w) in
       (r, mkScript (on_getSwaps w) (on_loadMetaData w) (on_refundSwap w) l
             (on_getSwapByCreator w) (on_getSwapByRecipient w)
             (on_refundHTLT w));
     sdk_getSwapByCreator := fun _ _ _ w =>
       let (r, l) := next_reply (Normal (Some [])) (on_getSwapByCreator w) in
       (r, mkScript (on_getSwaps w) (on_loadMetaData w) (on_refundSwap w)
             (on_nodeInfo w) l (on_getSwapByRecipient w) (on_refundHTLT w));
     sdk_getSwapByRecipient := fun _ _ _ w =>
       let (r, l) := next_reply (Normal (Some [])) (on_getSwapByRecipient w) in
       (r, mkScript (on_getSwaps w) (on_loadMetaData w) (on_refundSwap w)
             (on_nodeInfo w) (on_getSwapByCreator w) l (on_refundHTLT w));
     sdk_refundHTLT := fun _ _ w =>
       let (r, l) := next_reply (Normal None) (on_refundHTLT w) in
       (r, mkScript (on_getSwaps w) (on_loadMetaData w) (on_refundSwap w)
             (on_nodeInfo w) (on_getSwapByCreator w)
             (on_getSwapByRecipient w) l) |}.

(** The bot [scripts/start.js] builds: [new RefundBot(deputyAddresses)]. *)
Definition default_bot (deputies : list string) : RefundBot :=
  mkRefundBot deputies 100 0 0.

(** A fresh state: the bot facing a scripted chain, nothing traced yet. *)
Definition boot (bot : RefundBot) (w : Script) : St Script := mkSt w bot [].

(** What the part of [refundKavaSwaps] after the scan leaves in the trace,
    given the reply [r] to the metadata request. *)
Definition kava_submit_events (fee : option Fee) (ms : Z) (ids : list string)
    (r : result Z) (replies : list (result string)) : list Event :=
  [EvLog (LogKavaCount (List.length ids)); EvLoadMetaData r]
  ++ match r with
     | Normal base => kava_batch_events fee ms base 0 ids replies
     | Throw e => [EvLog (LogExn e)]
     end.

(** The same for [refundBinanceChainSwaps]. *)
Definition bnb_submit_events (from : string) (ms : Z)
    (ids : list (option string)) (replies : list (result (option HtltRes)))
  : list Event :=
  EvLog (LogBnbCount (List.length ids)) :: bnb_batch_events from ms ids replies.

(** The sequence policy of a Kava batch over the swap IDs [ids]: the
    account metadata is requested once, before any submission; then the
    swaps are submitted in order, one submission each, the i-th with the
    sum of the reply and [i] as JavaScript adds them (as long as that is
    finite); as long as the numbers stay within 2^53, where JavaScript adds
    exactly, that is the reply plus [i].  When the request raised there is
    no submission. *)
Definition sequenced_batch (ids : list string) (evs : list Event) : Prop :=
  exists r before after,
    evs = before ++ EvLoadMetaData r :: after
    /\ metadata_fetches before = []
    /\ kava_attempts before = []
    /\ metadata_fetches after = []
    /\ match r with
       | Normal baseSequence =>
           (js_finite_sum baseSequence (Z.of_nat (List.length ids)) ->
            kava_attempts after = js_numbered baseSequence 0 ids)
           /\ map fst (kava_attempts after) = ids
           /\ (0 <= baseSequence ->
               baseSequence + Z.of_nat (List.length ids) <= 2 ^ 53 ->
               forall i id,
                 nth_error ids i = Some id ->
                 nth_error (kava_attempts after) i
                 = Some (id, baseSequence + Z.of_nat i))
       | Throw _ => kava_attempts after = []
       end.

(** The sequence policy in the words of the specification: the i-th
    submission carries the reply plus [i], whatever the numbers. *)
Definition sequenced_as_claimed (ids : list string) (evs : list Event)
  : Prop :=
  forall r before after,
    evs = before ++ EvLoadMetaData (Normal r) :: after ->
    forall i id,
      nth_error ids i = Some id ->
      nth_error (kava_attempts after) i = Some (id, r + Z.of_nat i).

(** Each submission of the trace is followed by a pause of [ms]
    milliseconds before the next one, and there is no other pause. *)
Definition paced (ms : Z) (evs : list Event) : Prop :=
  exists n : nat, pacing evs = List.concat (repeat [Submit; Pause ms] n).

(** One submission per discovered swap ID, failures logged: what a Kava
    batch over [ids] leaves in the trace when the metadata request
    succeeded, and what it leaves when that request raised. *)
Definition kava_batch_attempted (ids : list string) (evs : list Event)
  : Prop :=
  kava_failures_logged evs
  /\ match metadata_fetches evs with
     | [Normal _] => map fst (kava_attempts evs) = ids
     | [Throw e] => kava_attempts evs = [] /\ In (EvLog (LogExn e)) evs
     | _ => False
     end.

(** One submission per swap ID of a Binance Chain batch, failures logged. *)
Definition bnb_batch_attempted (ids : list (option string))
    (evs : list Event) : Prop :=
  bnb_attempts evs = ids /\ bnb_failures_logged evs.

(** *** Explicit inputs *)

Definition swapA : KavaSwap := mkKavaSwap "hashA" "kava1a" "bnb1a".
Definition swapB : KavaSwap := mkKavaSwap "hashB" "kava1b" "bnb1b".

(** Kava lists two expired swaps; the account sequence is 7; the first
    refund is rejected, the second accepted. *)
Definition two_expired : St Script :=
  boot (default_bot ["bnb1deputy"])
    (mkScript [Normal (Some [swapA; swapB])] [Normal 7]
       [Throw (Error "rejected"); Normal "0xB"] [] [] [] []).

(** Kava lists one expired swap and the metadata request fails. *)
Definition metadata_down : St Script :=
  boot (default_bot ["bnb1deputy"])
    (mkScript [Normal (Some [swapA])] [Throw (Error "ECONNREFUSED")]
       [] [] [] [] []).

Definition open_expired (id : string) : BnbSwap := mkBnbSwap id 1 10.
Definition open_pending (id : string) : BnbSwap := mkBnbSwap id 1 1000.
Definition completed (id : string) : BnbSwap := mkBnbSwap id 2 10.

(** One expired swap on each chain: Kava lists [swapA], the deputy created
    one open swap that expired before height 50. *)
Definition one_on_each_chain : St Script :=
  boot (default_bot ["bnb1deputy"])
    (mkScript [Normal (Some [swapA])] [Normal 7] [] [Normal 50; Normal 50]
       [Normal (Some [open_expired "s1"])] [] []).

(** ** Runs of the Binance Chain scan, query by query

    The listing queries of one call of [getRefundableBinanceSwaps], in
    order, with the scan variables before and after.  The first argument
    lists the deputies still to scan: its head is the one being paged. *)

Section Runs.
Variables (incoming : bool) (lim : Z).

(** The query the scan sends to [deputy] with the variables [v]. *)
Definition query_of (deputy : string) (v : ScanVars)
    (reply : result (option (list BnbSwap))) : BnbQuery :=
  mkBnbQuery incoming deputy lim (v_offset incoming v) reply.

(** Entry point: a query that raises ends the deputy's loop and leaves the
    variables as they are; an empty or absent batch ends it and resets the
    offsets to [start_in], [start_out]; a batch with items is followed by
    another query to the same deputy. *)
Inductive index_run (start_in start_out latest : Z)
  : list string -> ScanVars -> list BnbQuery -> ScanVars -> Prop :=
| index_done v :
    index_run start_in start_out latest [] v [] v
| index_error d ds v e qs v' :
    index_run start_in start_out latest ds v qs v' ->
    index_run start_in start_out latest (d :: ds) v
      (query_of d v (Throw e) :: qs) v'
| index_empty d ds v b qs v' :
    present_nonempty b = false ->
    index_run start_in start_out latest ds
      (mkScanVars (openSwaps v) start_in start_out) qs v' ->
    index_run start_in start_out latest (d :: ds) v
      (query_of d v (Normal b) :: qs) v'
| index_page d ds v b qs v' :
    present_nonempty b = true ->
    index_run start_in start_out latest (d :: ds)
      (advance incoming lim (batch_items b)
         (filter (Index.refundable latest) (batch_items b)) v) qs v' ->
    index_run start_in start_out latest (d :: ds) v
      (query_of d v (Normal b) :: qs) v'.

(** Older copy: a query that raises ends the whole scan with [undefined],
    an absent batch ends it with a [TypeError], an empty batch ends the
    deputy's loop and resets nothing. *)
Inductive legacy_run
  : list string -> ScanVars -> list BnbQuery ->
    result (flow ScanVars (option (list string))) -> Prop :=
| legacy_done v :
    legacy_run [] v [] (Normal (Fallthrough v))
| legacy_error d ds v e :
    legacy_run (d :: ds) v [query_of d v (Throw e)] (Normal (Return None))
| legacy_absent d ds v :
    legacy_run (d :: ds) v [query_of d v (Normal None)]
      (Throw (TypeError "swapBatch is undefined"))
| legacy_empty d ds v b qs out :
    nonempty b = false ->
    legacy_run ds v qs out ->
    legacy_run (d :: ds) v (query_of d v (Normal (Some b)) :: qs) out
| legacy_page d ds v b qs out :
    nonempty b = true ->
    legacy_run (d :: ds)
      (advance incoming lim b (filter Legacy.refundable b) v) qs out ->
    legacy_run (d :: ds) v (query_of d v (Normal (Some b)) :: qs) out.
End Runs.

(** *** Kinds of replies to a listing query *)

(** A page of exactly [lim] items, with at least one item. *)
Definition full_page (lim : Z) (q : BnbQuery) : Prop :=
  exists b, q_reply q = Normal (Some b)
            /\ nonempty b = true /\ Z.of_nat (List.length b) = lim.

(** A page with at least one item. *)
Definition some_page (q : BnbQuery) : Prop :=
  exists b, q_reply q = Normal (Some b) /\ nonempty b = true.

(** An empty batch, or none at all. *)
Definition empty_page (q : BnbQuery) : Prop :=
  exists b, q_reply q = Normal b /\ present_nonempty b = false.

(** The request raised. *)
Definition failed_query (q : BnbQuery) : Prop :=
  exists e, q_reply q = Throw e.

(** The offset the scan of a direction starts from. *)
Definition start_offset (incoming : bool) (bot : RefundBot) : Z :=
  if incoming then offsetIncoming bot else offsetOutgoing bot.

(** The refundable predicate in the words of the specification: the swap is
    open and its expiry height is at most the latest block height. *)
Definition open_and_expired (latest : Z) (swap : BnbSwap) : bool :=
  (status swap =? 1) && (expireHeight swap <=? latest).

(** The predicate of the older copy: the swap is open. *)
Definition open_swap (swap : BnbSwap) : bool := status swap =? 1.

(** What [getRefundableBinanceSwaps] of the older copy returns after its
    loops ended with [out]. *)
Definition legacy_scan_result
    (out : result (flow ScanVars (option (list string))))
  : result (option (list string)) :=
  match out with
  | Normal (Fallthrough v) => Normal (Some (map swapId (openSwaps v)))
  | Normal (Return r) => Normal r
  | Throw e => Throw e
  end.

(** Two deputies that follow one another in the configured list. *)
Definition next_deputy (deputies : list string) (a b : string) : Prop :=
  exists before after, deputies = before ++ a :: b :: after.

(** How a scan passes from one deputy to the next: [q] is the last query to
    a deputy and [q'] the first to the deputy after it. *)
Definition handover (bot : RefundBot) (q q' : BnbQuery) : Prop :=
  next_deputy (deputyAddresses bot) (q_address q) (q_address q').

(** The offset policy that the queries [qs] of a scan obey.  The first
    query is sent at the starting offset.  A page with items is followed by
    another query to the same deputy; when the page had exactly [limit]
    items that query is sent at the sum of the offset and [limit] as
    JavaScript adds them (as long as that is finite), which is [limit]
    further as long as the sum stays within 2^53.  An empty or absent batch ends the loop of its deputy: the
    next query, if there is one, goes to the next deputy of the list, at
    the starting offset when the scan [resets] and at the same offset when
    it does not. *)
Definition offset_policy (resets incoming : bool) (bot : RefundBot)
    (qs : list BnbQuery) : Prop :=
  forall pre q post,
    qs = pre ++ q :: post ->
    (pre = [] -> q_offset q = start_offset incoming bot)
    /\ (some_page q ->
        exists q' post', post = q' :: post' /\ q_address q' = q_address q)
    /\ (full_page (limit bot) q ->
        exists q' post',
          post = q' :: post'
          /\ q_address q' = q_address q
          /\ (js_finite_sum (q_offset q) (limit bot) ->
              q_offset q' = js_add (q_offset q) (limit bot))
          /\ (- 2 ^ 53 <= q_offset q + limit bot <= 2 ^ 53 ->
              q_offset q' = q_offset q + limit bot))
    /\ (empty_page q ->
        forall q' post',
          post = q' :: post' ->
          handover bot q q'
          /\ q_offset q' = if resets then start_offset incoming bot
                           else q_offset q).

(** ** Page-until-empty loops and the replies of the chain *)

(** What a reply to a listing request is to the loop that sent it. *)
Inductive Verdict (A : Type) : Type :=
| GotPage (items : list A)
| GotNothing
| Failed.
Arguments GotPage {A} items.
Arguments GotNothing {A}.
Arguments Failed {A}.

(** Entry point: a batch with items is a page, an empty or absent batch is
    nothing, an exception is a failure. *)
Definition index_verdict {A} (r : result (option (list A))) : Verdict A :=
  match r with
  | Throw _ => Failed
  | Normal b => if present_nonempty b then GotPage (batch_items b)
                else GotNothing
  end.

(** Older copy: an absent batch makes [swapBatch.length] raise. *)
Definition legacy_verdict {A} (r : result (option (list A))) : Verdict A :=
  match r with
  | Throw _ => Failed
  | Normal None => Failed
  | Normal (Some b) => if nonempty b then GotPage b else GotNothing
  end.

Section LoopRuns.
Context {W L R A : Type}.
(** The body of the loop, and the verdict on the reply that the chain gives
    in state [s] to the request the loop sends with its variables [l]. *)
Variable body : L -> M W (step L R).
Variable verdict_at : L -> St W -> Verdict A.

(** The chain eventually answers a request of the loop with an empty batch
    or an error: now, or after a page and the pass that consumes it. *)
Inductive client_stops : L -> St W -> Prop :=
| stops_now l s :
    (forall items, verdict_at l s <> GotPage items) ->
    client_stops l s
| stops_later l s items l1 s1 :
    verdict_at l s = GotPage items ->
    body l s = Some (Normal (Continue l1), s1) ->
    client_stops l1 s1 ->
    client_stops l s.

(** The chain answers the requests of the loop with finitely many pages,
    whose items in order are [items], and then with an empty batch. *)
Inductive client_drains : L -> St W -> list A -> Prop :=
| drains_now l s :
    verdict_at l s = GotNothing ->
    client_drains l s []
| drains_later l s items l1 s1 rest :
    verdict_at l s = GotPage items ->
    body l s = Some (Normal (Continue l1), s1) ->
    client_drains l1 s1 rest ->
    client_drains l s (items ++ rest).

(** The chain answers the requests of the loop with finitely many pages,
    whose items in order are [items], and then with an error. *)
Inductive client_fails : L -> St W -> list A -> Prop :=
| fails_now l s :
    verdict_at l s = Failed ->
    client_fails l s []
| fails_later l s items l1 s1 rest :
    verdict_at l s = GotPage items ->
    body l s = Some (Normal (Continue l1), s1) ->
    client_fails l1 s1 rest ->
    client_fails l s (items ++ rest).
End LoopRuns.

(** A pass of a loop body that ends the loop, and how: with a value of the
    loop or an exception that satisfies [P]. *)
Definition ends_with {L R} (P : result R -> Prop) (x : result (step L R))
  : Prop :=
  match x with
  | Normal (Continue _) => False
  | Normal (Break r) => P (Normal r)
  | Throw e => P (Throw e)
  end.

(** How the two copies end a scan whose request failed: the entry point's
    Kava scan with the empty list, the older copy with [undefined] or, for
    an absent batch, with a [TypeError]. *)
Definition returns_nothing {A} (r : result (flow A (list string))) : Prop :=
  r = Normal (Return []).

Definition returns_undefined {A} (r : result (flow A (option (list string))))
  : Prop :=
  r = Normal (Return None)
  \/ r = Throw (TypeError "swapBatch is undefined").

(** Some amount of fuel lets the computation complete. *)
Definition terminates {W A} (f : nat -> M W A) (s : St W) : Prop :=
  exists fuel, f fuel s <> None.

Section Replies.
Context {W : Type} (sdk : Sdk W).

(** The reply to the Kava request of the entry point at [offset]. *)
Definition index_kava_reply (l : list KavaSwap * Z) (s : St W)
  : result (option (list KavaSwap)) :=
  fst (sdk_getSwaps sdk (ByOffset 3 (snd l) (limit (this s))) 5000 (world s)).

(** The reply to the Kava request of the older copy for [page]. *)
Definition legacy_kava_reply (l : list KavaSwap * Z) (s : St W)
  : result (option (list KavaSwap)) :=
  fst (sdk_getSwaps sdk (ByPage "Expired" (snd l) (limit (this s))) 5000
         (world s)).

(** The reply to the Binance Chain request for a deputy. *)
Definition bnb_reply (incoming : bool) (deputyAddress : string) (v : ScanVars)
    (s : St W) : result (option (list BnbSwap)) :=
  fst ((if incoming then sdk_getSwapByCreator sdk
        else sdk_getSwapByRecipient sdk)
         deputyAddress (limit (this s)) (v_offset incoming v) (world s)).
End Replies.

(** The four page-until-empty loops. *)
Section TheLoops.
Context {W : Type} (sdk : Sdk W).

Definition index_kava_loop (fuel : nat)
  : M W (flow (list KavaSwap) (list string)) :=
  while fuel (Index.kava_scan_body sdk) ([], 0).

Definition legacy_kava_loop (fuel : nat)
  : M W (flow (list KavaSwap) (option (list string))) :=
  while fuel (Legacy.kava_scan_body sdk) ([], 1).

Definition index_bnb_loop (incoming : bool) (latest : Z) (deputy : string)
    (v : ScanVars) (fuel : nat) : M W ScanVars :=
  while fuel (Index.bnb_scan_body sdk incoming latest deputy) v.

Definition legacy_bnb_loop (incoming : bool) (deputy : string)
    (v : ScanVars) (fuel : nat)
  : M W (flow ScanVars (option (list string))) :=
  while fuel (Legacy.bnb_scan_body sdk incoming deputy) v.
End TheLoops.

(** [start.js]: [cron.schedule(cronTimer, () => { refundBot.refundSwaps() })],
    for ticks far enough apart that a cycle has ended before the next one
    starts.  The promise of a cycle is dropped, so a cycle that raised does
    not stop the next tick. *)
Fixpoint cron {W} (ticks : nat) (cycle : M W unit) : M W unit :=
  match ticks with
  | O => ret tt
  | S ticks' => try cycle ;; cron ticks' cycle
  end.

(** What [printOffsets] prints for a bot. *)
Definition printed_offsets (bot : RefundBot) : list Event :=
  [EvLog LogOffsetsHeader;
   EvLog (LogOffsetIncoming (offsetIncoming bot));
   EvLog (LogOffsetOutgoing (offsetOutgoing bot))].

(** The verdicts on the replies to the requests of the four loops. *)
Section Verdicts.
Context {W : Type} (sdk : Sdk W).

Definition index_kava_verdict (l : list KavaSwap * Z) (s : St W)
  : Verdict KavaSwap :=
  index_verdict (index_kava_reply sdk l s).

Definition legacy_kava_verdict (l : list KavaSwap * Z) (s : St W)
  : Verdict KavaSwap :=
  legacy_verdict (legacy_kava_reply sdk l s).

Definition index_bnb_verdict (incoming : bool) (deputy : string)
    (v : ScanVars) (s : St W) : Verdict BnbSwap :=
  index_verdict (bnb_reply sdk incoming deputy v s).

Definition legacy_bnb_verdict (incoming : bool) (deputy : string)
    (v : ScanVars) (s : St W) : Verdict BnbSwap :=
  legacy_verdict (bnb_reply sdk incoming deputy v s).
End Verdicts.

(** What the calculation of the swap IDs of the listed [items] comes to:
    the IDs of all the items, each being the one calculated for the item at
    its place, or the exception of the first item on which
    [calculateSwapID] raises. *)
Definition ids_of_items {W} (sdk : Sdk W) (items : list KavaSwap)
    (ids : list string) : Prop :=
  Forall2 (fun swap id => swapID_of sdk swap = Normal id) items ids.

Definition first_to_raise {W} (sdk : Sdk W) (items : list KavaSwap)
    (e : exn) : Prop :=
  exists before swap after ids,
    items = before ++ swap :: after
    /\ ids_of_items sdk before ids
    /\ swapID_of sdk swap = Throw e.

Definition swapIDs_outcome {W} (sdk : Sdk W) (items : list KavaSwap)
    (r : result (list string)) : Prop :=
  match r with
  | Normal ids => ids_of_items sdk items ids
  | Throw e => first_to_raise sdk items e
  end.

(** The same for the older copy, whose scan returns [undefined] only when a
    request failed. *)
Definition legacy_swapIDs_outcome {W} (sdk : Sdk W) (items : list KavaSwap)
    (r : result (option (list string))) : Prop :=
  match r with
  | Normal (Some ids) => ids_of_items sdk items ids
  | Normal None => False
  | Throw e => first_to_raise sdk items e
  end.

(** The loops of a Binance Chain scan, one deputy after the other: the
    chain eventually answers the requests for the first deputy with an
    empty batch or an error, and does so again for each deputy after it,
    from the variables and the chain that the loop before has left. *)
Section ScanStops.
Context {W : Type} (sdk : Sdk W).
Variable incoming : bool.

Inductive index_scan_stops (latest : Z)
  : list string -> ScanVars -> St W -> Prop :=
| index_stops_nil v s :
    index_scan_stops latest [] v s
| index_stops_cons d ds v s :
    client_stops (Index.bnb_scan_body sdk incoming latest d)
      (index_bnb_verdict sdk incoming d) v s ->
    (forall fuel v' s',
        index_bnb_loop sdk incoming latest d v fuel s = Some (Normal v', s') ->
        index_scan_stops latest ds v' s') ->
    index_scan_stops latest (d :: ds) v s.

(** In the older copy only a loop that ended on an empty batch is followed
    by the loop of the next deputy. *)
Inductive legacy_scan_stops : list string -> ScanVars -> St W -> Prop :=
| legacy_stops_nil v s :
    legacy_scan_stops [] v s
| legacy_stops_cons d ds v s :
    client_stops (Legacy.bnb_scan_body sdk incoming d)
      (legacy_bnb_verdict sdk incoming d) v s ->
    (forall fuel v' s',
        legacy_bnb_loop sdk incoming d v fuel s
        = Some (Normal (Fallthrough v'), s') ->
        legacy_scan_stops ds v' s') ->
    legacy_scan_stops (d :: ds) v s.
End ScanStops.

(** The state in which the loops of a scan of the entry point start, once
    the node-info request has returned the height [latest] and left the
    chain in [w]. *)
Definition after_node_info {W} (s : St W) (latest : Z) (w : W) : St W :=
  mkSt w (this s) (trace s ++ [EvNodeInfo (Normal latest)]).

(** The variables a scan starts with. *)
Definition scan_start (bot : RefundBot) : ScanVars :=
  mkScanVars [] (offsetIncoming bot) (offsetOutgoing bot).

(** A computation that leaves the fields of the bot as they are. *)
Definition keeps_this {W A} (m : M W A) : Prop :=
  forall s r s', m s = Some (r, s') -> this s' = this s.

(** The requests of a Kava scan are numbered from [first] in steps of
    [stride]: the i-th carries the arguments [args_at (first + i * stride)],
    as long as the numbers stay within 2^53, where JavaScript adds
    exactly. *)
Definition evenly_paged (args_at : Z -> KavaArgs) (first stride : Z)
    (evs : list Event) : Prop :=
  forall i args reply,
    nth_error (kava_queries evs) i = Some (args, reply) ->
    - 2 ^ 53 <= first <= 2 ^ 53 ->
    - 2 ^ 53 <= first + Z.of_nat i * stride <= 2 ^ 53 ->
    args = args_at (first + Z.of_nat i * stride).

(** *** More explicit inputs *)

(** A bot with pages of two items. *)
Definition small_pages (deputies : list string) : RefundBot :=
  mkRefundBot deputies 2 0 0.

(** The deputy created one swap: the first page has one item, less than the
    limit of two. *)
Definition short_page : St Script :=
  boot (small_pages ["bnb1deputy"])
    (mkScript [] [] [] [Normal 50]
       [Normal (Some [open_expired "s1"])] [] []).

(** At height 50 the deputy's page holds an open swap that expires at
    height 1000, an open swap that expired at height 10 and a completed
    swap. *)
Definition mixed_page : St Script :=
  boot (default_bot ["bnb1deputy"])
    (mkScript [] [] [] [Normal 50]
       [Normal (Some [open_pending "p1"; open_expired "s1"; completed "c1"])]
       [] []).

(** Two deputies; the first created a full page of two swaps, the second
    one swap. *)
Definition two_deputies : St Script :=
  boot (small_pages ["bnb1d1"; "bnb1d2"])
    (mkScript [] [] [] [Normal 50; Normal 50]
       [Normal (Some [open_expired "a"; open_expired "b"]);
        Normal (Some []);
        Normal (Some [open_expired "c"])] [] []).

(** The Kava endpoint is down while the deputy has a swap to refund. *)
Definition kava_down : St Script :=
  boot (default_bot ["bnb1deputy"])
    (mkScript [Throw (Error "ETIMEDOUT")] [Normal 7] [] [Normal 50; Normal 50]
       [Normal (Some [open_expired "s1"])] [] []).

(** The node-info request of the Binance Chain scan fails. *)
Definition node_info_down : St Script :=
  boot (default_bot ["bnb1deputy"])
    (mkScript [] [Normal 7] [] [Throw (Error "ETIMEDOUT")]
       [Normal (Some [open_expired "s1"])] [] []).

(** The first page of the deputy is full, the request for the second
    raises. *)
Definition page_then_error : St Script :=
  boot (small_pages ["bnb1deputy"])
    (mkScript [] [] [] [Normal 50; Normal 50]
       [Normal (Some [open_expired "a"; open_expired "b"]);
        Throw (Error "ETIMEDOUT")] [] []).

(** Where and at which offset the listing queries of a trace were sent,
    with the number of items each returned. *)
Definition query_log (evs : list Event) : list (string * Z * nat) :=
  map (fun q => (q_address q, q_offset q, List.length (page_of q)))
    (bnb_queries evs).

(** The offset policy in the words of the specification, on two successive
    queries to one deputy: the offset advances by [lim] only when the page
    returned had exactly [lim] items. *)
Definition advances_only_when_full (lim : Z) (qs : list BnbQuery) : Prop :=
  forall pre q q' post,
    qs = pre ++ q :: q' :: post ->
    q_address q' = q_address q ->
    q_offset q' = q_offset q + lim ->
    Z.of_nat (List.length (page_of q)) = lim.

(** A cycle followed by [printOffsets]. *)
Definition cycle_then_print {W} (cycle : M W unit) : M W unit :=
  try cycle ;; printOffsets.

(** The lines of [printOffsets] in a trace. *)
Fixpoint offset_lines (evs : list Event) : list LogMsg :=
  match evs with
  | [] => []
  | EvLog LogOffsetsHeader :: rest => LogOffsetsHeader :: offset_lines rest
  | EvLog (LogOffsetIncoming o) :: rest =>
      LogOffsetIncoming o :: offset_lines rest
  | EvLog (LogOffsetOutgoing o) :: rest =>
      LogOffsetOutgoing o :: offset_lines rest
  | _ :: rest => offset_lines rest
  end.

(** Two deputies; the request for the first raises, the second created one
    swap. *)
Definition first_deputy_down : St Script :=
  boot (default_bot ["bnb1d1"; "bnb1d2"])
    (mkScript [] [] [] [Normal 50; Normal 50]
       [Throw (Error "ETIMEDOUT"); Normal (Some [open_expired "c"])] [] []).

(** The deputy created one swap; the request for the swaps it receives
    raises. *)
Definition outgoing_down : St Script :=
  boot (default_bot ["bnb1deputy"])
    (mkScript [] [] [] [Normal 50; Normal 50]
       [Normal (Some [open_expired "s1"])] [Throw (Error "ETIMEDOUT")] []).

(** Kava lists two expired swaps and the account sequence is 2^53. *)
Definition large_sequence : St Script :=
  boot (default_bot ["bnb1deputy"])
    (mkScript [Normal (Some [swapA; swapB])] [Normal (2 ^ 53)] [] [] [] []
       []).

(** A listed swap whose hash is empty. *)
Definition swapX : KavaSwap := mkKavaSwap "" "kava1x" "bnb1x".

(** Kava lists a swap that cannot be encoded, while the deputy has a swap
    to refund. *)
Definition unhashable_swap : St Script :=
  boot (default_bot ["bnb1deputy"])
    (mkScript [Normal (Some [swapA; swapX])] [Normal 7] [] [Normal 50; Normal 50]
       [Normal (Some [open_expired "s1"])] [] []).

(** Kava lists one swap, then the request for the next page raises. *)
Definition kava_page_then_error : St Script :=
  boot (default_bot ["bnb1deputy"])
    (mkScript [Normal (Some [swapA]); Throw (Error "ETIMEDOUT")] [Normal 7]
       [] [] [] [] []).

(** Everything a trace printed. *)
Fixpoint log_lines (evs : list Event) : list LogMsg :=
  match evs with
  | [] => []
  | EvLog m :: rest => m :: log_lines rest
  | _ :: rest => log_lines rest
  end.

(** * More of the bot: what a scan, a pass and a cycle leave in the trace *)

(** A computation whose every new event satisfies [P]. *)
Definition emits {W A} (P : Event -> Prop) (m : M W A) : Prop :=
  forall s r s',
    m s = Some (r, s') ->
    exists evs, trace s' = trace s ++ evs /\ Forall P evs.

(** Events of the Kava chain, and events of Binance Chain; printing and
    pausing belong to neither. *)
Definition kava_event (e : Event) : bool :=
  match e with
  | EvGetSwaps _ _ _ | EvLoadMetaData _ | EvRefundSwap _ _ _ _ => true
  | _ => false
  end.

Definition bnb_event (e : Event) : bool :=
  match e with
  | EvNodeInfo _ | EvBnbQuery _ | EvRefundHTLT _ _ _ => true
  | _ => false
  end.

(** What a Kava scan may do: list swaps and print. *)
Definition kava_scan_event (e : Event) : Prop :=
  match e with
  | EvGetSwaps _ _ _ | EvLog _ => True
  | _ => False
  end.

(** What a Binance Chain scan of one direction may do: ask for the node
    info, list swaps of that direction and print. *)
Definition bnb_scan_event (incoming : bool) (e : Event) : Prop :=
  match e with
  | EvNodeInfo _ | EvLog _ => True
  | EvBnbQuery q => q_incoming q = incoming
  | _ => False
  end.

(** What the Kava submission may do. *)
Definition kava_submit_event (e : Event) : Prop :=
  match e with
  | EvLoadMetaData _ | EvRefundSwap _ _ _ _ | EvLog _ | EvSleep _ => True
  | _ => False
  end.

(** What the Binance Chain submission may do. *)
Definition bnb_submit_event (e : Event) : Prop :=
  match e with
  | EvRefundHTLT _ _ _ | EvLog _ | EvSleep _ => True
  | _ => False
  end.

(** The items of all the pages that the Kava requests of a trace
    returned, in order. *)
Fixpoint kava_items (evs : list Event) : list KavaSwap :=
  match evs with
  | [] => []
  | EvGetSwaps _ _ (Normal b) :: rest => batch_items b ++ kava_items rest
  | _ :: rest => kava_items rest
  end.

(** Some Kava request of the trace raised. *)
Fixpoint kava_query_failed (evs : list Event) : bool :=
  match evs with
  | [] => false
  | EvGetSwaps _ _ (Throw _) :: _ => true
  | _ :: rest => kava_query_failed rest
  end.

(** Some Kava request of the trace returned no batch at all. *)
Fixpoint kava_batch_absent (evs : list Event) : bool :=
  match evs with
  | [] => false
  | EvGetSwaps _ _ (Normal None) :: _ => true
  | _ :: rest => kava_batch_absent rest
  end.

(** The milliseconds a trace spent in [sleep]. *)
Fixpoint total_pause (evs : list Event) : Z :=
  match evs with
  | [] => 0
  | EvSleep ms :: rest => ms + total_pause rest
  | _ :: rest => total_pause rest
  end.

(** A computation that can only raise exceptions satisfying [Q]. *)
Definition raises_only {W A} (Q : exn -> Prop) (m : M W A) : Prop :=
  forall s e s', m s = Some (Throw e, s') -> Q e.

Definition is_TypeError (e : exn) : Prop := exists message, e = TypeError message.

(** The events [evs] fall into successive phases, one per predicate: first
    events of the first kind only, then events of the second kind only, and
    so on.  A phase may be empty. *)
Fixpoint in_phases (kinds : list (Event -> Prop)) (evs : list Event) : Prop :=
  match kinds with
  | [] => evs = []
  | kind :: kinds' =>
      exists now later,
        evs = now ++ later /\ Forall kind now /\ in_phases kinds' later
  end.

(** The phases of a cycle. *)
Definition cycle_phases : list (Event -> Prop) :=
  [kava_scan_event; kava_submit_event;
   bnb_scan_event true; bnb_scan_event false; bnb_submit_event].

(** A computation whose new events fall into the phases [kinds]. *)
Definition emits_phases {W A} (kinds : list (Event -> Prop)) (m : M W A)
  : Prop :=
  forall s r s',
    m s = Some (r, s') ->
    exists evs, trace s' = trace s ++ evs /\ in_phases kinds evs.

(** A listing query that ends the loop of its deputy: it raised, or it
    returned an empty batch or none. *)
Definition ends_loop (q : BnbQuery) : bool :=
  match q_reply q with
  | Throw _ => true
  | Normal b => negb (present_nonempty b)
  end.

(** A listing query asked as the bot is configured: in the direction of the
    scan, with the bot's page size, to one of its deputies. *)
Definition as_configured (incoming : bool) (bot : RefundBot) (q : BnbQuery)
  : Prop :=
  q_incoming q = incoming
  /\ q_limit q = limit bot
  /\ In (q_address q) (deputyAddresses bot).

(** The offset of the request that follows a page of [n] items received at
    [offset]: the sum of [offset] and [lim] as JavaScript adds them, or
    [offset] again. *)
Definition offset_after_page (lim offset : Z) (n : nat) : Z :=
  if Z.of_nat n <=? lim then js_add offset lim else offset.

(** The request [q'] is the one the loop sends after request [q] was
    answered with a page of [n] items: to the same deputy; when the page
    had at most [lim] items, at the sum of the offset of [q] and [lim] as
    JavaScript adds them (as long as that is finite), which is their exact
    sum while that stays within 2^53; and when the page had more than [lim]
    items, at the offset of [q] again. *)
Definition asked_next (lim : Z) (q : BnbQuery) (n : nat) (q' : BnbQuery)
  : Prop :=
  q_address q' = q_address q
  /\ (js_finite_sum (q_offset q) lim ->
      q_offset q' = offset_after_page lim (q_offset q) n)
  /\ (Z.of_nat n <= lim ->
      - 2 ^ 53 <= q_offset q + lim <= 2 ^ 53 ->
      q_offset q' = q_offset q + lim)
  /\ (lim < Z.of_nat n -> q_offset q' = q_offset q).

(** The event is no submission to Binance Chain. *)
Definition no_bnb_submission (e : Event) : Prop :=
  match e with
  | EvRefundHTLT _ _ _ => False
  | _ => True
  end.

(** A computation whose new events, taken together, satisfy [T]. *)
Definition leaves {W A} (T : list Event -> Prop) (m : M W A) : Prop :=
  forall s r s',
    m s = Some (r, s') -> exists evs, trace s' = trace s ++ evs /\ T evs.

(** The pauses of the trace add up to [kava_ms] for each refund submitted
    to Kava plus [bnb_ms] for each refund submitted to Binance Chain. *)
Definition pauses_accounted (kava_ms bnb_ms : Z) (evs : list Event) : Prop :=
  total_pause evs
  = kava_ms * Z.of_nat (List.length (kava_attempts evs))
    + bnb_ms * Z.of_nat (List.length (bnb_attempts evs)).

(** Neither a pause nor a submission. *)
Definition no_pause_no_submission (e : Event) : Prop :=
  match e with
  | EvSleep _ | EvRefundSwap _ _ _ _ | EvRefundHTLT _ _ _ => False
  | _ => True
  end.

(** * Start-up: the constructor's caller and the two [init] methods *)

(** [!x] for a string that may be [undefined]: true for [undefined] and
    for the empty string. *)
Definition falsy (x : option string) : bool :=
  match x with
  | None => true
  | Some EmptyString => true
  | Some (String _ _) => false
  end.

(** The string of an argument already known not to be [undefined]. *)
Definition text (x : option string) : string :=
  match x with
  | Some s => s
  | None => ""
  end.

(** [s.split(sep)] for a one-character separator: the pieces between the
    separators, a piece being empty where two separators touch or where
    the string starts or ends with one. *)
Fixpoint split_on (sep : Ascii.ascii) (s : string) : list string :=
  match s with
  | EmptyString => [EmptyString]
  | String c rest =>
      if Ascii.eqb c sep then EmptyString :: split_on sep rest
      else match split_on sep rest with
           | piece :: pieces => String c piece :: pieces
           | [] => [String c EmptyString]
           end
  end.

(** The character [,]. *)
Definition comma : Ascii.ascii := Ascii.ascii_of_nat 44.

(** The clients a bot holds once [initKavaClient] and [initBnbChainClient]
    have run: the arguments each client was constructed with, and the
    bot's own Binance Chain address. *)
Record KavaClient : Type := mkKavaClient {
  kc_lcdURL : string;
  kc_rpcURL : option string
}.

Record Clients : Type := mkClients {
  c_kavaClient : option KavaClient;
  c_bnbClient : option string;
  c_bnbChainAddress : option string
}.

Definition no_clients : Clients := mkClients None None None.

(** What an [init] method returns: [this], or [undefined] after a failed
    connection. *)
Inductive InitReturn : Type :=
| ReturnedThis
| ReturnedUndefined.

Inductive Job : Type :=
| RunRefundSwaps
| RunPrintOffsets.

(** What start-up does to the outside. *)
Inductive BootEvent : Type :=
| BvNewKavaClient (lcdURL : string) (rpcURL : option string)
                  (reply : result unit)
| BvSetWallet (mnemonic : string) (reply : result unit)
| BvSetNewWallet (mnemonic : string) (reply : result unit)
| BvKavaInitChain (reply : result unit)
| BvNewBnbChain (lcdURL : string) (reply : result unit)
| BvChooseNetwork (network : string) (reply : result unit)
| BvSetPrivateKey (privateKey : string) (reply : result unit)
| BvBnbInitChain (reply : result unit)
| BvCannotConnectKava (e : exn)
| BvCannotConnectBnb (e : exn)
| BvSchedule (expression : option string) (job : Job) (reply : result unit).

(** The SDK and scheduler calls of start-up, as an oracle.  The two key
    derivations are pure. *)
Record StartSdk (W : Type) : Type := mkStartSdk {
  new_KavaClient : string -> option string -> W -> result unit * W;
  kava_setWallet : string -> W -> result unit * W;
  kava_setNewWallet : string -> W -> result unit * W;
  kava_initChain : W -> result unit * W;
  new_BnbChain : string -> W -> result unit * W;
  bnb_chooseNetwork : string -> W -> result unit * W;
  getPrivateKeyFromMnemonic : string -> result string;
  bnb_setPrivateKey : string -> W -> result unit * W;
  bnb_initChain : W -> result unit * W;
  getAddressFromPrivateKey : string -> string -> result string;
  cron_schedule : option string -> Job -> W -> result unit * W
}.
Arguments new_KavaClient {W}.
Arguments kava_setWallet {W}.
Arguments kava_setNewWallet {W}.
Arguments kava_initChain {W}.
Arguments new_BnbChain {W}.
Arguments bnb_chooseNetwork {W}.
Arguments getPrivateKeyFromMnemonic {W}.
Arguments bnb_setPrivateKey {W}.
Arguments bnb_initChain {W}.
Arguments getAddressFromPrivateKey {W}.
Arguments cron_schedule {W}.

Record Boot (W : Type) : Type := mkBoot {
  b_world : W;
  b_clients : Clients;
  b_trace : list BootEvent
}.
Arguments mkBoot {W}.
Arguments b_world {W}.
Arguments b_clients {W}.
Arguments b_trace {W}.

(** Start-up code has no loop: it always completes, with a value or an
    exception. *)
Definition B (W A : Type) : Type := Boot W -> result A * Boot W.

Section BootMonad.
Context {W : Type}.

Definition bret {A} (a : A) : B W A := fun b => (Normal a, b).

Definition bthrow {A} (e : exn) : B W A := fun b => (Throw e, b).

Definition bbind {A C} (m : B W A) (k : A -> B W C) : B W C :=
  fun b =>
    match m b with
    | (Normal a, b1) => k a b1
    | (Throw e, b1) => (Throw e, b1)
    end.

Definition btry {A} (m : B W A) : B W (result A) :=
  fun b => let (r, b1) := m b in (Normal r, b1).

Definition bcall {A} (f : W -> result A * W) (ev : result A -> BootEvent)
  : B W A :=
  fun b =>
    let (r, w) := f (b_world b) in
    (r, mkBoot w (b_clients b) (b_trace b ++ [ev r])).

(** A pure SDK function that may raise. *)
Definition bpure {A} (r : result A) : B W A := fun b => (r, b).

Definition bprint (ev : BootEvent) : B W unit :=
  fun b => (Normal tt, mkBoot (b_world b) (b_clients b) (b_trace b ++ [ev])).

Definition assign (f : Clients -> Clients) : B W unit :=
  fun b => (Normal tt, mkBoot (b_world b) (f (b_clients b)) (b_trace b)).
End BootMonad.

Declare Scope boot_scope.
Delimit Scope boot_scope with boot.
Notation "x <~ m ;; k" := (bbind m (fun x => k))
  (at level 61, m at next level, right associativity) : boot_scope.
Notation "m ;;; k" := (bbind m (fun _ => k))
  (at level 61, right associativity) : boot_scope.
Local Open Scope boot_scope.

Section StartUp.
Context {W : Type} (sdk : StartSdk W).

(** [initKavaClient(lcdURL, kavaRpcURL, mnemonic)] of the entry point. *)
Definition index_initKavaClient (lcdURL kavaRpcURL mnemonic : option string)
  : B W InitReturn :=
  if falsy lcdURL
  then bthrow (Error "Kava's chain's rest-server url is required")
  else if falsy kavaRpcURL
  then bthrow (Error "Kava's chain's rpc-server url is required")
  else if falsy mnemonic
  then bthrow (Error "Kava address mnemonic is required")
  else
    bcall (new_KavaClient sdk (text lcdURL) (Some (text kavaRpcURL)))
      (BvNewKavaClient (text lcdURL) (Some (text kavaRpcURL))) ;;;
    assign (fun c => mkClients
                       (Some (mkKavaClient (text lcdURL)
                                (Some (text kavaRpcURL))))
                       (c_bnbClient c) (c_bnbChainAddress c)) ;;;
    bcall (kava_setWallet sdk (text mnemonic)) (BvSetWallet (text mnemonic)) ;;;
    bcall (kava_setNewWallet sdk (text mnemonic))
      (BvSetNewWallet (text mnemonic)) ;;;
    r <~ btry (bcall (kava_initChain sdk) BvKavaInitChain) ;;
    match r with
    | Throw e => bprint (BvCannotConnectKava e) ;;; bret ReturnedUndefined
    | Normal _ => bret ReturnedThis
    end.

(** [initKavaClient(lcdURL, mnemonic)] of the older copy. *)
Definition legacy_initKavaClient (lcdURL mnemonic : option string)
  : B W InitReturn :=
  if falsy lcdURL
  then bthrow (Error "Kava's chain's rest-server url is required")
  else if falsy mnemonic
  then bthrow (Error "Kava address mnemonic is required")
  else
    bcall (new_KavaClient sdk (text lcdURL) None)
      (BvNewKavaClient (text lcdURL) None) ;;;
    assign (fun c => mkClients (Some (mkKavaClient (text lcdURL) None))
                       (c_bnbClient c) (c_bnbChainAddress c)) ;;;
    bcall (kava_setWallet sdk (text mnemonic)) (BvSetWallet (text mnemonic)) ;;;
    r <~ btry (bcall (kava_initChain sdk) BvKavaInitChain) ;;
    match r with
    | Throw e => bprint (BvCannotConnectKava e) ;;; bret ReturnedUndefined
    | Normal _ => bret ReturnedThis
    end.

(** [network == 'mainnet' ? 'bnb' : 'tbnb'] *)
Definition bnbAddrPrefix (network : string) : string :=
  if String.eqb network "mainnet" then "bnb" else "tbnb".

(** [initBnbChainClient(lcdURL, mnemonic, network = 'testnet')], the same
    in both copies. *)
Definition initBnbChainClient (lcdURL mnemonic network : option string)
  : B W InitReturn :=
  let network := match network with Some n => n | None => "testnet" end in
  if falsy lcdURL
  then bthrow (Error "Binance Chain's rest-server url is required")
  else if falsy mnemonic
  then bthrow (Error "Binance Chain address mnemonic is required")
  else
    bcall (new_BnbChain sdk (text lcdURL)) (BvNewBnbChain (text lcdURL)) ;;;
    assign (fun c => mkClients (c_kavaClient c) (Some (text lcdURL))
                       (c_bnbChainAddress c)) ;;;
    bcall (bnb_chooseNetwork sdk network) (BvChooseNetwork network) ;;;
    privateKey <~ bpure (getPrivateKeyFromMnemonic sdk (text mnemonic)) ;;
    bcall (bnb_setPrivateKey sdk privateKey) (BvSetPrivateKey privateKey) ;;;
    r <~ btry (bcall (bnb_initChain sdk) BvBnbInitChain) ;;
    match r with
    | Throw e => bprint (BvCannotConnectBnb e) ;;; bret ReturnedUndefined
    | Normal _ =>
        address <~ bpure (getAddressFromPrivateKey sdk privateKey
                            (bnbAddrPrefix network)) ;;
        assign (fun c => mkClients (c_kavaClient c) (c_bnbClient c)
                           (Some address)) ;;;
        bret ReturnedThis
    end.

(** [process.env], as far as [start.js] reads it. *)
Record Env : Type := mkEnv {
  CRONTAB : option string;
  KAVA_LCD_URL : option string;
  KAVA_RPC_URL : option string;
  KAVA_MNEMONIC : option string;
  BINANCE_CHAIN_LCD_URL : option string;
  BINANCE_CHAIN_MNEMONIC : option string;
  BINANCE_CHAIN_DEPUTY_ADDRESSES : option string
}.

(** [new RefundBot(deputyAddresses)] on
    [process.env.BINANCE_CHAIN_DEPUTY_ADDRESSES.split(',')]. *)
Definition bot_of_env (env : Env) : result RefundBot :=
  match BINANCE_CHAIN_DEPUTY_ADDRESSES env with
  | None => Throw (TypeError "BINANCE_CHAIN_DEPUTY_ADDRESSES is undefined")
  | Some list => new_RefundBot (split_on comma list) None None None
  end.

(** [main] of [scripts/start.js].  The two scheduled closures hold the
    bot [refundBot]; a [Job] names the method each one calls on it. *)
Definition main (env : Env) : B W unit :=
  refundBot <~ bpure (bot_of_env env) ;;
  index_initKavaClient (KAVA_LCD_URL env) (KAVA_RPC_URL env)
    (KAVA_MNEMONIC env) ;;;
  initBnbChainClient (BINANCE_CHAIN_LCD_URL env)
    (BINANCE_CHAIN_MNEMONIC env) (Some "mainnet") ;;;
  bcall (cron_schedule sdk (CRONTAB env) RunRefundSwaps)
    (BvSchedule (CRONTAB env) RunRefundSwaps) ;;;
  bcall (cron_schedule sdk (Some "* 1 * * *") RunPrintOffsets)
    (BvSchedule (Some "* 1 * * *") RunPrintOffsets).
End StartUp.


(** The jobs a trace has scheduled, with their expressions. *)
Fixpoint scheduled (evs : list BootEvent) : list (option string * Job) :=
  match evs with
  | [] => []
  | BvSchedule x j (Normal _) :: rest => (x, j) :: scheduled rest
  | _ :: rest => scheduled rest
  end.


(** A start-up world on which both servers are unreachable and everything
    else works: keys are derived by prefixing. *)
Definition unreachable : StartSdk unit :=
  {| new_KavaClient := fun _ _ w => (Normal tt, w);
     kava_setWallet := fun _ w => (Normal tt, w);
     kava_setNewWallet := fun _ w => (Normal tt, w);
     kava_initChain := fun w => (Throw (Error "ECONNREFUSED"), w);
     new_BnbChain := fun _ w => (Normal tt, w);
     bnb_chooseNetwork := fun _ w => (Normal tt, w);
     getPrivateKeyFromMnemonic := fun m => Normal ("key:" ++ m)%string;
     bnb_setPrivateKey := fun _ w => (Normal tt, w);
     bnb_initChain := fun w => (Throw (Error "ECONNREFUSED"), w);
     getAddressFromPrivateKey := fun k p => Normal (p ++ "1" ++ k)%string;
     cron_schedule := fun _ _ w => (Normal tt, w) |}.

(** The same world with both servers reachable. *)
Definition reachable : StartSdk unit :=
  {| new_KavaClient := fun _ _ w => (Normal tt, w);
     kava_setWallet := fun _ w => (Normal tt, w);
     kava_setNewWallet := fun _ w => (Normal tt, w);
     kava_initChain := fun w => (Normal tt, w);
     new_BnbChain := fun _ w => (Normal tt, w);
     bnb_chooseNetwork := fun _ w => (Normal tt, w);
     getPrivateKeyFromMnemonic := fun m => Normal ("key:" ++ m)%string;
     bnb_setPrivateKey := fun _ w => (Normal tt, w);
     bnb_initChain := fun w => (Normal tt, w);
     getAddressFromPrivateKey := fun k p => Normal (p ++ "1" ++ k)%string;
     cron_schedule := fun _ _ w => (Normal tt, w) |}.


Definition example_env : Env :=
  mkEnv (Some "*/5 * * * *") (Some "https://kava.example")
    (Some "https://rpc.kava.example") (Some "kava words")
    (Some "https://dex.example") (Some "bnb words") (Some "bnb1d1,bnb1d2").

Definition fresh_boot : Boot unit := mkBoot tt no_clients [].

(** Whether the character [c] occurs in [s]. *)
Fixpoint has_char (c : Ascii.ascii) (s : string) : bool :=
  match s with
  | EmptyString => false
  | String c' rest => Ascii.eqb c' c || has_char c rest
  end.

(** How many times the character [c] occurs in [s]. *)
Fixpoint count_char (c : Ascii.ascii) (s : string) : nat :=
  match s with
  | EmptyString => O
  | String c' rest =>
      if Ascii.eqb c' c then S (count_char c rest) else count_char c rest
  end.



(** The two jobs of [start.js], in the order it schedules them. *)
Definition both_jobs (env : Env) : list (option string * Job) :=
  [(CRONTAB env, RunRefundSwaps); (Some "* 1 * * *", RunPrintOffsets)].

(** Whether an event is a call of [cron.schedule]. *)
Definition is_schedule (ev : BootEvent) : bool :=
  match ev with
  | BvSchedule _ _ _ => true
  | _ => false
  end.
(** * Verification *)

(** ** Running monadic code in proofs *)

Ltac run :=
  repeat (cbv beta iota delta
            [bind try call log sleep emit ret throw get_this] in *;
          cbn [fst snd world this trace] in *).

(** ** Numbers

    Sums within 2^53 are exact, and rounding never crosses a double. *)

Lemma round_double_exact z : - 2 ^ 53 <= z <= 2 ^ 53 -> round_double z = z.
Proof.
  intros Hz. unfold round_double.
  destruct (Z.abs z <? 2 ^ 53) eqn:Hm; [reflexivity|].
  apply Z.ltb_ge in Hm.
  assert (Hcases : z = 2 ^ 53 \/ z = - 2 ^ 53) by lia.
  destruct Hcases as [-> | ->]; vm_compute; reflexivity.
Qed.

Lemma js_add_exact a b : - 2 ^ 53 <= a + b <= 2 ^ 53 -> js_add a b = a + b.
Proof.
  intros H. unfold js_add.
  destruct (is_double a && is_double b);
    [now apply round_double_exact | reflexivity].
Qed.

Lemma round_double_opp z : round_double (- z) = - round_double z.
Proof.
  unfold round_double. rewrite Z.abs_opp, Z.sgn_opp.
  destruct (Z.abs z <? 2 ^ 53); [reflexivity|].
  now rewrite Z.mul_opp_l.
Qed.

Lemma ulp_of_spec m :
  2 ^ 53 <= m ->
  2 <= ulp_of m /\ 2 ^ 52 * ulp_of m <= m < 2 ^ 53 * ulp_of m.
Proof.
  intros Hm. unfold ulp_of.
  assert (Hpos : 0 < m) by lia.
  pose proof (Z.log2_spec m Hpos) as [Hlo Hhi].
  assert (Hlog : 53 <= Z.log2 m) by (apply Z.log2_le_pow2; lia).
  replace (Z.log2 m) with (52 + (Z.log2 m - 52)) in Hlo at 1 by lia.
  replace (Z.succ (Z.log2 m)) with (53 + (Z.log2 m - 52)) in Hhi by lia.
  rewrite Z.pow_add_r in Hlo, Hhi by lia.
  split; [|lia].
  change 2 with (2 ^ 1) at 1. apply Z.pow_le_mono_r; lia.
Qed.

Lemma ulp_of_mono a c :
  2 ^ 53 <= a -> a <= c ->
  ulp_of a = ulp_of c \/ 2 * ulp_of a <= ulp_of c.
Proof.
  intros Ha Hac. unfold ulp_of.
  assert (Hlog : 53 <= Z.log2 a) by (apply Z.log2_le_pow2; lia).
  pose proof (Z.log2_le_mono a c Hac) as Hmono.
  destruct (Z.eq_dec (Z.log2 a) (Z.log2 c)) as [->|Hne]; [now left|].
  right.
  replace (Z.log2 c - 52) with (1 + (Z.log2 a - 52) + (Z.log2 c - Z.log2 a - 1))
    by lia.
  rewrite !Z.pow_add_r by lia. change (2 ^ 1) with 2.
  assert (0 < 2 ^ (Z.log2 a - 52)) by (apply Z.pow_pos_nonneg; lia).
  assert (1 <= 2 ^ (Z.log2 c - Z.log2 a - 1)).
  { change 1 with (2 ^ 0) at 1. apply Z.pow_le_mono_r; lia. }
  nia.
Qed.

(** A large magnitude rounds to one of its two neighbours on the grid, and
    to itself when it is on the grid. *)
Lemma round_double_large m :
  2 ^ 53 <= m ->
  exists k,
    round_double m = ulp_of m * k
    /\ (k = m / ulp_of m \/ k = m / ulp_of m + 1)
    /\ (m mod ulp_of m = 0 -> k = m / ulp_of m).
Proof.
  intros Hm. unfold round_double. fold (ulp_of (Z.abs m)).
  rewrite Z.abs_eq by lia.
  replace (m <? 2 ^ 53) with false by (symmetry; apply Z.ltb_ge; lia).
  rewrite Z.sgn_pos, Z.mul_1_l by lia.
  destruct (ulp_of_spec m Hm) as [Hu _].
  eexists. split; [reflexivity|].
  destruct (2 * (m mod ulp_of m) <? ulp_of m) eqn:H1.
  - auto.
  - apply Z.ltb_ge in H1.
    destruct (ulp_of m <? 2 * (m mod ulp_of m)) eqn:H2.
    + split; [now right | intros H0; rewrite H0 in H1; lia].
    + destruct (Z.even (m / ulp_of m)); split; auto.
      intros H0; rewrite H0 in H1; lia.
Qed.

Lemma round_double_nonneg c : 0 <= c -> 0 <= round_double c.
Proof.
  intros Hc. destruct (Z_lt_le_dec c (2 ^ 53)) as [Hs|Hl].
  - rewrite round_double_exact; lia.
  - destruct (round_double_large c Hl) as (k & -> & Hk & _).
    destruct (ulp_of_spec c Hl) as [Hu _].
    assert (0 <= c / ulp_of c) by (apply Z.div_pos; lia).
    destruct Hk; subst; nia.
Qed.

(** Rounding does not cross a double: going up. *)
Lemma round_double_up a c :
  0 <= a -> round_double a = a -> a <= c -> a <= round_double c.
Proof.
  intros Ha Hfix Hac.
  destruct (Z_lt_le_dec c (2 ^ 53)) as [Hs|Hl].
  { rewrite round_double_exact; lia. }
  destruct (round_double_large c Hl) as (k & -> & Hk & _).
  destruct (ulp_of_spec c Hl) as (Hu & Hlo & Hhi).
  pose proof (Z.mul_div_le c (ulp_of c)) as Hfloor.
  assert (Hq : 2 ^ 52 <= c / ulp_of c).
  { apply Z.div_le_lower_bound; lia. }
  assert (Hdown : ulp_of c * (c / ulp_of c) <= ulp_of c * k)
    by (destruct Hk; subst; nia).
  destruct (Z_lt_le_dec a (2 ^ 53)) as [Has|Hal]; [nia|].
  destruct (round_double_large a Hal) as (j & Hj & Hjk & _).
  destruct (ulp_of_spec a Hal) as (Hua & Hloa & Hhia).
  rewrite Hfix in Hj.
  destruct (ulp_of_mono a c Hal Hac) as [Heq|Hlt].
  - rewrite Heq in Hj.
    assert (j <= c / ulp_of c) by (apply Z.div_le_lower_bound; lia).
    nia.
  - assert (Hqa : a / ulp_of a < 2 ^ 53).
    { apply Z.div_lt_upper_bound; lia. }
    assert (j <= 2 ^ 53) by (destruct Hjk; subst; lia).
    nia.
Qed.

(** Rounding does not cross a double: going down. *)
Lemma round_double_down a c :
  0 <= c -> round_double a = a -> c <= a -> round_double c <= a.
Proof.
  intros Hc Hfix Hca.
  destruct (Z_lt_le_dec c (2 ^ 53)) as [Hs|Hl].
  { rewrite round_double_exact; lia. }
  destruct (round_double_large c Hl) as (k & -> & Hk & Hgrid).
  destruct (ulp_of_spec c Hl) as (Hu & Hlo & Hhi).
  assert (Hal : 2 ^ 53 <= a) by lia.
  destruct (round_double_large a Hal) as (j & Hj & Hjk & _).
  destruct (ulp_of_spec a Hal) as (Hua & Hloa & Hhia).
  rewrite Hfix in Hj.
  assert (Hqc : c / ulp_of c < 2 ^ 53).
  { apply Z.div_lt_upper_bound; lia. }
  assert (Hqa : 2 ^ 52 <= a / ulp_of a).
  { apply Z.div_le_lower_bound; lia. }
  destruct (ulp_of_mono c a Hl Hca) as [Heq|Hlt].
  - rewrite <- Heq in Hj.
    pose proof (Z.div_mod c (ulp_of c) ltac:(lia)) as Hdm.
    pose proof (Z.mod_pos_bound c (ulp_of c) ltac:(lia)) as Hr.
    destruct (Z.eq_dec (c mod ulp_of c) 0) as [H0|Hn0].
    + rewrite (Hgrid H0). nia.
    + assert (c / ulp_of c < j) by nia.
      destruct Hk; subst k; nia.
  - assert (k <= 2 ^ 53) by (destruct Hk; subst; lia).
    assert (2 ^ 52 <= j) by (destruct Hjk; subst; lia).
    nia.
Qed.

Lemma round_double_ge a c :
  round_double a = a -> a <= c -> a <= round_double c.
Proof.
  intros Hfix Hac.
  destruct (Z_le_gt_dec 0 a) as [Ha|Ha].
  - now apply round_double_up.
  - destruct (Z_le_gt_dec 0 c) as [Hc|Hc].
    + pose proof (round_double_nonneg c Hc). lia.
    + assert (Hdown : round_double (- c) <= - a).
      { apply round_double_down; [lia| |lia].
        rewrite round_double_opp, Hfix. reflexivity. }
      rewrite round_double_opp in Hdown. lia.
Qed.

Lemma js_add_ge a b : 0 <= b -> a <= js_add a b.
Proof.
  intros Hb. unfold js_add, is_double.
  destruct (round_double a =? a) eqn:Ha; cbn [andb]; [|lia].
  apply Z.eqb_eq in Ha.
  destruct (round_double b =? b); [|lia].
  apply round_double_ge; [exact Ha | lia].
Qed.

Lemma js_Number_exact z : - 2 ^ 53 <= z <= 2 ^ 53 -> js_Number z = z.
Proof. apply round_double_exact. Qed.

Lemma sequence_of_exact base i :
  0 <= base -> 0 <= i -> base + i <= 2 ^ 53 -> sequence_of base i = base + i.
Proof.
  intros Hb Hi Hsum. unfold sequence_of.
  rewrite js_Number_exact by lia. apply js_add_exact. lia.
Qed.

(** ** Sequence numbers *)

Lemma numbered_nth (ids : list string) :
  forall base i id,
    nth_error ids i = Some id ->
    nth_error (numbered base ids) i = Some (id, base + Z.of_nat i).
Proof.
  induction ids as [|x ids IH]; intros base [|i] id H; simpl in *;
    try discriminate.
  - inversion H; subst. now rewrite Z.add_0_r.
  - rewrite (IH (base + 1) i id H). f_equal. f_equal. lia.
Qed.

Lemma numbered_length base ids :
  List.length (numbered base ids) = List.length ids.
Proof. revert base; induction ids; simpl; intros; auto. Qed.

Lemma js_numbered_ids base ids :
  forall i, map fst (js_numbered base i ids) = ids.
Proof. induction ids; simpl; intros; f_equal; auto. Qed.

(** Within 2^53 the loop numbers the submissions by exact addition. *)
Lemma js_numbered_exact base ids :
  forall i,
    0 <= base -> 0 <= i ->
    base + i + Z.of_nat (List.length ids) <= 2 ^ 53 ->
    js_numbered base i ids = numbered (base + i) ids.
Proof.
  induction ids as [|id ids IH]; intros i Hb Hi Hsum; [reflexivity|].
  cbn [js_numbered numbered]. cbn [List.length] in Hsum.
  rewrite sequence_of_exact by lia.
  rewrite js_add_exact by lia.
  rewrite IH by lia. do 2 f_equal. lia.
Qed.

Section BatchTraces.
Variables (fee : option Fee) (ms : Z).

Lemma kava_batch_attempts ids :
  forall base i replies,
    List.length replies = List.length ids ->
    kava_attempts (kava_batch_events fee ms base i ids replies)
    = js_numbered base i ids.
Proof.
  induction ids as [|id ids IH]; intros base i [|r replies] H;
    simpl in *; try discriminate; auto.
  destruct r; simpl; f_equal; apply IH; lia.
Qed.

Lemma kava_batch_metadata ids :
  forall base i replies,
    metadata_fetches (kava_batch_events fee ms base i ids replies) = [].
Proof.
  induction ids as [|id ids IH]; intros base i [|r replies];
    simpl; auto.
  destruct r; simpl; apply IH.
Qed.

Lemma kava_batch_pacing ids :
  forall base i replies,
    List.length replies = List.length ids ->
    pacing (kava_batch_events fee ms base i ids replies)
    = flat_map (fun _ => [Submit; Pause ms]) ids.
Proof.
  induction ids as [|id ids IH]; intros base i [|r replies] H;
    simpl in *; try discriminate; auto.
  destruct r; simpl; do 2 f_equal; apply IH; lia.
Qed.

Lemma kava_batch_failures ids :
  forall base i replies,
    kava_failures_logged (kava_batch_events fee ms base i ids replies).
Proof.
  induction ids as [|id ids IH]; intros base i [|r replies];
    simpl; auto.
  destruct r; simpl; auto.
  split; [eexists; reflexivity | apply IH].
Qed.
End BatchTraces.

Section BnbBatchTraces.
Variables (from : string) (ms : Z).

Lemma bnb_reply_events_quiet reply :
  bnb_attempts (bnb_reply_events reply) = []
  /\ pacing (bnb_reply_events reply) = [].
Proof.
  destruct reply as [[res|]|e]; simpl; auto.
  destruct (res_status res =? 200); simpl; auto.
  destruct (res_hashes res); simpl; auto.
Qed.

Lemma bnb_attempts_app a b :
bnb_attempts (a ++ b) = bnb_attempts a ++ bnb_attempts b.
Proof.
  induction a as [|e a IH]; simpl; auto.
  destruct e; simpl; rewrite ?IH; auto.
Qed.

Lemma pacing_app a b : pacing (a ++ b) = pacing a ++ pacing b.
Proof.
  induction a as [|e a IH]; simpl; auto.
  destruct e; simpl; rewrite ?IH; auto.
Qed.

Lemma bnb_batch_attempts ids :
  forall replies,
    List.length replies = List.length ids ->
    bnb_attempts (bnb_batch_events from ms ids replies) = ids.
Proof.
  induction ids as [|id ids IH]; intros [|r replies] H;
    simpl in *; try discriminate; auto.
  f_equal. rewrite !bnb_attempts_app.
  rewrite (proj1 (bnb_reply_events_quiet r)). simpl. apply IH; lia.
Qed.

Lemma bnb_batch_pacing ids :
  forall replies,
    List.length replies = List.length ids ->
    pacing (bnb_batch_events from ms ids replies)
    = flat_map (fun _ => [Submit; Pause ms]) ids.
Proof.
  induction ids as [|id ids IH]; intros [|r replies] H;
    simpl in *; try discriminate; auto.
  f_equal. rewrite !pacing_app.
  rewrite (proj2 (bnb_reply_events_quiet r)). simpl. f_equal.
  apply IH; lia.
Qed.

Lemma bnb_batch_failures ids :
  forall replies,
    bnb_failures_logged (bnb_batch_events from ms ids replies).
Proof.
  induction ids as [|id ids IH]; intros [|r replies]; simpl; auto.
  destruct r as [[res|]|e]; simpl; auto.
  - destruct (res_status res =? 200); simpl; auto.
    destruct (res_hashes res); simpl; auto.
  - split; [eexists; reflexivity | apply IH].
Qed.
End BnbBatchTraces.

(** ** The submission loops *)

Section SubmitLoops.
Context {W : Type} (sdk : Sdk W).
Variable bnbChainAddress : string.

(** A loop whose every pass leaves the events of one Kava submission
    leaves the events of the batch. *)
Lemma kava_loop_trace (fee : option Fee) (ms base : Z)
    (cb : string -> Z -> M W Z) :
  (forall id i s,
      exists reply s',
        cb id i s = Some (Normal (js_add i 1), s')
        /\ this s' = this s
        /\ trace s' = trace s
             ++ kava_item_events fee ms (sequence_of base i) id reply) ->
  forall ids i s,
  exists replies i' s',
    List.length replies = List.length ids
    /\ asyncForEach ids cb i s = Some (Normal i', s')
    /\ this s' = this s
    /\ trace s' = trace s ++ kava_batch_events fee ms base i ids replies.
Proof.
  intros Hcb ids; induction ids as [|id ids IH]; intros i s.
  - exists [], i, s. simpl. rewrite app_nil_r. auto.
  - destruct (Hcb id i s) as (reply & s1 & Hrun1 & Hthis1 & Htr1).
    destruct (IH (js_add i 1) s1)
      as (replies & i' & s' & Hlen & Hrun & Hthis & Htr).
    exists (reply :: replies), i', s'.
    split; [simpl; lia|].
    split.
    { cbn [asyncForEach]. unfold bind. rewrite Hrun1, Hrun. reflexivity. }
    split; [congruence|].
    rewrite Htr, Htr1. cbn [kava_batch_events].
    rewrite <- !app_assoc. reflexivity.
Qed.

Lemma bnb_loop_trace {A} (from : string) (ms : Z) (js : A -> option string)
    (cb : A -> unit -> M W unit) :
  (forall id u s,
      exists reply s',
        cb id u s = Some (Normal tt, s')
        /\ this s' = this s
        /\ trace s' = trace s ++ bnb_item_events from ms (js id) reply) ->
  forall ids s,
  exists replies s',
    List.length replies = List.length ids
    /\ asyncForEach ids cb tt s = Some (Normal tt, s')
    /\ this s' = this s
    /\ trace s' = trace s ++ bnb_batch_events from ms (map js ids) replies.
Proof.
  intros Hcb ids; induction ids as [|id ids IH]; intros s.
  - exists [], s. simpl. rewrite app_nil_r. auto.
  - destruct (Hcb id tt s) as (reply & s1 & Hrun1 & Hthis1 & Htr1).
    destruct (IH s1) as (replies & s' & Hlen & Hrun & Hthis & Htr).
    exists (reply :: replies), s'.
    split; [simpl; lia|].
    split.
    { cbn [asyncForEach]. unfold bind. rewrite Hrun1, Hrun. reflexivity. }
    split; [congruence|].
    rewrite Htr, Htr1. cbn [map bnb_batch_events].
    rewrite <- !app_assoc. reflexivity.
Qed.

Ltac one_pass f :=
  intros; unfold f; run;
  match goal with
  | |- context [let (_, _) := ?c in _] =>
      let r := fresh "r" in
      destruct c as [r ?]; exists r; destruct r
  end;
  repeat match goal with
         | a : option HtltRes |- _ => destruct a
         end;
  run; unfold bnb_item_events, bnb_reply_events, kava_item_events,
         sequence_of;
  repeat match goal with
         | |- context [if ?b then _ else _] => destruct b
         | |- context [match res_hashes ?r with _ => _ end] =>
             destruct (res_hashes r)
         end;
  run; eexists;
  (split; [reflexivity|]); (split; [reflexivity|]);
  cbn [trace];
  rewrite <- ?app_assoc; rewrite ?app_nil_r; reflexivity.

Lemma Index_kava_callback_trace base id i s :
  exists reply s',
    Index.kava_refund_callback sdk base id i s
    = Some (Normal (js_add i 1), s')
    /\ this s' = this s
    /\ trace s' = trace s
         ++ kava_item_events (Some Index.fee) 25000 (sequence_of base i) id
              reply.
Proof. one_pass (@Index.kava_refund_callback). Qed.

Lemma Legacy_kava_body_trace base id i s :
  exists reply s',
    Legacy.kava_refund_body sdk base id i s = Some (Normal (js_add i 1), s')
    /\ this s' = this s
    /\ trace s' = trace s
         ++ kava_item_events None 7000 (sequence_of base i) id reply.
Proof. one_pass (@Legacy.kava_refund_body). Qed.

Lemma Index_bnb_callback_trace id u s :
  exists reply s',
    Index.bnb_refund_callback sdk bnbChainAddress id u s
    = Some (Normal tt, s')
    /\ this s' = this s
    /\ trace s' = trace s
         ++ bnb_item_events bnbChainAddress 5000 (Some id) reply.
Proof. one_pass (@Index.bnb_refund_callback). Qed.

Lemma Legacy_bnb_body_trace id u s :
  exists reply s',
    Legacy.bnb_refund_body sdk bnbChainAddress id u s = Some (Normal tt, s')
    /\ this s' = this s
    /\ trace s' = trace s ++ bnb_item_events bnbChainAddress 3000 id reply.
Proof. one_pass (@Legacy.bnb_refund_body). Qed.

Ltac fetch_metadata :=
  run;
  match goal with
  | |- context [let (_, _) := ?c in _] =>
      let r := fresh "r" in destruct c as [r ?]; exists r; destruct r
  end;
  run.

Lemma Index_kava_submit_trace ids s :
  exists r replies s',
    List.length replies = List.length ids
    /\ Index.refundKavaSwaps_submit sdk ids s = Some (Normal tt, s')
    /\ this s' = this s
    /\ trace s' = trace s
         ++ kava_submit_events (Some Index.fee) 25000 ids r replies.
Proof.
  unfold Index.refundKavaSwaps_submit. fetch_metadata.
  - match goal with
    | |- context [asyncForEach ids _ 0 ?s1] =>
        destruct (kava_loop_trace (Some Index.fee) 25000 a _
                    (Index_kava_callback_trace a) ids 0 s1)
          as (replies & i' & s' & Hlen & Hrun & Hthis & Htr)
    end.
    exists replies, s'. rewrite Hrun, Htr, Hthis.
    unfold kava_submit_events. cbn [trace this].
    rewrite <- !app_assoc. auto.
  - exists (repeat (Normal "") (List.length ids)). eexists.
    rewrite repeat_length. unfold kava_submit_events. cbn [trace this].
    rewrite <- !app_assoc. auto.
Qed.

Lemma Legacy_kava_submit_trace ids s :
  exists r replies s',
    List.length replies = List.length ids
    /\ Legacy.refundKavaSwaps_submit sdk (Some ids) s = Some (Normal tt, s')
    /\ this s' = this s
    /\ trace s' = trace s ++ kava_submit_events None 7000 ids r replies.
Proof.
  unfold Legacy.refundKavaSwaps_submit. fetch_metadata.
  - match goal with
    | |- context [asyncForEach ids _ 0 ?s1] =>
        destruct (kava_loop_trace None 7000 a _
                    (Legacy_kava_body_trace a) ids 0 s1)
          as (replies & i' & s' & Hlen & Hrun & Hthis & Htr)
    end.
    exists replies, s'. rewrite Hrun, Htr, Hthis.
    unfold kava_submit_events. cbn [trace this].
    rewrite <- !app_assoc. auto.
  - exists (repeat (Normal "") (List.length ids)). eexists.
    rewrite repeat_length. unfold kava_submit_events. cbn [trace this].
    rewrite <- !app_assoc. auto.
Qed.

Lemma Index_bnb_submit_trace ids s :
  exists replies s',
    List.length replies = List.length ids
    /\ Index.refundBinanceChainSwaps_submit sdk bnbChainAddress ids s
       = Some (Normal tt, s')
    /\ this s' = this s
    /\ trace s' = trace s
         ++ bnb_submit_events bnbChainAddress 5000 (map Some ids) replies.
Proof.
  unfold Index.refundBinanceChainSwaps_submit. run.
  match goal with
  | |- context [asyncForEach ids _ tt ?s1] =>
      destruct (bnb_loop_trace bnbChainAddress 5000 Some _
                  Index_bnb_callback_trace ids s1)
        as (replies & s' & Hlen & Hrun & Hthis & Htr)
  end.
  exists replies, s'. rewrite Hrun, Htr, Hthis.
  unfold bnb_submit_events. cbn [trace this].
  rewrite length_map, <- !app_assoc. auto.
Qed.

Lemma Legacy_bnb_submit_trace incomingSwaps outgoingSwaps ids s :
  Legacy.concat_ids incomingSwaps outgoingSwaps = Normal ids ->
  exists replies s',
    List.length replies = List.length ids
    /\ Legacy.refundBinanceChainSwaps_submit sdk bnbChainAddress
         incomingSwaps outgoingSwaps s
       = Some (Normal tt, s')
    /\ this s' = this s
    /\ trace s' = trace s ++ bnb_submit_events bnbChainAddress 3000 ids replies.
Proof.
  intros Hids. unfold Legacy.refundBinanceChainSwaps_submit.
  rewrite Hids. run.
  match goal with
  | |- context [asyncForEach ids _ tt ?s1] =>
      destruct (bnb_loop_trace bnbChainAddress 3000 (fun id => id) _
                  Legacy_bnb_body_trace ids s1)
        as (replies & s' & Hlen & Hrun & Hthis & Htr)
  end.
  exists replies, s'. rewrite Hrun, Htr, Hthis.
  unfold bnb_submit_events. cbn [trace this].
  rewrite map_id, <- !app_assoc. auto.
Qed.
End SubmitLoops.

(** ** Reading the trace of a batch *)

Lemma numbered_ids base ids : map fst (numbered base ids) = ids.
Proof. revert base; induction ids; simpl; intros; f_equal; auto. Qed.

Lemma paced_batch n (A : Type) (ids : list A) ms :
  n = List.length ids ->
  flat_map (fun _ => [Submit; Pause ms]) ids
  = List.concat (repeat [Submit; Pause ms] n).
Proof.
  intros ->. induction ids; simpl; auto. now rewrite IHids.
Qed.

Section SubmitTraces.
Variables (fee : option Fee) (ms : Z) (ids : list string) (r : result Z)
  (replies : list (result string)).
Hypothesis Hlen : List.length replies = List.length ids.

Lemma kava_submit_sequenced :
  sequenced_batch ids (kava_submit_events fee ms ids r replies).
Proof.
  exists r, [EvLog (LogKavaCount (List.length ids))].
  unfold kava_submit_events. destruct r as [base|e].
  - exists (kava_batch_events fee ms base 0 ids replies).
    rewrite kava_batch_attempts by exact Hlen.
    repeat split; auto.
    + apply kava_batch_metadata.
    + apply js_numbered_ids.
    + intros Hbase Hsum i id Hi.
      rewrite js_numbered_exact by lia.
      rewrite Z.add_0_r. now apply numbered_nth.
  - exists [EvLog (LogExn e)]. repeat split; auto.
Qed.

Lemma kava_submit_attempted :
  kava_batch_attempted ids (kava_submit_events fee ms ids r replies).
Proof.
  unfold kava_batch_attempted, kava_submit_events. destruct r as [base|e].
  - cbn [app kava_failures_logged metadata_fetches kava_attempts].
    rewrite kava_batch_metadata, kava_batch_attempts by exact Hlen.
    split; [apply kava_batch_failures | apply js_numbered_ids].
  - simpl. intuition.
Qed.

Lemma kava_submit_paced :
  paced ms (kava_submit_events fee ms ids r replies).
Proof.
  unfold kava_submit_events. destruct r as [base|e].
  - exists (List.length ids).
    cbn [app pacing]. rewrite kava_batch_pacing by exact Hlen.
    now apply paced_batch.
  - exists 0%nat. reflexivity.
Qed.
End SubmitTraces.

Section BnbSubmitTraces.
Variables (from : string) (ms : Z) (ids : list (option string))
  (replies : list (result (option HtltRes))).
Hypothesis Hlen : List.length replies = List.length ids.

Lemma bnb_submit_attempted :
  bnb_batch_attempted ids (bnb_submit_events from ms ids replies).
Proof.
  unfold bnb_batch_attempted, bnb_submit_events.
  cbn [bnb_attempts bnb_failures_logged].
  split; [now apply bnb_batch_attempts | apply bnb_batch_failures].
Qed.

Lemma bnb_submit_paced :
  paced ms (bnb_submit_events from ms ids replies).
Proof.
  exists (List.length ids). unfold bnb_submit_events. cbn [pacing].
  rewrite bnb_batch_pacing by exact Hlen. now apply paced_batch.
Qed.
End BnbSubmitTraces.

(** ** From the scan to the whole pass *)

Section Passes.
Context {W : Type} (sdk : Sdk W).
Variable bnbChainAddress : string.

Lemma Index_kava_pass fuel s ids s1 :
  Index.getRefundableKavaSwaps sdk fuel s = Some (Normal ids, s1) ->
  exists r replies s',
    List.length replies = List.length ids
    /\ Index.refundKavaSwaps sdk fuel s = Some (Normal tt, s')
    /\ this s' = this s1
    /\ trace s' = trace s1
         ++ kava_submit_events (Some Index.fee) 25000 ids r replies.
Proof.
  intros Hscan. unfold Index.refundKavaSwaps, bind. rewrite Hscan.
  apply Index_kava_submit_trace.
Qed.

Lemma Legacy_kava_pass fuel s ids s1 :
  Legacy.getRefundableKavaSwaps sdk fuel s = Some (Normal (Some ids), s1) ->
  exists r replies s',
    List.length replies = List.length ids
    /\ Legacy.refundKavaSwaps sdk fuel s = Some (Normal tt, s')
    /\ this s' = this s1
    /\ trace s' = trace s1 ++ kava_submit_events None 7000 ids r replies.
Proof.
  intros Hscan. unfold Legacy.refundKavaSwaps, bind. rewrite Hscan.
  apply Legacy_kava_submit_trace.
Qed.

Lemma Index_bnb_pass fuel s inc s1 out s2 :
  Index.getRefundableBinanceSwaps sdk true fuel s = Some (Normal inc, s1) ->
  Index.getRefundableBinanceSwaps sdk false fuel s1 = Some (Normal out, s2) ->
  exists replies s',
    List.length replies = List.length (map Some (inc ++ out))
    /\ Index.refundBinanceChainSwaps sdk bnbChainAddress fuel s
       = Some (Normal tt, s')
    /\ this s' = this s2
    /\ trace s' = trace s2
         ++ bnb_submit_events bnbChainAddress 5000 (map Some (inc ++ out))
              replies.
Proof.
  intros Hin Hout. unfold Index.refundBinanceChainSwaps, bind.
  rewrite Hin, Hout.
  destruct (Index_bnb_submit_trace sdk bnbChainAddress (inc ++ out) s2)
    as (replies & s' & Hlen & Hrun & Hthis & Htr).
  exists replies, s'. rewrite length_map. auto.
Qed.

Lemma Legacy_bnb_pass fuel s inc s1 out s2 ids :
  Legacy.getRefundableBinanceSwaps sdk true fuel s = Some (Normal inc, s1) ->
  Legacy.getRefundableBinanceSwaps sdk false fuel s1
  = Some (Normal out, s2) ->
  Legacy.concat_ids inc out = Normal ids ->
  exists replies s',
    List.length replies = List.length ids
    /\ Legacy.refundBinanceChainSwaps sdk bnbChainAddress fuel s
       = Some (Normal tt, s')
    /\ this s' = this s2
    /\ trace s' = trace s2
         ++ bnb_submit_events bnbChainAddress 3000 ids replies.
Proof.
  intros Hin Hout Hids. unfold Legacy.refundBinanceChainSwaps, bind.
  rewrite Hin, Hout.
  now apply Legacy_bnb_submit_trace.
Qed.
End Passes.

(** ** Loops *)

Section WhileFacts.
Context {W L R : Type}.
Variable body : L -> M W (step L R).

Lemma while_S fuel l s :
  while (S fuel) body l s
  = match body l s with
    | None => None
    | Some (Normal (Continue l'), s1) => while fuel body l' s1
    | Some (Normal (Break r), s1) => Some (Normal r, s1)
    | Some (Throw e, s1) => Some (Throw e, s1)
    end.
Proof.
  cbn [while]. unfold bind.
  destruct (body l s) as [[[[l'|r]|e] s1]|]; reflexivity.
Qed.

Lemma while_more_fuel fuel :
  forall l s x,
    while fuel body l s = Some x ->
    forall fuel', (fuel <= fuel')%nat -> while fuel' body l s = Some x.
Proof.
  induction fuel as [|fuel IH]; intros l s x H fuel' Hle.
  - discriminate.
  - destruct fuel' as [|fuel']; [lia|].
    rewrite while_S in *.
    destruct (body l s) as [[[[l'|r]|e] s1]|]; auto.
    apply IH with (fuel' := fuel') in H; [exact H | lia].
Qed.
End WhileFacts.

Lemma bnb_queries_app a b :
  bnb_queries (a ++ b) = bnb_queries a ++ bnb_queries b.
Proof.
  induction a as [|e a IH]; simpl; auto.
  destruct e; simpl; rewrite ?IH; auto.
Qed.

(** ** The Binance Chain scan follows its runs *)

Section IndexScan.
Context {W : Type} (sdk : Sdk W).
Variables (incoming : bool) (latest : Z).

(** One pass of the loop of the entry point, by the reply it receives. *)
Lemma Index_bnb_body_cases d v s :
  exists reply w,
    let q := query_of incoming (limit (this s)) d v reply in
    let s1 := mkSt w (this s) (trace s ++ [EvBnbQuery q]) in
    bnb_reply sdk incoming d v s = reply
    /\ Index.bnb_scan_body sdk incoming latest d v s
    = match reply with
      | Throw e =>
          Some (Normal (Break v),
                mkSt w (this s)
                  (trace s ++ [EvBnbQuery q;
                               EvLog (LogCouldntQueryBnb incoming)]))
      | Normal b =>
          if present_nonempty b
          then Some (Normal
                       (Continue
                          (advance incoming (limit (this s)) (batch_items b)
                             (filter (Index.refundable latest) (batch_items b))
                             v)), s1)
          else Some (Normal
                       (Break (mkScanVars (openSwaps v)
                                 (offsetIncoming (this s))
                                 (offsetOutgoing (this s)))), s1)
      end.
Proof.
  unfold Index.bnb_scan_body, bnb_query, bnb_reply. run.
  match goal with
  | |- context [let (_, _) := ?c in _] => destruct c as [reply w]
  end.
  exists reply, w. split; [reflexivity|]. destruct reply as [b|e]; run.
  - destruct (present_nonempty b); reflexivity.
  - rewrite <- app_assoc. reflexivity.
Qed.

Lemma Index_while_run fuel d :
  forall v s r s',
    while fuel (Index.bnb_scan_body sdk incoming latest d) v s = Some (r, s') ->
    exists v' evs,
      r = Normal v'
      /\ this s' = this s
      /\ trace s' = trace s ++ evs
      /\ forall ds qs v'',
          index_run incoming (limit (this s)) (offsetIncoming (this s))
            (offsetOutgoing (this s)) latest ds v' qs v'' ->
          index_run incoming (limit (this s)) (offsetIncoming (this s))
            (offsetOutgoing (this s)) latest (d :: ds) v
            (bnb_queries evs ++ qs) v''.
Proof.
  induction fuel as [|fuel IH]; intros v s r s' H; [discriminate|].
  rewrite while_S in H.
  destruct (Index_bnb_body_cases d v s) as (reply & w & _ & Hbody).
  cbv zeta in Hbody. rewrite Hbody in H. clear Hbody.
  destruct reply as [b|e].
  - destruct (present_nonempty b) eqn:Hb.
    + apply IH in H. destruct H as (v' & evs & -> & Hthis & Htr & Hrun).
      cbn [this trace] in *.
      exists v', (EvBnbQuery (query_of incoming (limit (this s)) d v (Normal b))
                    :: evs).
      repeat split; auto.
      * rewrite Htr, <- app_assoc. reflexivity.
      * intros ds qs v'' Hrest. cbn [bnb_queries app].
        apply index_page; auto.
    + inversion H; subst; clear H. cbn [this trace].
      eexists _, [_]. repeat split; auto.
      intros ds qs v'' Hrest. cbn [bnb_queries app].
      apply index_empty; auto.
  - inversion H; subst; clear H. cbn [this trace].
    eexists _, [_; _]. repeat split; auto.
    intros ds qs v'' Hrest. cbn [bnb_queries app].
    apply index_error; auto.
Qed.

Lemma Index_deputies_run fuel ds :
  forall v s r s',
    asyncForEach ds
      (fun deputyAddress v =>
         while fuel (Index.bnb_scan_body sdk incoming latest deputyAddress) v)
      v s = Some (r, s') ->
    exists v' evs,
      r = Normal v'
      /\ this s' = this s
      /\ trace s' = trace s ++ evs
      /\ index_run incoming (limit (this s)) (offsetIncoming (this s))
           (offsetOutgoing (this s)) latest ds v (bnb_queries evs) v'.
Proof.
  induction ds as [|d ds IH]; intros v s r s' H.
  - inversion H; subst. exists v, []. rewrite app_nil_r.
    repeat split; auto. constructor.
  - cbn [asyncForEach] in H. unfold bind in H.
    destruct (while fuel _ v s) as [[[v1|e] s1]|] eqn:Hw; try discriminate.
    + apply Index_while_run in Hw.
      destruct Hw as (v1' & evs1 & Hv1 & Hthis1 & Htr1 & Hrun1).
      inversion Hv1; subst v1'; clear Hv1.
      apply IH in H. destruct H as (v' & evs & -> & Hthis & Htr & Hrun).
      rewrite Hthis1 in *.
      exists v', (evs1 ++ evs).
      split; [reflexivity|]. split; [exact Hthis|].
      split; [rewrite Htr, Htr1, app_assoc; reflexivity|].
      rewrite bnb_queries_app. apply Hrun1. exact Hrun.
    + apply Index_while_run in Hw.
      destruct Hw as (v1' & evs1 & Hv1 & _). discriminate.
Qed.
End IndexScan.

Section IndexScanResult.
Context {W : Type} (sdk : Sdk W).

(** A scan of the entry point either stops at the node-info request, which
    raised, or follows a run over all the deputies. *)
Lemma Index_scan_run incoming fuel s r s' :
  Index.getRefundableBinanceSwaps sdk incoming fuel s = Some (r, s') ->
  this s' = this s
  /\ ((exists e, r = Throw e /\ trace s' = trace s ++ [EvNodeInfo (Throw e)])
      \/ exists latest evs v',
          r = Normal (map swapId (openSwaps v'))
          /\ trace s' = trace s ++ EvNodeInfo (Normal latest) :: evs
          /\ index_run incoming (limit (this s)) (offsetIncoming (this s))
               (offsetOutgoing (this s)) latest (deputyAddresses (this s))
               (mkScanVars [] (offsetIncoming (this s))
                  (offsetOutgoing (this s)))
               (bnb_queries evs) v').
Proof.
  unfold Index.getRefundableBinanceSwaps. run.
  destruct (sdk_nodeInfo sdk (world s)) as [[latest|e] w].
  - intros H.
    match type of H with
    | match ?m with _ => _ end = _ =>
        destruct m as [[[v|e] s1]|] eqn:Hloop; try discriminate
    end.
    + apply Index_deputies_run in Hloop.
      destruct Hloop as (v' & evs & Hv & Hthis & Htr & Hrun).
      inversion Hv; subst v'; clear Hv.
      inversion H; subst; clear H. cbn [this trace] in *.
      split; [exact Hthis|]. right. exists latest, evs, v.
      repeat split; auto. rewrite Htr, <- app_assoc. reflexivity.
    + apply Index_deputies_run in Hloop.
      destruct Hloop as (v' & evs & Hv & _). discriminate.
  - intros H. inversion H; subst; clear H. cbn [this trace].
    split; [reflexivity|]. left. eauto.
Qed.
End IndexScanResult.

Section LegacyScan.
Context {W : Type} (sdk : Sdk W).
Variable incoming : bool.

(** One pass of the loop of the older copy, by the reply it receives. *)
Lemma Legacy_bnb_body_cases d v s :
  exists reply w,
    let q := query_of incoming (limit (this s)) d v reply in
    let s1 := mkSt w (this s) (trace s ++ [EvBnbQuery q]) in
    bnb_reply sdk incoming d v s = reply
    /\ Legacy.bnb_scan_body sdk incoming d v s
    = match reply with
      | Throw e =>
          Some (Normal (Break (Return None)),
                mkSt w (this s)
                  (trace s ++ [EvBnbQuery q;
                               EvLog (LogCouldntQueryBnb incoming)]))
      | Normal None => Some (Throw (TypeError "swapBatch is undefined"), s1)
      | Normal (Some b) =>
          if nonempty b
          then Some (Normal
                       (Continue
                          (advance incoming (limit (this s)) b
                             (filter Legacy.refundable b) v)), s1)
          else Some (Normal (Break (Fallthrough v)), s1)
      end.
Proof.
  unfold Legacy.bnb_scan_body, bnb_query, bnb_reply. run.
  match goal with
  | |- context [let (_, _) := ?c in _] => destruct c as [reply w]
  end.
  exists reply, w. split; [reflexivity|]. destruct reply as [[b|]|e]; run.
  - destruct (nonempty b); reflexivity.
  - reflexivity.
  - rewrite <- app_assoc. reflexivity.
Qed.

Lemma Legacy_while_run fuel d :
  forall v s r s',
    while fuel (Legacy.bnb_scan_body sdk incoming d) v s = Some (r, s') ->
    exists evs,
      this s' = this s
      /\ trace s' = trace s ++ evs
      /\ match r with
         | Normal (Fallthrough v') =>
             forall ds qs out,
               legacy_run incoming (limit (this s)) ds v' qs out ->
               legacy_run incoming (limit (this s)) (d :: ds) v
                 (bnb_queries evs ++ qs) out
         | _ =>
             forall ds,
               legacy_run incoming (limit (this s)) (d :: ds) v
                 (bnb_queries evs) r
         end.
Proof.
  induction fuel as [|fuel IH]; intros v s r s' H; [discriminate|].
  rewrite while_S in H.
  destruct (Legacy_bnb_body_cases d v s) as (reply & w & _ & Hbody).
  cbv zeta in Hbody. rewrite Hbody in H. clear Hbody.
  destruct reply as [[b|]|e].
  - destruct (nonempty b) eqn:Hb.
    + apply IH in H. destruct H as (evs & Hthis & Htr & Hrun).
      cbn [this trace] in *.
      exists (EvBnbQuery (query_of incoming (limit (this s)) d v
                            (Normal (Some b))) :: evs).
      split; [exact Hthis|].
      split; [rewrite Htr, <- app_assoc; reflexivity|].
      destruct r as [[v'|x]|e]; cbn [bnb_queries app]; intros;
        apply legacy_page; auto.
    + inversion H; subst; clear H. cbn [this trace].
      exists [EvBnbQuery (query_of incoming (limit (this s)) d v
                            (Normal (Some b)))].
      repeat split; auto.
      intros ds qs out Hrest. cbn [bnb_queries app].
      apply legacy_empty; auto.
  - inversion H; subst; clear H. cbn [this trace].
    eexists [_]. repeat split; auto.
    intros ds. cbn [bnb_queries]. apply legacy_absent.
  - inversion H; subst; clear H. cbn [this trace].
    eexists [_; _]. repeat split; auto.
    intros ds. cbn [bnb_queries]. apply legacy_error.
Qed.

Lemma Legacy_deputies_run fuel ds :
  forall v s r s',
    for_of ds
      (fun deputyAddress v =>
         while fuel (Legacy.bnb_scan_body sdk incoming deputyAddress) v)
      v s = Some (r, s') ->
    exists evs,
      this s' = this s
      /\ trace s' = trace s ++ evs
      /\ legacy_run incoming (limit (this s)) ds v (bnb_queries evs) r.
Proof.
  induction ds as [|d ds IH]; intros v s r s' H.
  - inversion H; subst. exists []. rewrite app_nil_r.
    repeat split; auto. constructor.
  - cbn [for_of] in H. unfold bind in H.
    destruct (while fuel _ v s) as [[[[v1|x]|e] s1]|] eqn:Hw;
      try discriminate;
      apply Legacy_while_run in Hw;
      destruct Hw as (evs1 & Hthis1 & Htr1 & Hrun1).
    + apply IH in H. destruct H as (evs & Hthis & Htr & Hrun).
      rewrite Hthis1 in *.
      exists (evs1 ++ evs).
      split; [exact Hthis|].
      split; [rewrite Htr, Htr1, app_assoc; reflexivity|].
      rewrite bnb_queries_app. apply Hrun1. exact Hrun.
    + inversion H; subst; clear H. exists evs1. auto.
    + inversion H; subst; clear H. exists evs1. auto.
Qed.

Lemma Legacy_scan_run fuel s r s' :
  Legacy.getRefundableBinanceSwaps sdk incoming fuel s = Some (r, s') ->
  this s' = this s
  /\ exists evs out,
      r = legacy_scan_result out
      /\ trace s' = trace s ++ evs
      /\ legacy_run incoming (limit (this s)) (deputyAddresses (this s))
           (mkScanVars [] (offsetIncoming (this s)) (offsetOutgoing (this s)))
           (bnb_queries evs) out.
Proof.
  unfold Legacy.getRefundableBinanceSwaps. run. intros H.
  match type of H with
  | match ?m with _ => _ end = _ =>
      destruct m as [[out s1]|] eqn:Hloop; try discriminate
  end.
  apply Legacy_deputies_run in Hloop.
  destruct Hloop as (evs & Hthis & Htr & Hrun).
  destruct out as [[v|x]|e]; inversion H; subst; clear H;
    (split; [exact Hthis|]); eexists evs, _; (split; [|split; eauto]);
    reflexivity.
Qed.
End LegacyScan.

(** ** What the runs say about offsets and pages *)

Lemma v_offset_advance incoming lim batch matching v :
  v_offset incoming (advance incoming lim batch matching v)
  = offset_after_page lim (v_offset incoming v) (List.length batch).
Proof.
  unfold advance, v_offset, offset_after_page.
  destruct (Z.of_nat (List.length batch) <=? lim), incoming; reflexivity.
Qed.

Lemma openSwaps_advance incoming lim batch matching v :
  openSwaps (advance incoming lim batch matching v) = openSwaps v ++ matching.
Proof.
  unfold advance.
  destruct (Z.of_nat (List.length batch) <=? lim), incoming; reflexivity.
Qed.

Lemma empty_batch_items {A} (b : option (list A)) :
  present_nonempty b = false -> batch_items b = [].
Proof.
  destruct b as [[|x l]|]; simpl; auto.
  unfold nonempty; simpl. intros H. apply Z.ltb_ge in H. lia.
Qed.

Lemma nonempty_false {A} (b : list A) : nonempty b = false -> b = [].
Proof.
  destruct b; auto. unfold nonempty; simpl. intros H.
  apply Z.ltb_ge in H. lia.
Qed.

Section IndexRunFacts.
Variables (incoming : bool) (lim start_in start_out latest : Z).
Local Abbreviation run := (index_run incoming lim start_in start_out latest).

Lemma index_run_pages ds v qs v' :
  run ds v qs v' ->
  openSwaps v'
  = openSwaps v ++ filter (Index.refundable latest) (pages_of qs).
Proof.
  induction 1 as [v|d ds v e qs v' _ IH|d ds v b qs v' Hb _ IH
                 |d ds v b qs v' Hb _ IH];
    unfold pages_of in *; cbn [flat_map page_of query_of q_reply].
  - now rewrite app_nil_r.
  - exact IH.
  - rewrite (empty_batch_items b Hb). exact IH.
  - rewrite IH, openSwaps_advance, filter_app, app_assoc. reflexivity.
Qed.

Lemma index_run_head ds v q qs v' :
  run ds v (q :: qs) v' ->
  exists d ds' reply, ds = d :: ds' /\ q = query_of incoming lim d v reply.
Proof. inversion 1; subst; eauto. Qed.

Lemma index_run_suffix pre :
  forall ds v post v',
    run ds v (pre ++ post) v' ->
    exists skipped rest v1, ds = skipped ++ rest /\ run rest v1 post v'.
Proof.
  induction pre as [|p pre IH]; intros ds v post v' H.
  - exists [], ds, v. auto.
  - cbn [app] in H. inversion H; subst;
      match goal with
      | Hrest : run _ _ (pre ++ post) _ |- _ =>
          apply IH in Hrest;
          destruct Hrest as (skipped & rest & v1 & Hds & Hrun)
      end.
    + exists (d :: skipped), rest, v1. subst. auto.
    + exists (d :: skipped), rest, v1. subst. auto.
    + exists skipped, rest, v1. auto.
Qed.

(** After a page with items the same deputy is queried again. *)
Lemma index_run_after_page ds v d reply b post v' :
  run ds v (query_of incoming lim d v reply :: post) v' ->
  reply = Normal (Some b) -> nonempty b = true ->
  exists q' post',
    post = q' :: post'
    /\ q_address q' = d
    /\ q_offset q'
       = offset_after_page lim (v_offset incoming v) (List.length b).
Proof.
  intros H -> Hb. inversion H; subst.
  - simpl in *. congruence.
  - match goal with
    | Hrest : run (_ :: _) _ post _ |- _ => inversion Hrest; subst
    end;
      eexists _, _; (split; [reflexivity|]); cbn [query_of q_address q_offset];
      (split; [reflexivity|]); apply v_offset_advance.
Qed.

(** After an empty batch the next query starts over; after a failed one it
    keeps the offset.  Either way it goes to the next deputy. *)
Lemma index_run_after_stop ds v q q' post v' :
  run ds v (q :: q' :: post) v' ->
  (empty_page q ->
   q_offset q' = (if incoming then start_in else start_out)
   /\ exists ds2, ds = q_address q :: q_address q' :: ds2)
  /\ (failed_query q ->
      q_offset q' = q_offset q
      /\ exists ds2, ds = q_address q :: q_address q' :: ds2).
Proof.
  intros H. split.
  - intros (b & Hq & Hb). inversion H; subst; cbn [q_reply query_of] in Hq;
      try discriminate.
    + match goal with
      | Hrest : run _ _ (q' :: post) _ |- _ =>
          apply index_run_head in Hrest;
          destruct Hrest as (d' & ds' & reply & -> & ->)
      end.
      cbn [query_of q_offset q_address v_offset v_offsetIncoming
             v_offsetOutgoing].
      split; [destruct incoming; reflexivity | eauto].
    + inversion Hq; subst. congruence.
  - intros (e & Hq). inversion H; subst; cbn [q_reply query_of] in Hq;
      try discriminate.
    match goal with
    | Hrest : run _ _ (q' :: post) _ |- _ =>
        apply index_run_head in Hrest;
        destruct Hrest as (d' & ds' & reply & -> & ->)
    end.
    cbn [query_of q_offset q_address]. eauto.
Qed.
End IndexRunFacts.

Section LegacyRunFacts.
Variables (incoming : bool) (lim : Z).
Local Abbreviation run := (legacy_run incoming lim).

Lemma legacy_run_pages ds v qs out :
  run ds v qs out ->
  forall v',
    out = Normal (Fallthrough v') ->
    openSwaps v' = openSwaps v ++ filter Legacy.refundable (pages_of qs).
Proof.
  induction 1 as [v|d ds v e|d ds v|d ds v b qs out Hb _ IH
                 |d ds v b qs out Hb _ IH];
    intros v' Hout; try discriminate;
    unfold pages_of in *; cbn [flat_map page_of query_of q_reply batch_items].
  - inversion Hout; subst. now rewrite app_nil_r.
  - rewrite (nonempty_false b Hb). now apply IH.
  - rewrite (IH v' Hout), openSwaps_advance, filter_app, app_assoc.
    reflexivity.
Qed.

Lemma legacy_run_head ds v q qs out :
  run ds v (q :: qs) out ->
  exists d ds' reply, ds = d :: ds' /\ q = query_of incoming lim d v reply.
Proof. inversion 1; subst; eauto. Qed.

Lemma legacy_run_suffix pre :
  forall ds v q post out,
    run ds v (pre ++ q :: post) out ->
    exists skipped rest v1,
      ds = skipped ++ rest /\ run rest v1 (q :: post) out.
Proof.
  induction pre as [|p pre IH]; intros ds v q post out H.
  - exists [], ds, v. auto.
  - cbn [app] in H. inversion H; subst;
      try match goal with
        | Hnil : [] = pre ++ _ :: _ |- _ =>
            symmetry in Hnil; apply app_eq_nil in Hnil;
            destruct Hnil as [_ Hnil]; discriminate
        end;
      match goal with
      | Hrest : run _ _ (pre ++ _ :: _) _ |- _ =>
          apply IH in Hrest;
          destruct Hrest as (skipped & rest & v1 & Hds & Hrun)
      end.
    + exists (d :: skipped), rest, v1. subst. auto.
    + exists skipped, rest, v1. auto.
Qed.

Lemma legacy_run_after_page ds v d reply b post out :
  run ds v (query_of incoming lim d v reply :: post) out ->
  reply = Normal (Some b) -> nonempty b = true ->
  exists q' post',
    post = q' :: post'
    /\ q_address q' = d
    /\ q_offset q'
       = offset_after_page lim (v_offset incoming v) (List.length b).
Proof.
  intros H -> Hb. inversion H; subst.
  - congruence.
  - match goal with
    | Hrest : run (_ :: _) _ post _ |- _ => inversion Hrest; subst
    end;
      eexists _, _; (split; [reflexivity|]); cbn [query_of q_address q_offset];
      (split; [reflexivity|]); apply v_offset_advance.
Qed.

(** After an empty batch the next query keeps the offset and goes to the
    next deputy; after a failed query there is no next query. *)
Lemma legacy_run_after_stop ds v q q' post out :
  run ds v (q :: q' :: post) out ->
  (empty_page q ->
   q_offset q' = q_offset q
   /\ exists ds2, ds = q_address q :: q_address q' :: ds2)
  /\ (failed_query q -> False).
Proof.
  intros H. split.
  - intros (b & Hq & Hb). inversion H; subst; cbn [q_reply query_of] in Hq;
      try discriminate.
    + match goal with
      | Hrest : run _ _ (q' :: post) _ |- _ =>
          apply legacy_run_head in Hrest;
          destruct Hrest as (d' & ds' & reply & -> & ->)
      end.
      cbn [query_of q_offset q_address]. eauto.
    + inversion Hq; subst. simpl in Hb. congruence.
  - intros (e & Hq). inversion H; subst; cbn [q_reply query_of] in Hq;
      discriminate.
Qed.
End LegacyRunFacts.

(** ** The offset policy of a whole scan *)

Lemma start_offset_v_offset incoming bot found :
  v_offset incoming
    (mkScanVars found (offsetIncoming bot) (offsetOutgoing bot))
  = start_offset incoming bot.
Proof. destruct incoming; reflexivity. Qed.

(** Handing over to the next deputy. *)
Lemma index_run_handover incoming bot latest v0 qs v' pre q q' post :
  index_run incoming (limit bot) (offsetIncoming bot) (offsetOutgoing bot)
    latest (deputyAddresses bot) v0 qs v' ->
  qs = pre ++ q :: q' :: post ->
  (empty_page q ->
   q_offset q' = start_offset incoming bot /\ handover bot q q')
  /\ (failed_query q ->
      q_offset q' = q_offset q /\ handover bot q q').
Proof.
  intros H ->. apply index_run_suffix in H.
  destruct H as (skipped & rest & v1 & Hds & Hrun).
  destruct (index_run_after_stop _ _ _ _ _ _ _ _ _ _ _ Hrun)
    as [Hempty Hfailed].
  split; intros Hq;
    [destruct (Hempty Hq) as (Hoff & ds2 & ->)
    |destruct (Hfailed Hq) as (Hoff & ds2 & ->)];
    (split; [exact Hoff | exists skipped, ds2; exact Hds]).
Qed.

Lemma legacy_run_handover incoming bot v0 qs out pre q q' post :
  legacy_run incoming (limit bot) (deputyAddresses bot) v0 qs out ->
  qs = pre ++ q :: q' :: post ->
  (empty_page q -> q_offset q' = q_offset q /\ handover bot q q')
  /\ (failed_query q -> False).
Proof.
  intros H ->. apply legacy_run_suffix in H.
  destruct H as (skipped & rest & v1 & Hds & Hrun).
  destruct (legacy_run_after_stop _ _ _ _ _ _ _ _ Hrun)
    as [Hempty Hfailed].
  split; [|exact Hfailed].
  intros Hq. destruct (Hempty Hq) as (Hoff & ds2 & ->).
  split; [exact Hoff | exists skipped, ds2; exact Hds].
Qed.

Lemma offset_after_page_ge lim offset n :
  0 <= lim -> offset <= offset_after_page lim offset n.
Proof.
  intros Hlim. unfold offset_after_page.
  destruct (Z.of_nat n <=? lim); [now apply js_add_ge | lia].
Qed.

Lemma full_page_offset lim offset (b : list BnbSwap) :
  Z.of_nat (List.length b) = lim ->
  offset_after_page lim offset (List.length b) = js_add offset lim.
Proof.
  intros Hlen. unfold offset_after_page.
  replace (Z.of_nat (List.length b) <=? lim) with true;
    [reflexivity | symmetry; apply Z.leb_le; lia].
Qed.

Lemma index_run_policy incoming bot latest qs v' :
  index_run incoming (limit bot) (offsetIncoming bot) (offsetOutgoing bot)
    latest (deputyAddresses bot)
    (mkScanVars [] (offsetIncoming bot) (offsetOutgoing bot)) qs v' ->
  offset_policy true incoming bot qs.
Proof.
  intros H pre q post ->. split.
  { intros ->. apply index_run_head in H.
    destruct H as (d & ds' & reply & _ & ->).
    apply start_offset_v_offset. }
  pose proof H as Hwhole.
  apply index_run_suffix in H.
  destruct H as (skipped & rest & v1 & _ & Hrun).
  destruct (index_run_head _ _ _ _ _ _ _ _ _ _ Hrun)
    as (d & ds' & reply & -> & ->).
  split; [|split].
  - intros (b & Hq & Hb). cbn [q_reply query_of] in Hq.
    destruct (index_run_after_page _ _ _ _ _ _ _ _ _ b _ _ Hrun Hq Hb)
      as (q' & post' & -> & Haddr & _).
    exists q', post'. auto.
  - intros (b & Hq & Hb & Hlen). cbn [q_reply query_of] in Hq.
    destruct (index_run_after_page _ _ _ _ _ _ _ _ _ b _ _ Hrun Hq Hb)
      as (q' & post' & -> & Haddr & Hoff).
    rewrite (full_page_offset _ _ _ Hlen) in Hoff.
    exists q', post'. cbn [q_offset query_of].
    repeat split; auto.
    intros Hsum. rewrite Hoff. now apply js_add_exact.
  - intros Hempty q' post' ->.
    destruct (index_run_handover _ _ _ _ _ _ _ _ _ _ Hwhole eq_refl)
      as [Hstop _].
    destruct (Hstop Hempty) as [Hoff Hnext]. auto.
Qed.

Lemma legacy_run_policy incoming bot qs out :
  legacy_run incoming (limit bot) (deputyAddresses bot)
    (mkScanVars [] (offsetIncoming bot) (offsetOutgoing bot)) qs out ->
  offset_policy false incoming bot qs.
Proof.
  intros H pre q post ->. split.
  { intros ->. apply legacy_run_head in H.
    destruct H as (d & ds' & reply & _ & ->).
    apply start_offset_v_offset. }
  pose proof H as Hwhole.
  apply legacy_run_suffix in H.
  destruct H as (skipped & rest & v1 & _ & Hrun).
  destruct (legacy_run_head _ _ _ _ _ _ _ Hrun)
    as (d & ds' & reply & -> & ->).
  split; [|split].
  - intros (b & Hq & Hb). cbn [q_reply query_of] in Hq.
    destruct (legacy_run_after_page _ _ _ _ _ _ b _ _ Hrun Hq Hb)
      as (q' & post' & -> & Haddr & _).
    exists q', post'. auto.
  - intros (b & Hq & Hb & Hlen). cbn [q_reply query_of] in Hq.
    destruct (legacy_run_after_page _ _ _ _ _ _ b _ _ Hrun Hq Hb)
      as (q' & post' & -> & Haddr & Hoff).
    rewrite (full_page_offset _ _ _ Hlen) in Hoff.
    exists q', post'. cbn [q_offset query_of].
    repeat split; auto.
    intros Hsum. rewrite Hoff. now apply js_add_exact.
  - intros Hempty q' post' ->.
    destruct (legacy_run_handover _ _ _ _ _ _ _ _ _ Hwhole eq_refl)
      as [Hstop _].
    destruct (Hstop Hempty) as [Hoff Hnext]. auto.
Qed.

(** ** Termination of page-until-empty loops *)

Section LoopTermination.
Context {W L R A : Type}.
Variable body : L -> M W (step L R).
Variable verdict_at : L -> St W -> Verdict A.

(** The body goes on after a page and stops after anything else. *)
Hypothesis body_page :
  forall l s items,
    verdict_at l s = GotPage items ->
    exists l1 s1, body l s = Some (Normal (Continue l1), s1).
Hypothesis body_stop :
  forall l s,
    (forall items, verdict_at l s <> GotPage items) ->
    exists x s1,
      body l s = Some (x, s1) /\ forall l1, x <> Normal (Continue l1).

Lemma while_stops_iff l s :
  terminates (fun fuel => while fuel body l) s
  <-> client_stops body verdict_at l s.
Proof.
  unfold terminates. split.
  - intros [fuel H]. revert l s H.
    induction fuel as [|fuel IH]; intros l s H; [now elim H|].
    destruct (verdict_at l s) as [items| |] eqn:Hv.
    + destruct (body_page l s items Hv) as (l1 & s1 & Hb).
      rewrite while_S, Hb in H.
      eapply stops_later; eauto.
    + apply stops_now. congruence.
    + apply stops_now. congruence.
  - induction 1 as [l s Hv|l s items l1 s1 Hv Hb _ [fuel IH]].
    + destruct (body_stop l s Hv) as (x & s1 & Hb & Hx).
      exists 1%nat. rewrite while_S, Hb.
      destruct x as [[l1|r]|e]; try discriminate.
      now elim (Hx l1).
    + exists (S fuel). now rewrite while_S, Hb.
Qed.

(** What the loop has collected when the chain runs dry. *)
Context {B : Type}.
Variable acc : L -> list B.
Variable collect : list A -> list B.
Variable collected : R -> option (list B).

Hypothesis collect_app :
  forall a b, collect (a ++ b) = collect a ++ collect b.
Hypothesis collect_nil : collect [] = [].
Hypothesis body_collects :
  forall l s items l1 s1,
    verdict_at l s = GotPage items ->
    body l s = Some (Normal (Continue l1), s1) ->
    acc l1 = acc l ++ collect items.
Hypothesis body_nothing :
  forall l s,
    verdict_at l s = GotNothing ->
    exists r s1,
      body l s = Some (Normal (Break r), s1) /\ collected r = Some (acc l).

Lemma while_drains l s items :
  client_drains body verdict_at l s items ->
  exists fuel r s',
    while fuel body l s = Some (Normal r, s')
    /\ collected r = Some (acc l ++ collect items).
Proof.
  induction 1 as [l s Hv|l s items l1 s1 rest Hv Hb _ IH].
  - destruct (body_nothing l s Hv) as (r & s1 & Hb & Hr).
    exists 1%nat, r, s1. rewrite while_S, Hb, collect_nil, app_nil_r. auto.
  - destruct IH as (fuel & r & s' & Hrun & Hr).
    exists (S fuel), r, s'. rewrite while_S, Hb. split; [exact Hrun|].
    rewrite Hr, (body_collects l s items l1 s1 Hv Hb), collect_app, app_assoc.
    reflexivity.
Qed.

(** How the loop ends when the request it sends with the variables [l]
    fails. *)
Variable failed : L -> result R -> Prop.
Hypothesis body_fails :
  forall l s,
    verdict_at l s = Failed ->
    exists x s1, body l s = Some (x, s1) /\ ends_with (failed l) x.

Lemma while_fails l s items :
  client_fails body verdict_at l s items ->
  exists fuel l' r s',
    while fuel body l s = Some (r, s')
    /\ acc l' = acc l ++ collect items
    /\ failed l' r.
Proof.
  induction 1 as [l s Hv|l s items l1 s1 rest Hv Hb _ IH].
  - destruct (body_fails l s Hv) as (x & s1 & Hb & Hx).
    rewrite collect_nil, app_nil_r.
    destruct x as [[l1|r]|e]; cbn [ends_with] in Hx; [contradiction| |].
    + exists 1%nat, l, (Normal r), s1. rewrite while_S, Hb. auto.
    + exists 1%nat, l, (Throw e), s1. rewrite while_S, Hb. auto.
  - destruct IH as (fuel & l' & r & s' & Hrun & Hacc & Hr).
    exists (S fuel), l', r, s'. rewrite while_S, Hb.
    split; [exact Hrun|]. split; [|exact Hr].
    rewrite Hacc, (body_collects l s items l1 s1 Hv Hb), collect_app,
      app_assoc.
    reflexivity.
Qed.
End LoopTermination.

(** A loop that completes does so in one way, whatever the fuel. *)
Lemma while_deterministic {W L R} (body : L -> M W (step L R)) fuel1 fuel2
    l s x y :
  while fuel1 body l s = Some x -> while fuel2 body l s = Some y -> x = y.
Proof.
  intros H1 H2.
  apply while_more_fuel with (fuel' := Nat.max fuel1 fuel2) in H1; [|lia].
  apply while_more_fuel with (fuel' := Nat.max fuel1 fuel2) in H2; [|lia].
  congruence.
Qed.

(** ** The Kava scans *)

Section KavaScan.
Context {W : Type} (sdk : Sdk W).

Lemma Index_kava_body_cases expiredSwaps offset s :
  exists reply w,
    let args := ByOffset 3 offset (limit (this s)) in
    let s1 := mkSt w (this s) (trace s ++ [EvGetSwaps args 5000 reply]) in
    sdk_getSwaps sdk args 5000 (world s) = (reply, w)
    /\ Index.kava_scan_body sdk (expiredSwaps, offset) s
       = match reply with
         | Throw e =>
             Some (Normal (Break (Return [])),
                   mkSt w (this s)
                     (trace s ++ [EvGetSwaps args 5000 reply;
                                  EvLog LogCouldntQueryKava]))
         | Normal swapBatch =>
             if present_nonempty swapBatch
             then Some (Normal
                          (Continue (expiredSwaps ++ batch_items swapBatch,
                                     js_add offset (limit (this s)))), s1)
             else Some (Normal (Break (Fallthrough expiredSwaps)), s1)
         end.
Proof.
  unfold Index.kava_scan_body. run.
  destruct (sdk_getSwaps sdk _ 5000 (world s)) as [reply w].
  exists reply, w. split; [reflexivity|].
  destruct reply as [b|e]; run.
  - destruct (present_nonempty b); reflexivity.
  - rewrite <- app_assoc. reflexivity.
Qed.

Lemma Legacy_kava_body_cases expiredSwaps page s :
  exists reply w,
    let args := ByPage "Expired" page (limit (this s)) in
    let s1 := mkSt w (this s) (trace s ++ [EvGetSwaps args 5000 reply]) in
    sdk_getSwaps sdk args 5000 (world s) = (reply, w)
    /\ Legacy.kava_scan_body sdk (expiredSwaps, page) s
       = match reply with
         | Throw e =>
             Some (Normal (Break (Return None)),
                   mkSt w (this s)
                     (trace s ++ [EvGetSwaps args 5000 reply;
                                  EvLog LogCouldntQueryKava]))
         | Normal None =>
             Some (Throw (TypeError "swapBatch is undefined"), s1)
         | Normal (Some swapBatch) =>
             if nonempty swapBatch
             then Some (Normal
                          (Continue (expiredSwaps ++ swapBatch,
                                     js_add page 1)), s1)
             else Some (Normal (Break (Fallthrough expiredSwaps)), s1)
         end.
Proof.
  unfold Legacy.kava_scan_body. run.
  destruct (sdk_getSwaps sdk _ 5000 (world s)) as [reply w].
  exists reply, w. split; [reflexivity|].
  destruct reply as [[b|]|e]; run.
  - destruct (nonempty b); reflexivity.
  - reflexivity.
  - rewrite <- app_assoc. reflexivity.
Qed.
End KavaScan.

(** ** The four loops meet the conditions of the termination lemmas *)

Section FourLoops.
Context {W : Type} (sdk : Sdk W).

Ltac by_cases cases_lemma :=
  let reply := fresh "reply" in
  let Hcall := fresh "Hcall" in
  let Hbody := fresh "Hbody" in
  let b := fresh "b" in
  intros [? ?] ?;
  match goal with
  | s : St W, acc : list KavaSwap, position : Z |- _ =>
      destruct (cases_lemma W sdk acc position s)
        as (reply & ? & Hcall & Hbody)
  end;
  unfold index_kava_verdict, legacy_kava_verdict,
    index_kava_reply, legacy_kava_reply;
  cbn [snd fst]; cbv zeta in Hcall, Hbody; rewrite Hcall, Hbody;
  cbn [fst]; unfold index_verdict, legacy_verdict;
  destruct reply as [[b|]|?]; cbn [present_nonempty batch_items];
  try destruct (nonempty b) eqn:?.

Lemma Index_kava_page :
  forall l s items,
    index_kava_verdict sdk l s = GotPage items ->
    exists l1 s1,
      Index.kava_scan_body sdk l s = Some (Normal (Continue l1), s1).
Proof. by_cases (@Index_kava_body_cases); intros; try discriminate; eauto. Qed.

Lemma Index_kava_stop :
  forall l s,
    (forall items, index_kava_verdict sdk l s <> GotPage items) ->
    exists x s1,
      Index.kava_scan_body sdk l s = Some (x, s1)
      /\ forall l1, x <> Normal (Continue l1).
Proof.
  by_cases (@Index_kava_body_cases); intros H;
    try (now eelim H);
    eexists _, _; (split; [reflexivity | discriminate]).
Qed.

Lemma Index_kava_collects :
  forall l s items l1 s1,
    index_kava_verdict sdk l s = GotPage items ->
    Index.kava_scan_body sdk l s = Some (Normal (Continue l1), s1) ->
    fst l1 = fst l ++ items.
Proof.
  by_cases (@Index_kava_body_cases); intros items l1 s1 Hv Hrun;
    inversion Hv; inversion Hrun; subst; reflexivity.
Qed.

Lemma Index_kava_nothing :
  forall l s,
    index_kava_verdict sdk l s = GotNothing ->
    exists r s1,
      Index.kava_scan_body sdk l s = Some (Normal (Break r), s1)
      /\ match r with
         | Fallthrough found => Some found
         | Return _ => None
         end = Some (fst l).
Proof.
  by_cases (@Index_kava_body_cases); intros Hv; try discriminate;
    eexists _, _; split; reflexivity.
Qed.

Lemma Legacy_kava_page :
  forall l s items,
    legacy_kava_verdict sdk l s = GotPage items ->
    exists l1 s1,
      Legacy.kava_scan_body sdk l s = Some (Normal (Continue l1), s1).
Proof. by_cases (@Legacy_kava_body_cases); intros; try discriminate; eauto. Qed.

Lemma Legacy_kava_stop :
  forall l s,
    (forall items, legacy_kava_verdict sdk l s <> GotPage items) ->
    exists x s1,
      Legacy.kava_scan_body sdk l s = Some (x, s1)
      /\ forall l1, x <> Normal (Continue l1).
Proof.
  by_cases (@Legacy_kava_body_cases); intros H;
    try (now eelim H);
    eexists _, _; (split; [reflexivity | discriminate]).
Qed.

Lemma Legacy_kava_collects :
  forall l s items l1 s1,
    legacy_kava_verdict sdk l s = GotPage items ->
    Legacy.kava_scan_body sdk l s = Some (Normal (Continue l1), s1) ->
    fst l1 = fst l ++ items.
Proof.
  by_cases (@Legacy_kava_body_cases); intros items l1 s1 Hv Hrun;
    inversion Hv; inversion Hrun; subst; reflexivity.
Qed.

Lemma Legacy_kava_nothing :
  forall l s,
    legacy_kava_verdict sdk l s = GotNothing ->
    exists r s1,
      Legacy.kava_scan_body sdk l s = Some (Normal (Break r), s1)
      /\ match r with
         | Fallthrough found => Some found
         | Return _ => None
         end = Some (fst l).
Proof.
  by_cases (@Legacy_kava_body_cases); intros Hv; try discriminate;
    eexists _, _; split; reflexivity.
Qed.

Lemma Index_kava_fails :
  forall l s,
    index_kava_verdict sdk l s = Failed ->
    exists x s1,
      Index.kava_scan_body sdk l s = Some (x, s1)
      /\ ends_with returns_nothing x.
Proof.
  by_cases (@Index_kava_body_cases); intros Hv; try discriminate;
    eexists _, _; split; reflexivity.
Qed.

Lemma Legacy_kava_fails :
  forall l s,
    legacy_kava_verdict sdk l s = Failed ->
    exists x s1,
      Legacy.kava_scan_body sdk l s = Some (x, s1)
      /\ ends_with returns_undefined x.
Proof.
  by_cases (@Legacy_kava_body_cases); intros Hv; try discriminate;
    eexists _, _; (split; [reflexivity | cbn; unfold returns_undefined; auto]).
Qed.

Variables (incoming : bool) (latest : Z) (deputy : string).

Ltac by_bnb_cases cases :=
  let reply := fresh "reply" in
  let Hcall := fresh "Hcall" in
  let Hbody := fresh "Hbody" in
  let b := fresh "b" in
  let v := fresh "v" in
  let s := fresh "s" in
  intros v s;
  destruct (cases v s) as (reply & ? & Hcall & Hbody);
  unfold index_bnb_verdict, legacy_bnb_verdict;
  cbv zeta in Hcall, Hbody; rewrite Hcall, Hbody;
  unfold index_verdict, legacy_verdict;
  destruct reply as [[b|]|?]; cbn [present_nonempty batch_items];
  try destruct (nonempty b) eqn:?.

Lemma Index_bnb_page :
  forall v s items,
    index_bnb_verdict sdk incoming deputy v s = GotPage items ->
    exists l1 s1,
      Index.bnb_scan_body sdk incoming latest deputy v s
      = Some (Normal (Continue l1), s1).
Proof.
  by_bnb_cases (Index_bnb_body_cases sdk incoming latest deputy);
    intros; try discriminate; eauto.
Qed.

Lemma Index_bnb_stop :
  forall v s,
    (forall items,
        index_bnb_verdict sdk incoming deputy v s <> GotPage items) ->
    exists x s1,
      Index.bnb_scan_body sdk incoming latest deputy v s = Some (x, s1)
      /\ forall l1, x <> Normal (Continue l1).
Proof.
  by_bnb_cases (Index_bnb_body_cases sdk incoming latest deputy);
    intros H; try (now eelim H);
    eexists _, _; (split; [reflexivity | discriminate]).
Qed.

Lemma Index_bnb_collects :
  forall v s items v1 s1,
    index_bnb_verdict sdk incoming deputy v s = GotPage items ->
    Index.bnb_scan_body sdk incoming latest deputy v s
    = Some (Normal (Continue v1), s1) ->
    openSwaps v1 = openSwaps v ++ filter (open_and_expired latest) items.
Proof.
  by_bnb_cases (Index_bnb_body_cases sdk incoming latest deputy);
    intros items v1 s1 Hv Hrun;
    inversion Hv; inversion Hrun; subst; apply openSwaps_advance.
Qed.

Lemma Index_bnb_nothing :
  forall v s,
    index_bnb_verdict sdk incoming deputy v s = GotNothing ->
    exists r s1,
      Index.bnb_scan_body sdk incoming latest deputy v s
      = Some (Normal (Break r), s1)
      /\ Some (openSwaps r) = Some (openSwaps v).
Proof.
  by_bnb_cases (Index_bnb_body_cases sdk incoming latest deputy);
    intros Hv; try discriminate;
    eexists _, _; split; reflexivity.
Qed.

Lemma Legacy_bnb_page :
  forall v s items,
    legacy_bnb_verdict sdk incoming deputy v s = GotPage items ->
    exists l1 s1,
      Legacy.bnb_scan_body sdk incoming deputy v s
      = Some (Normal (Continue l1), s1).
Proof.
  by_bnb_cases (Legacy_bnb_body_cases sdk incoming deputy);
    intros; try discriminate; eauto.
Qed.

Lemma Legacy_bnb_stop :
  forall v s,
    (forall items,
        legacy_bnb_verdict sdk incoming deputy v s <> GotPage items) ->
    exists x s1,
      Legacy.bnb_scan_body sdk incoming deputy v s = Some (x, s1)
      /\ forall l1, x <> Normal (Continue l1).
Proof.
  by_bnb_cases (Legacy_bnb_body_cases sdk incoming deputy);
    intros H; try (now eelim H);
    eexists _, _; (split; [reflexivity | discriminate]).
Qed.

Lemma Legacy_bnb_collects :
  forall v s items v1 s1,
    legacy_bnb_verdict sdk incoming deputy v s = GotPage items ->
    Legacy.bnb_scan_body sdk incoming deputy v s
    = Some (Normal (Continue v1), s1) ->
    openSwaps v1 = openSwaps v ++ filter open_swap items.
Proof.
  by_bnb_cases (Legacy_bnb_body_cases sdk incoming deputy);
    intros items v1 s1 Hv Hrun;
    inversion Hv; inversion Hrun; subst; apply openSwaps_advance.
Qed.

Lemma Index_bnb_fails :
  forall v s,
    index_bnb_verdict sdk incoming deputy v s = Failed ->
    exists x s1,
      Index.bnb_scan_body sdk incoming latest deputy v s = Some (x, s1)
      /\ ends_with (fun r => r = Normal v) x.
Proof.
  by_bnb_cases (Index_bnb_body_cases sdk incoming latest deputy);
    intros Hv; try discriminate;
    eexists _, _; split; reflexivity.
Qed.

Lemma Legacy_bnb_fails :
  forall v s,
    legacy_bnb_verdict sdk incoming deputy v s = Failed ->
    exists x s1,
      Legacy.bnb_scan_body sdk incoming deputy v s = Some (x, s1)
      /\ ends_with returns_undefined x.
Proof.
  by_bnb_cases (Legacy_bnb_body_cases sdk incoming deputy);
    intros Hv; try discriminate;
    eexists _, _; (split; [reflexivity | cbn; unfold returns_undefined; auto]).
Qed.

Lemma Legacy_bnb_nothing :
  forall v s,
    legacy_bnb_verdict sdk incoming deputy v s = GotNothing ->
    exists r s1,
      Legacy.bnb_scan_body sdk incoming deputy v s
      = Some (Normal (Break r), s1)
      /\ match r with
         | Fallthrough v' => Some (openSwaps v')
         | Return _ => None
         end = Some (openSwaps v).
Proof.
  by_bnb_cases (Legacy_bnb_body_cases sdk incoming deputy);
    intros Hv; try discriminate;
    eexists _, _; split; reflexivity.
Qed.
End FourLoops.

(** ** No code of the bot assigns a field of [this] *)

Section Frame.
Context {W : Type} (sdk : Sdk W).
Variable bnbChainAddress : string.

Lemma keeps_bind {A B} (m : M W A) (k : A -> M W B) :
  keeps_this m -> (forall a, keeps_this (k a)) -> keeps_this (bind m k).
Proof.
  intros Hm Hk s r s' H. unfold bind in H.
  destruct (m s) as [[[a|e] s1]|] eqn:E; try discriminate.
  - rewrite (Hk a s1 r s' H). exact (Hm _ _ _ E).
  - inversion H; subst. exact (Hm _ _ _ E).
Qed.

Lemma keeps_try {A} (m : M W A) : keeps_this m -> keeps_this (try m).
Proof.
  intros Hm s r s' H. unfold try in H.
  destruct (m s) as [[x s1]|] eqn:E; try discriminate.
  inversion H; subst. exact (Hm _ _ _ E).
Qed.

Lemma keeps_ret {A} (a : A) : keeps_this (W := W) (ret a).
Proof. intros s r s' H. inversion H; subst. reflexivity. Qed.

Lemma keeps_throw {A} e : keeps_this (W := W) (A := A) (throw e).
Proof. intros s r s' H. inversion H; subst. reflexivity. Qed.

Lemma keeps_lift {A} (x : result A) : keeps_this (W := W) (lift x).
Proof. intros s r s' H. inversion H; subst. reflexivity. Qed.

Lemma keeps_while {L R} (body : L -> M W (step L R)) fuel :
  (forall l, keeps_this (body l)) ->
  forall l, keeps_this (while fuel body l).
Proof.
  intros Hbody. induction fuel as [|fuel IH]; intros l s r s' H;
    [discriminate|].
  rewrite while_S in H.
  destruct (body l s) as [[[[l1|x]|e] s1]|] eqn:E; try discriminate.
  - rewrite (IH _ _ _ _ H). exact (Hbody _ _ _ _ E).
  - inversion H; subst. exact (Hbody _ _ _ _ E).
  - inversion H; subst. exact (Hbody _ _ _ _ E).
Qed.

Lemma keeps_Index_kava_body l : keeps_this (Index.kava_scan_body sdk l).
Proof.
  destruct l as [found offset]. intros s r s' H.
  destruct (Index_kava_body_cases sdk found offset s)
    as (reply & w & _ & Hbody).
  cbv zeta in Hbody. rewrite Hbody in H.
  destruct reply as [b|e]; [destruct (present_nonempty b)|];
    inversion H; subst; reflexivity.
Qed.

Lemma keeps_Legacy_kava_body l : keeps_this (Legacy.kava_scan_body sdk l).
Proof.
  destruct l as [found page]. intros s r s' H.
  destruct (Legacy_kava_body_cases sdk found page s)
    as (reply & w & _ & Hbody).
  cbv zeta in Hbody. rewrite Hbody in H.
  destruct reply as [[b|]|e]; [destruct (nonempty b)| |];
    inversion H; subst; reflexivity.
Qed.

Lemma keeps_Index_kava_scan fuel :
  keeps_this (Index.getRefundableKavaSwaps sdk fuel).
Proof.
  unfold Index.getRefundableKavaSwaps. apply keeps_bind.
  - apply keeps_while, keeps_Index_kava_body.
  - intros [found|ids]; [apply keeps_lift | apply keeps_ret].
Qed.

Lemma keeps_Legacy_kava_scan fuel :
  keeps_this (Legacy.getRefundableKavaSwaps sdk fuel).
Proof.
  unfold Legacy.getRefundableKavaSwaps. apply keeps_bind.
  - apply keeps_while, keeps_Legacy_kava_body.
  - intros [found|ids]; [|apply keeps_ret].
    apply keeps_bind; [apply keeps_lift | intros ?; apply keeps_ret].
Qed.

Lemma keeps_Index_kava_pass fuel :
  keeps_this (Index.refundKavaSwaps sdk fuel).
Proof.
  unfold Index.refundKavaSwaps. apply keeps_bind.
  - apply keeps_Index_kava_scan.
  - intros ids s r s' H.
    destruct (Index_kava_submit_trace sdk ids s)
      as (r0 & replies & s1 & _ & Hrun & Hthis & _).
    congruence.
Qed.

Lemma keeps_Legacy_kava_pass fuel :
  keeps_this (Legacy.refundKavaSwaps sdk fuel).
Proof.
  unfold Legacy.refundKavaSwaps. apply keeps_bind.
  - apply keeps_Legacy_kava_scan.
  - intros [ids|] s r s' H.
    + destruct (Legacy_kava_submit_trace sdk ids s)
        as (r0 & replies & s1 & _ & Hrun & Hthis & _).
      congruence.
    + inversion H; subst. reflexivity.
Qed.

Lemma keeps_Index_bnb_scan incoming fuel :
  keeps_this (Index.getRefundableBinanceSwaps sdk incoming fuel).
Proof. intros s r s' H. now apply Index_scan_run in H. Qed.

Lemma keeps_Legacy_bnb_scan incoming fuel :
  keeps_this (Legacy.getRefundableBinanceSwaps sdk incoming fuel).
Proof. intros s r s' H. now apply Legacy_scan_run in H. Qed.

Lemma keeps_Index_bnb_pass fuel :
  keeps_this (Index.refundBinanceChainSwaps sdk bnbChainAddress fuel).
Proof.
  unfold Index.refundBinanceChainSwaps.
  apply keeps_bind; [apply keeps_Index_bnb_scan|]. intros inc.
  apply keeps_bind; [apply keeps_Index_bnb_scan|]. intros out s r s' H.
  destruct (Index_bnb_submit_trace sdk bnbChainAddress (inc ++ out) s)
    as (replies & s1 & _ & Hrun & Hthis & _).
  congruence.
Qed.

Lemma keeps_Legacy_bnb_pass fuel :
  keeps_this (Legacy.refundBinanceChainSwaps sdk bnbChainAddress fuel).
Proof.
  unfold Legacy.refundBinanceChainSwaps.
  apply keeps_bind; [apply keeps_Legacy_bnb_scan|]. intros inc.
  apply keeps_bind; [apply keeps_Legacy_bnb_scan|]. intros out s r s' H.
  destruct (Legacy.concat_ids inc out) as [ids|e] eqn:Hids.
  - destruct (Legacy_bnb_submit_trace sdk bnbChainAddress inc out ids s Hids)
      as (replies & s1 & _ & Hrun & Hthis & _).
    congruence.
  - unfold Legacy.refundBinanceChainSwaps_submit in H. rewrite Hids in H.
    inversion H; subst. reflexivity.
Qed.

Lemma keeps_Index_cycle fuel :
  keeps_this (Index.refundSwaps sdk bnbChainAddress fuel).
Proof.
  unfold Index.refundSwaps. apply keeps_bind.
  - apply keeps_Index_kava_pass.
  - intros _. apply keeps_Index_bnb_pass.
Qed.

Lemma keeps_Legacy_cycle fuel :
  keeps_this (Legacy.refundSwaps sdk bnbChainAddress fuel).
Proof.
  unfold Legacy.refundSwaps. apply keeps_bind.
  - apply keeps_Legacy_kava_pass.
  - intros _. apply keeps_Legacy_bnb_pass.
Qed.

Lemma keeps_cron ticks (cycle : M W unit) :
  keeps_this cycle -> keeps_this (cron ticks cycle).
Proof.
  intros Hc. induction ticks as [|ticks IH]; cbn [cron].
  - apply keeps_ret.
  - apply keeps_bind; [now apply keeps_try | intros _; exact IH].
Qed.

Lemma printOffsets_prints (s : St W) :
  printOffsets s
  = Some (Normal tt,
          mkSt (world s) (this s) (trace s ++ printed_offsets (this s))).
Proof.
  unfold printOffsets, printed_offsets. run.
  rewrite <- !app_assoc. reflexivity.
Qed.
End Frame.

(** ** The requests of the Kava scans *)

Section KavaRequests.
Context {W : Type} (sdk : Sdk W).

Lemma between_bounds first stride i :
  - 2 ^ 53 <= first <= 2 ^ 53 ->
  - 2 ^ 53 <= first + Z.of_nat (S i) * stride <= 2 ^ 53 ->
  - 2 ^ 53 <= first + stride <= 2 ^ 53.
Proof.
  remember (2 ^ 53) as bound eqn:Hbound. clear Hbound.
  rewrite Nat2Z.inj_succ. intros Hfirst Hlast.
  pose proof (Nat2Z.is_nonneg i).
  destruct (Z_le_gt_dec 0 stride); nia.
Qed.

Lemma evenly_paged_cons args_at first stride args timeout reply evs :
  args = args_at first ->
  evenly_paged args_at (js_add first stride) stride evs ->
  evenly_paged args_at first stride (EvGetSwaps args timeout reply :: evs).
Proof.
  intros Hfirst Hrest [|i] args' reply' H Hstart Hlast;
    cbn [kava_queries nth_error] in H.
  - inversion H; subst. f_equal. lia.
  - pose proof (between_bounds _ _ _ Hstart Hlast) as Hnext.
    rewrite (js_add_exact _ _ Hnext) in Hrest.
    rewrite (Hrest i args' reply' H Hnext) by lia. f_equal. lia.
Qed.

Lemma evenly_paged_last args_at first stride args timeout reply tail :
  args = args_at first ->
  kava_queries tail = [] ->
  evenly_paged args_at first stride (EvGetSwaps args timeout reply :: tail).
Proof.
  intros Hfirst Htail [|i] args' reply' H Hstart Hlast;
    cbn [kava_queries nth_error] in H.
  - inversion H; subst. f_equal. lia.
  - rewrite Htail in H. destruct i; discriminate.
Qed.

Lemma Index_kava_while_requests fuel :
  forall found offset s r s',
    while fuel (Index.kava_scan_body sdk) (found, offset) s = Some (r, s') ->
    exists evs,
      trace s' = trace s ++ evs
      /\ evenly_paged (fun o => ByOffset 3 o (limit (this s))) offset
           (limit (this s)) evs.
Proof.
  induction fuel as [|fuel IH]; intros found offset s r s' H;
    [discriminate|].
  rewrite while_S in H.
  destruct (Index_kava_body_cases sdk found offset s)
    as (reply & w & _ & Hbody).
  cbv zeta in Hbody. rewrite Hbody in H. clear Hbody.
  destruct reply as [b|e]; [destruct (present_nonempty b)|].
  - apply IH in H. destruct H as (evs & Htr & Hpaged).
    cbn [this trace] in *. eexists (_ :: evs).
    split; [rewrite Htr, <- app_assoc; reflexivity|].
    now apply evenly_paged_cons.
  - inversion H; subst. cbn [trace]. eexists [_].
    split; [reflexivity | now apply evenly_paged_last].
  - inversion H; subst. cbn [trace]. eexists [_; _].
    split; [reflexivity | now apply evenly_paged_last].
Qed.

Lemma Legacy_kava_while_requests fuel :
  forall found page s r s',
    while fuel (Legacy.kava_scan_body sdk) (found, page) s = Some (r, s') ->
    exists evs,
      trace s' = trace s ++ evs
      /\ evenly_paged (fun p => ByPage "Expired" p (limit (this s))) page 1 evs.
Proof.
  induction fuel as [|fuel IH]; intros found page s r s' H;
    [discriminate|].
  rewrite while_S in H.
  destruct (Legacy_kava_body_cases sdk found page s)
    as (reply & w & _ & Hbody).
  cbv zeta in Hbody. rewrite Hbody in H. clear Hbody.
  destruct reply as [[b|]|e]; [destruct (nonempty b)| |].
  - apply IH in H. destruct H as (evs & Htr & Hpaged).
    cbn [this trace] in *. eexists (_ :: evs).
    split; [rewrite Htr, <- app_assoc; reflexivity|].
    now apply evenly_paged_cons.
  - inversion H; subst. cbn [trace]. eexists [_].
    split; [reflexivity | now apply evenly_paged_last].
  - inversion H; subst. cbn [trace]. eexists [_].
    split; [reflexivity | now apply evenly_paged_last].
  - inversion H; subst. cbn [trace]. eexists [_; _].
    split; [reflexivity | now apply evenly_paged_last].
Qed.

Lemma Index_kava_scan_requests fuel s r s' :
  Index.getRefundableKavaSwaps sdk fuel s = Some (r, s') ->
  exists evs,
    trace s' = trace s ++ evs
    /\ evenly_paged (fun o => ByOffset 3 o (limit (this s))) 0
         (limit (this s)) evs.
Proof.
  unfold Index.getRefundableKavaSwaps, bind, lift, ret. intros H.
  destruct (while fuel _ _ s) as [[[[found|ids]|e] s1]|] eqn:Hw;
    try discriminate;
    apply Index_kava_while_requests in Hw; inversion H; subst; exact Hw.
Qed.

Lemma Legacy_kava_scan_requests fuel s r s' :
  Legacy.getRefundableKavaSwaps sdk fuel s = Some (r, s') ->
  exists evs,
    trace s' = trace s ++ evs
    /\ evenly_paged (fun p => ByPage "Expired" p (limit (this s))) 1 1 evs.
Proof.
  unfold Legacy.getRefundableKavaSwaps, bind, lift, ret. intros H.
  destruct (while fuel _ _ s) as [[[[found|ids]|e] s1]|] eqn:Hw;
    try discriminate;
    apply Legacy_kava_while_requests in Hw;
    try destruct (calculate_swapIDs sdk found []);
    inversion H; subst; exact Hw.
Qed.

(** The Kava scan completes when its loop does. *)
Lemma Index_kava_scan_terminates s :
  terminates (Index.getRefundableKavaSwaps sdk) s
  <-> terminates (index_kava_loop sdk) s.
Proof.
  unfold terminates, Index.getRefundableKavaSwaps, index_kava_loop, bind.
  split; intros [fuel H]; exists fuel;
    destruct (while fuel _ _ s) as [[[[found|ids]|e] s1]|];
    cbv beta iota in *; unfold ret, lift in *; congruence.
Qed.

Lemma Legacy_kava_scan_terminates s :
  terminates (Legacy.getRefundableKavaSwaps sdk) s
  <-> terminates (legacy_kava_loop sdk) s.
Proof.
  unfold terminates, Legacy.getRefundableKavaSwaps, legacy_kava_loop, bind.
  split; intros [fuel H]; exists fuel;
    destruct (while fuel _ _ s) as [[[[found|ids]|e] s1]|];
    cbv beta iota in *; unfold ret, lift in *;
    try destruct (calculate_swapIDs sdk found []); congruence.
Qed.

(** What the calculation of the swap IDs comes to. *)
Lemma calculate_swapIDs_cases items :
  forall swapIDs,
    match calculate_swapIDs sdk items swapIDs with
    | Normal all =>
        exists ids, all = swapIDs ++ ids /\ ids_of_items sdk items ids
    | Throw e => first_to_raise sdk items e
    end.
Proof.
  induction items as [|swap items IH]; intros swapIDs;
    cbn [calculate_swapIDs].
  - exists []. rewrite app_nil_r. split; [reflexivity | constructor].
  - destruct (swapID_of sdk swap) as [id|e] eqn:Hid.
    + specialize (IH (swapIDs ++ [id])).
      destruct (calculate_swapIDs sdk items (swapIDs ++ [id])) as [all|e].
      * destruct IH as (ids & -> & Hids). exists (id :: ids).
        rewrite <- app_assoc. split; [reflexivity | now constructor].
      * destruct IH as (before & bad & after & ids & -> & Hids & Hbad).
        exists (swap :: before), bad, after, (id :: ids).
        split; [reflexivity|]. split; [now constructor | exact Hbad].
    + exists [], swap, items, []. split; [reflexivity|].
      split; [constructor | exact Hid].
Qed.

Lemma calculate_swapIDs_outcome items :
  swapIDs_outcome sdk items (calculate_swapIDs sdk items []).
Proof.
  pose proof (calculate_swapIDs_cases items []) as H.
  unfold swapIDs_outcome.
  destruct (calculate_swapIDs sdk items []) as [all|e]; [|exact H].
  destruct H as (ids & -> & Hids). exact Hids.
Qed.

Lemma Index_kava_scan_drains s items :
  client_drains (Index.kava_scan_body sdk) (index_kava_verdict sdk)
    ([], 0) s items ->
  exists fuel s',
    Index.getRefundableKavaSwaps sdk fuel s
    = Some (calculate_swapIDs sdk items [], s').
Proof.
  intros H.
  destruct (while_drains _ _ fst (fun items => items)
              (fun r => match r with
                        | Fallthrough found => Some found
                        | Return _ => None
                        end)
              (fun a b => eq_refl) eq_refl
              (Index_kava_collects sdk) (Index_kava_nothing sdk) _ _ _ H)
    as (fuel & r & s' & Hrun & Hr).
  exists fuel, s'. unfold Index.getRefundableKavaSwaps, bind.
  rewrite Hrun. destruct r as [found|ids]; [|discriminate].
  inversion Hr; subst. reflexivity.
Qed.

Lemma Legacy_kava_scan_drains s items :
  client_drains (Legacy.kava_scan_body sdk) (legacy_kava_verdict sdk)
    ([], 1) s items ->
  exists fuel s',
    Legacy.getRefundableKavaSwaps sdk fuel s
    = Some (match calculate_swapIDs sdk items [] with
            | Normal ids => Normal (Some ids)
            | Throw e => Throw e
            end, s').
Proof.
  intros H.
  destruct (while_drains _ _ fst (fun items => items)
              (fun r => match r with
                        | Fallthrough found => Some found
                        | Return _ => None
                        end)
              (fun a b => eq_refl) eq_refl
              (Legacy_kava_collects sdk) (Legacy_kava_nothing sdk) _ _ _ H)
    as (fuel & r & s' & Hrun & Hr).
  exists fuel, s'. unfold Legacy.getRefundableKavaSwaps, bind.
  rewrite Hrun. destruct r as [found|ids]; [|discriminate].
  inversion Hr; subst. cbn [app]. unfold lift, ret.
  destruct (calculate_swapIDs sdk items []); reflexivity.
Qed.
End KavaRequests.

(** * The claims *)

(** ** Sequence numbers of a Kava batch *)

(** C5, as stated, fails, in both copies: Kava lists two swaps and the
    account sequence is 2^53.  The second submission should carry
    2^53 + 1; the sum is computed in double precision, where it is 2^53
    again, and both submissions carry the same sequence. *)
Lemma sequence_is_a_double :
  option_map (fun p => (metadata_fetches (trace (snd p)),
                        kava_attempts (trace (snd p))))
    (Index.refundKavaSwaps scripted 3 large_sequence)
  = Some ([Normal 9007199254740992],
          [("hashA/kava1a/bnb1a", 9007199254740992);
           ("hashB/kava1b/bnb1b", 9007199254740992)])
  /\ option_map (fun p => (metadata_fetches (trace (snd p)),
                           kava_attempts (trace (snd p))))
       (Legacy.refundKavaSwaps scripted 3 large_sequence)
     = Some ([Normal 9007199254740992],
             [("hashA/kava1a/bnb1a", 9007199254740992);
              ("hashB/kava1b/bnb1b", 9007199254740992)])
  /\ (forall r s',
         Index.refundKavaSwaps scripted 3 large_sequence = Some (r, s') ->
         ~ sequenced_as_claimed ["hashA/kava1a/bnb1a"; "hashB/kava1b/bnb1b"]
             (trace s'))
  /\ (forall r s',
         Legacy.refundKavaSwaps scripted 3 large_sequence = Some (r, s') ->
         ~ sequenced_as_claimed ["hashA/kava1a/bnb1a"; "hashB/kava1b/bnb1b"]
             (trace s')).
Proof.
  split; [vm_compute; reflexivity|].
  split; [vm_compute; reflexivity|].
  split; intros r s' H Hclaim; vm_compute in H; inversion H; subst; clear H;
    cbn [trace] in Hclaim;
    match type of Hclaim with
    | sequenced_as_claimed _ (?a :: ?b :: ?c :: ?m :: ?rest) =>
        specialize (Hclaim _ [a; b; c] rest eq_refl 1%nat _ eq_refl)
    end;
    vm_compute in Hclaim; discriminate.
Qed.

(** C5, amended.  In both copies of [refundKavaSwaps], once the scan has
    returned the swap IDs [ids], the pass runs to its end; the account
    metadata is requested exactly once, before any submission; and when the
    request returned the sequence number [baseSequence], the i-th
    submission of the batch (from 0) carries [ids[i]] with the sum of
    [baseSequence] and [i] as JavaScript adds them, whatever the chain
    answered to the submissions before it: that is [baseSequence + i] as
    long as [baseSequence] is not negative and [baseSequence] plus the
    number of IDs is at most 2^53.  (When the request raised there is no
    submission.) *)
Theorem kava_batch_sequence_numbers {W : Type} (sdk : Sdk W) (fuel : nat)
    (s : St W) (ids : list string) :
  (forall s1,
      Index.getRefundableKavaSwaps sdk fuel s = Some (Normal ids, s1) ->
      exists s' evs,
        Index.refundKavaSwaps sdk fuel s = Some (Normal tt, s')
        /\ trace s' = trace s1 ++ evs
        /\ sequenced_batch ids evs)
  /\ (forall s1,
         Legacy.getRefundableKavaSwaps sdk fuel s
         = Some (Normal (Some ids), s1) ->
         exists s' evs,
           Legacy.refundKavaSwaps sdk fuel s = Some (Normal tt, s')
           /\ trace s' = trace s1 ++ evs
           /\ sequenced_batch ids evs).
Proof.
  split; intros s1 Hscan.
  - destruct (Index_kava_pass sdk fuel s ids s1 Hscan)
      as (r & replies & s' & Hlen & Hrun & _ & Htr).
    exists s', (kava_submit_events (Some Index.fee) 25000 ids r replies).
    repeat split; auto. now apply kava_submit_sequenced.
  - destruct (Legacy_kava_pass sdk fuel s ids s1 Hscan)
      as (r & replies & s' & Hlen & Hrun & _ & Htr).
    exists s', (kava_submit_events None 7000 ids r replies).
    repeat split; auto. now apply kava_submit_sequenced.
Qed.

(** Two expired swaps, sequence 7, first refund rejected: both copies still
    send the second with sequence 8. *)
Lemma kava_batch_sequence_numbers_witness :
  (exists s1,
      Index.getRefundableKavaSwaps scripted 3 two_expired
      = Some (Normal ["hashA/kava1a/bnb1a"; "hashB/kava1b/bnb1b"], s1)
      /\ exists s' evs,
          Index.refundKavaSwaps scripted 3 two_expired = Some (Normal tt, s')
          /\ trace s' = trace s1 ++ evs
          /\ sequenced_batch ["hashA/kava1a/bnb1a"; "hashB/kava1b/bnb1b"] evs)
  /\ (exists s1,
         Legacy.getRefundableKavaSwaps scripted 3 two_expired
         = Some (Normal (Some ["hashA/kava1a/bnb1a"; "hashB/kava1b/bnb1b"]),
                 s1)
         /\ exists s' evs,
             Legacy.refundKavaSwaps scripted 3 two_expired
             = Some (Normal tt, s')
             /\ trace s' = trace s1 ++ evs
             /\ sequenced_batch ["hashA/kava1a/bnb1a"; "hashB/kava1b/bnb1b"]
                  evs).
Proof.
  split; eexists; (split; [vm_compute; reflexivity|]).
  - apply (proj1 (kava_batch_sequence_numbers scripted 3 two_expired
                    ["hashA/kava1a/bnb1a"; "hashB/kava1b/bnb1b"])).
    vm_compute. reflexivity.
  - apply (proj2 (kava_batch_sequence_numbers scripted 3 two_expired
                    ["hashA/kava1a/bnb1a"; "hashB/kava1b/bnb1b"])).
    vm_compute. reflexivity.
Defined.

(** ** One submission per discovered swap *)

(** C6, as stated, fails on the Kava pass of both copies: one swap is
    discovered (the count 1 is printed), the metadata request raises, and
    no submission is attempted. *)
Lemma discovered_but_not_attempted :
  option_map fst (Index.getRefundableKavaSwaps scripted 3 metadata_down)
  = Some (Normal ["hashA/kava1a/bnb1a"])
  /\ option_map (fun p => (fst p, kava_attempts (trace (snd p)),
                           log_lines (trace (snd p))))
       (Index.refundKavaSwaps scripted 3 metadata_down)
     = Some (Normal tt, [],
             [LogKavaCount 1; LogExn (Error "ECONNREFUSED")])
  /\ option_map fst (Legacy.getRefundableKavaSwaps scripted 3 metadata_down)
     = Some (Normal (Some ["hashA/kava1a/bnb1a"]))
  /\ option_map (fun p => (fst p, kava_attempts (trace (snd p)),
                           log_lines (trace (snd p))))
       (Legacy.refundKavaSwaps scripted 3 metadata_down)
     = Some (Normal tt, [],
             [LogKavaCount 1; LogExn (Error "ECONNREFUSED")]).
Proof. repeat split; vm_compute; reflexivity. Qed.

(** C6, amended.  In both copies, once the scans have returned, the pass
    runs to its end.  The Binance Chain pass attempts exactly one
    submission per discovered swap ID, in order.  The Kava pass does so
    when the metadata request before its loop succeeded; when that request
    raised, the error is printed and nothing is submitted.  A submission
    that raises is caught and printed at once, and the loop goes on with
    the next swap. *)
Theorem one_submission_per_swap {W : Type} (sdk : Sdk W)
    (bnbChainAddress : string) (fuel : nat) (s : St W) :
  (forall ids s1,
      Index.getRefundableKavaSwaps sdk fuel s = Some (Normal ids, s1) ->
      exists s' evs,
        Index.refundKavaSwaps sdk fuel s = Some (Normal tt, s')
        /\ trace s' = trace s1 ++ evs
        /\ kava_batch_attempted ids evs)
  /\ (forall inc s1 out s2,
         Index.getRefundableBinanceSwaps sdk true fuel s
         = Some (Normal inc, s1) ->
         Index.getRefundableBinanceSwaps sdk false fuel s1
         = Some (Normal out, s2) ->
         exists s' evs,
           Index.refundBinanceChainSwaps sdk bnbChainAddress fuel s
           = Some (Normal tt, s')
           /\ trace s' = trace s2 ++ evs
           /\ bnb_batch_attempted (map Some (inc ++ out)) evs)
  /\ (forall ids s1,
         Legacy.getRefundableKavaSwaps sdk fuel s
         = Some (Normal (Some ids), s1) ->
         exists s' evs,
           Legacy.refundKavaSwaps sdk fuel s = Some (Normal tt, s')
           /\ trace s' = trace s1 ++ evs
           /\ kava_batch_attempted ids evs)
  /\ (forall inc s1 out s2 ids,
         Legacy.getRefundableBinanceSwaps sdk true fuel s
         = Some (Normal inc, s1) ->
         Legacy.getRefundableBinanceSwaps sdk false fuel s1
         = Some (Normal out, s2) ->
         Legacy.concat_ids inc out = Normal ids ->
         exists s' evs,
           Legacy.refundBinanceChainSwaps sdk bnbChainAddress fuel s
           = Some (Normal tt, s')
           /\ trace s' = trace s2 ++ evs
           /\ bnb_batch_attempted ids evs).
Proof.
  split; [|split; [|split]].
  - intros ids s1 Hscan.
    destruct (Index_kava_pass sdk fuel s ids s1 Hscan)
      as (r & replies & s' & Hlen & Hrun & _ & Htr).
    eexists s', _. split; [exact Hrun|]. split; [exact Htr|].
    now apply kava_submit_attempted.
  - intros inc s1 out s2 Hin Hout.
    destruct (Index_bnb_pass sdk bnbChainAddress fuel s inc s1 out s2 Hin Hout)
      as (replies & s' & Hlen & Hrun & _ & Htr).
    eexists s', _. split; [exact Hrun|]. split; [exact Htr|].
    now apply bnb_submit_attempted.
  - intros ids s1 Hscan.
    destruct (Legacy_kava_pass sdk fuel s ids s1 Hscan)
      as (r & replies & s' & Hlen & Hrun & _ & Htr).
    eexists s', _. split; [exact Hrun|]. split; [exact Htr|].
    now apply kava_submit_attempted.
  - intros inc s1 out s2 ids Hin Hout Hids.
    destruct (Legacy_bnb_pass sdk bnbChainAddress fuel s inc s1 out s2 ids
                Hin Hout Hids)
      as (replies & s' & Hlen & Hrun & _ & Htr).
    eexists s', _. split; [exact Hrun|]. split; [exact Htr|].
    now apply bnb_submit_attempted.
Qed.

(** Both passes of both copies on explicit chains: two Kava swaps of which
    the first refund is rejected, and one swap of the deputy. *)
Lemma one_submission_per_swap_witness :
  (exists ids s1,
      Index.getRefundableKavaSwaps scripted 3 two_expired
      = Some (Normal ids, s1)
      /\ exists s' evs,
          Index.refundKavaSwaps scripted 3 two_expired = Some (Normal tt, s')
          /\ trace s' = trace s1 ++ evs
          /\ kava_batch_attempted ids evs)
  /\ (exists inc s1 out s2,
         Index.getRefundableBinanceSwaps scripted true 3 one_on_each_chain
         = Some (Normal inc, s1)
         /\ Index.getRefundableBinanceSwaps scripted false 3 s1
            = Some (Normal out, s2)
         /\ exists s' evs,
             Index.refundBinanceChainSwaps scripted "bnb1bot" 3
               one_on_each_chain
             = Some (Normal tt, s')
             /\ trace s' = trace s2 ++ evs
             /\ bnb_batch_attempted (map Some (inc ++ out)) evs)
  /\ (exists ids s1,
         Legacy.getRefundableKavaSwaps scripted 3 two_expired
         = Some (Normal (Some ids), s1)
         /\ exists s' evs,
             Legacy.refundKavaSwaps scripted 3 two_expired
             = Some (Normal tt, s')
             /\ trace s' = trace s1 ++ evs
             /\ kava_batch_attempted ids evs)
  /\ (exists inc s1 out s2 ids,
         Legacy.getRefundableBinanceSwaps scripted true 3 one_on_each_chain
         = Some (Normal inc, s1)
         /\ Legacy.getRefundableBinanceSwaps scripted false 3 s1
            = Some (Normal out, s2)
         /\ Legacy.concat_ids inc out = Normal ids
         /\ exists s' evs,
             Legacy.refundBinanceChainSwaps scripted "bnb1bot" 3
               one_on_each_chain
             = Some (Normal tt, s')
             /\ trace s' = trace s2 ++ evs
             /\ bnb_batch_attempted ids evs).
Proof.
  pose proof (one_submission_per_swap scripted "bnb1bot" 3 two_expired)
    as (HIk & _ & HLk & _).
  pose proof (one_submission_per_swap scripted "bnb1bot" 3 one_on_each_chain)
    as (_ & HIb & _ & HLb).
  split; [|split; [|split]].
  - eexists _, _. split; [vm_compute; reflexivity|].
    eapply HIk. vm_compute. reflexivity.
  - eexists _, _, _, _. split; [vm_compute; reflexivity|].
    split; [vm_compute; reflexivity|].
    eapply HIb; [vm_compute; reflexivity | vm_compute; reflexivity].
  - eexists _, _. split; [vm_compute; reflexivity|].
    eapply HLk. vm_compute. reflexivity.
  - eexists _, _, _, _, _. split; [vm_compute; reflexivity|].
    split; [vm_compute; reflexivity|].
    split; [vm_compute; reflexivity|].
    eapply HLb;
      [vm_compute; reflexivity | vm_compute; reflexivity
      | vm_compute; reflexivity].
Defined.

(** ** Pacing *)

(** C8, as stated, fails on the older copy: after its Kava submission it
    pauses 7000 ms and after its Binance Chain submission 3000 ms. *)
Lemma legacy_pauses_are_shorter :
  option_map (fun p => pacing (trace (snd p)))
    (Legacy.refundSwaps scripted "bnb1bot" 3 one_on_each_chain)
  = Some [Submit; Pause 7000; Submit; Pause 3000].
Proof. vm_compute. reflexivity. Qed.

(** C8, amended.  In both copies every submission attempt, successful or
    not, is followed by one pause before the next attempt, and there is no
    other pause.  The entry point pauses 25000 ms after a Kava submission
    and 5000 ms after a Binance Chain submission; the older copy pauses
    7000 ms and 3000 ms. *)
Theorem pauses_after_submissions {W : Type} (sdk : Sdk W)
    (bnbChainAddress : string) (fuel : nat) (s : St W) :
  (forall ids s1,
      Index.getRefundableKavaSwaps sdk fuel s = Some (Normal ids, s1) ->
      exists s' evs,
        Index.refundKavaSwaps sdk fuel s = Some (Normal tt, s')
        /\ trace s' = trace s1 ++ evs
        /\ paced 25000 evs)
  /\ (forall inc s1 out s2,
         Index.getRefundableBinanceSwaps sdk true fuel s
         = Some (Normal inc, s1) ->
         Index.getRefundableBinanceSwaps sdk false fuel s1
         = Some (Normal out, s2) ->
         exists s' evs,
           Index.refundBinanceChainSwaps sdk bnbChainAddress fuel s
           = Some (Normal tt, s')
           /\ trace s' = trace s2 ++ evs
           /\ paced 5000 evs)
  /\ (forall ids s1,
         Legacy.getRefundableKavaSwaps sdk fuel s
         = Some (Normal (Some ids), s1) ->
         exists s' evs,
           Legacy.refundKavaSwaps sdk fuel s = Some (Normal tt, s')
           /\ trace s' = trace s1 ++ evs
           /\ paced 7000 evs)
  /\ (forall inc s1 out s2 ids,
         Legacy.getRefundableBinanceSwaps sdk true fuel s
         = Some (Normal inc, s1) ->
         Legacy.getRefundableBinanceSwaps sdk false fuel s1
         = Some (Normal out, s2) ->
         Legacy.concat_ids inc out = Normal ids ->
         exists s' evs,
           Legacy.refundBinanceChainSwaps sdk bnbChainAddress fuel s
           = Some (Normal tt, s')
           /\ trace s' = trace s2 ++ evs
           /\ paced 3000 evs).
Proof.
  split; [|split; [|split]].
  - intros ids s1 Hscan.
    destruct (Index_kava_pass sdk fuel s ids s1 Hscan)
      as (r & replies & s' & Hlen & Hrun & _ & Htr).
    eexists s', _. split; [exact Hrun|]. split; [exact Htr|].
    now apply kava_submit_paced.
  - intros inc s1 out s2 Hin Hout.
    destruct (Index_bnb_pass sdk bnbChainAddress fuel s inc s1 out s2 Hin Hout)
      as (replies & s' & Hlen & Hrun & _ & Htr).
    eexists s', _. split; [exact Hrun|]. split; [exact Htr|].
    now apply bnb_submit_paced.
  - intros ids s1 Hscan.
    destruct (Legacy_kava_pass sdk fuel s ids s1 Hscan)
      as (r & replies & s' & Hlen & Hrun & _ & Htr).
    eexists s', _. split; [exact Hrun|]. split; [exact Htr|].
    now apply kava_submit_paced.
  - intros inc s1 out s2 ids Hin Hout Hids.
    destruct (Legacy_bnb_pass sdk bnbChainAddress fuel s inc s1 out s2 ids
                Hin Hout Hids)
      as (replies & s' & Hlen & Hrun & _ & Htr).
    eexists s', _. split; [exact Hrun|]. split; [exact Htr|].
    now apply bnb_submit_paced.
Qed.

Lemma pauses_after_submissions_witness :
  (exists ids s1,
      Index.getRefundableKavaSwaps scripted 3 two_expired
      = Some (Normal ids, s1)
      /\ exists s' evs,
          Index.refundKavaSwaps scripted 3 two_expired = Some (Normal tt, s')
          /\ trace s' = trace s1 ++ evs
          /\ paced 25000 evs)
  /\ (exists inc s1 out s2,
         Index.getRefundableBinanceSwaps scripted true 3 one_on_each_chain
         = Some (Normal inc, s1)
         /\ Index.getRefundableBinanceSwaps scripted false 3 s1
            = Some (Normal out, s2)
         /\ exists s' evs,
             Index.refundBinanceChainSwaps scripted "bnb1bot" 3
               one_on_each_chain
             = Some (Normal tt, s')
             /\ trace s' = trace s2 ++ evs
             /\ paced 5000 evs)
  /\ (exists ids s1,
         Legacy.getRefundableKavaSwaps scripted 3 two_expired
         = Some (Normal (Some ids), s1)
         /\ exists s' evs,
             Legacy.refundKavaSwaps scripted 3 two_expired
             = Some (Normal tt, s')
             /\ trace s' = trace s1 ++ evs
             /\ paced 7000 evs)
  /\ (exists inc s1 out s2 ids,
         Legacy.getRefundableBinanceSwaps scripted true 3 one_on_each_chain
         = Some (Normal inc, s1)
         /\ Legacy.getRefundableBinanceSwaps scripted false 3 s1
            = Some (Normal out, s2)
         /\ Legacy.concat_ids inc out = Normal ids
         /\ exists s' evs,
             Legacy.refundBinanceChainSwaps scripted "bnb1bot" 3
               one_on_each_chain
             = Some (Normal tt, s')
             /\ trace s' = trace s2 ++ evs
             /\ paced 3000 evs).
Proof.
  pose proof (pauses_after_submissions scripted "bnb1bot" 3 two_expired)
    as (HIk & _ & HLk & _).
  pose proof (pauses_after_submissions scripted "bnb1bot" 3 one_on_each_chain)
    as (_ & HIb & _ & HLb).
  split; [|split; [|split]].
  - eexists _, _. split; [vm_compute; reflexivity|].
    eapply HIk. vm_compute. reflexivity.
  - eexists _, _, _, _. split; [vm_compute; reflexivity|].
    split; [vm_compute; reflexivity|].
    eapply HIb; [vm_compute; reflexivity | vm_compute; reflexivity].
  - eexists _, _. split; [vm_compute; reflexivity|].
    eapply HLk. vm_compute. reflexivity.
  - eexists _, _, _, _, _. split; [vm_compute; reflexivity|].
    split; [vm_compute; reflexivity|].
    split; [vm_compute; reflexivity|].
    eapply HLb;
      [vm_compute; reflexivity | vm_compute; reflexivity
      | vm_compute; reflexivity].
Defined.

(** ** The offset policy *)

Lemma offset_policy_nil resets incoming bot :
  offset_policy resets incoming bot [].
Proof. intros [|p pre] q post H; discriminate. Qed.

(** C1, as stated, fails, in both copies: with a limit of two, a page of one
    item is followed by a second request to the same deputy, two further;
    the scan was not complete after the short page and the offset
    advanced. *)
Lemma short_page_advances_offset :
  option_map (fun p => (fst p, query_log (trace (snd p))))
    (Index.getRefundableBinanceSwaps scripted true 3 short_page)
  = Some (Normal ["s1"], [("bnb1deputy", 0, 1%nat); ("bnb1deputy", 2, 0%nat)])
  /\ option_map (fun p => (fst p, query_log (trace (snd p))))
       (Legacy.getRefundableBinanceSwaps scripted true 3 short_page)
     = Some (Normal (Some ["s1"]),
             [("bnb1deputy", 0, 1%nat); ("bnb1deputy", 2, 0%nat)])
  /\ (forall r s',
         Index.getRefundableBinanceSwaps scripted true 3 short_page
         = Some (r, s') ->
         ~ advances_only_when_full 2 (bnb_queries (trace s')))
  /\ (forall r s',
         Legacy.getRefundableBinanceSwaps scripted true 3 short_page
         = Some (r, s') ->
         ~ advances_only_when_full 2 (bnb_queries (trace s'))).
Proof.
  split; [vm_compute; reflexivity|].
  split; [vm_compute; reflexivity|].
  split; intros r s' H Hclaim; vm_compute in H; inversion H; subst; clear H;
    cbn [trace bnb_queries] in Hclaim;
    specialize (Hclaim [] _ _ [] eq_refl eq_refl eq_refl);
    vm_compute in Hclaim; discriminate.
Qed.

(** C1, amended.  In a scan of one direction of Binance Chain, in both
    copies: the first request is sent at the bot's stored offset for the
    direction; a page with at least one item is followed by another request
    to the same deputy; when the page had exactly [limit] items that
    request is sent at the sum of the offset and [limit] as JavaScript adds
    them, which is [limit] further as long as the sum stays within 2^53.
    No page ends the loop of a deputy, however short; an empty or absent
    batch does: the next request, if any, goes to the next deputy of the
    list, and the entry point has then reset the offset to the stored one,
    so that this request starts there, while the older copy leaves the
    offset where it was.  The Kava scan of the entry point sends the
    offsets 0, [limit], 2 [limit], ..., and that of the older copy the
    pages 1, 2, 3, ..., as long as these stay within 2^53. *)
Theorem scan_offset_policy {W : Type} (sdk : Sdk W) (incoming : bool)
    (fuel : nat) (s : St W) :
  (forall r s',
      Index.getRefundableBinanceSwaps sdk incoming fuel s = Some (r, s') ->
      exists evs,
        trace s' = trace s ++ evs
        /\ offset_policy true incoming (this s) (bnb_queries evs))
  /\ (forall r s',
         Legacy.getRefundableBinanceSwaps sdk incoming fuel s
         = Some (r, s') ->
         exists evs,
           trace s' = trace s ++ evs
           /\ offset_policy false incoming (this s) (bnb_queries evs))
  /\ (forall r s',
         Index.getRefundableKavaSwaps sdk fuel s = Some (r, s') ->
         exists evs,
           trace s' = trace s ++ evs
           /\ evenly_paged (fun o => ByOffset 3 o (limit (this s))) 0
                (limit (this s)) evs)
  /\ (forall r s',
         Legacy.getRefundableKavaSwaps sdk fuel s = Some (r, s') ->
         exists evs,
           trace s' = trace s ++ evs
           /\ evenly_paged (fun p => ByPage "Expired" p (limit (this s))) 1 1
                evs).
Proof.
  split; [|split; [|split]]; intros r s' H.
  - apply Index_scan_run in H.
    destruct H as [_ [(e & -> & Htr)|(latest & evs & v' & -> & Htr & Hrun)]].
    + eexists. split; [exact Htr|]. apply offset_policy_nil.
    + eexists. split; [exact Htr|]. cbn [bnb_queries].
      eapply index_run_policy; eauto.
  - apply Legacy_scan_run in H.
    destruct H as [_ (evs & out & -> & Htr & Hrun)].
    exists evs. split; [exact Htr|].
    eapply legacy_run_policy; eauto.
  - eapply Index_kava_scan_requests; eauto.
  - eapply Legacy_kava_scan_requests; eauto.
Qed.

Lemma scan_offset_policy_witness :
  (exists r s',
      Index.getRefundableBinanceSwaps scripted true 3 two_deputies
      = Some (r, s')
      /\ exists evs,
          trace s' = trace two_deputies ++ evs
          /\ offset_policy true true (this two_deputies) (bnb_queries evs))
  /\ (exists r s',
         Legacy.getRefundableBinanceSwaps scripted true 3 two_deputies
         = Some (r, s')
         /\ exists evs,
             trace s' = trace two_deputies ++ evs
             /\ offset_policy false true (this two_deputies)
                  (bnb_queries evs))
  /\ (exists r s',
         Index.getRefundableKavaSwaps scripted 3 two_expired = Some (r, s')
         /\ exists evs,
             trace s' = trace two_expired ++ evs
             /\ evenly_paged
                  (fun o => ByOffset 3 o (limit (this two_expired))) 0
                  (limit (this two_expired)) evs)
  /\ (exists r s',
         Legacy.getRefundableKavaSwaps scripted 3 two_expired = Some (r, s')
         /\ exists evs,
             trace s' = trace two_expired ++ evs
             /\ evenly_paged
                  (fun p => ByPage "Expired" p (limit (this two_expired))) 1 1
                  evs).
Proof.
  pose proof (scan_offset_policy scripted true 3 two_deputies)
    as (HIb & HLb & _ & _).
  pose proof (scan_offset_policy scripted true 3 two_expired)
    as (_ & _ & HIk & HLk).
  split; [|split; [|split]]; eexists _, _;
    (split; [vm_compute; reflexivity|]).
  - eapply HIb. vm_compute. reflexivity.
  - eapply HLb. vm_compute. reflexivity.
  - eapply HIk. vm_compute. reflexivity.
  - eapply HLk. vm_compute. reflexivity.
Defined.

(** ** The refundable predicate *)

Lemma legacy_run_returns_undefined incoming lim ds v qs out :
  legacy_run incoming lim ds v qs out ->
  forall x, out = Normal (Return x) -> x = None.
Proof.
  induction 1; intros x Hout; try discriminate; auto.
  inversion Hout; reflexivity.
Qed.

(** C2, as stated, fails on the older copy: at height 50 it returns the
    open swap [p1] that expires at height 1000.  The entry point returns
    [s1] only. *)
Lemma legacy_keeps_unexpired_swaps :
  option_map fst (Legacy.getRefundableBinanceSwaps scripted true 3 mixed_page)
  = Some (Normal (Some ["p1"; "s1"]))
  /\ open_and_expired 50 (open_pending "p1") = false
  /\ option_map fst (Index.getRefundableBinanceSwaps scripted true 3 mixed_page)
     = Some (Normal ["s1"]).
Proof. repeat split; vm_compute; reflexivity. Qed.

(** C2, amended.  When a scan of one direction returns, what it returns is
    the swap IDs, in order, of the listed records that pass its filter,
    over all the pages the chain returned to it.  The filter of the entry
    point is: status Open (1) and expiry height at most the latest block
    height that the node reported at the start of the scan.  The filter of
    the older copy is status Open alone; it never asks for the height. *)
Theorem scan_returns_refundable {W : Type} (sdk : Sdk W) (incoming : bool)
    (fuel : nat) (s : St W) :
  (forall ids s',
      Index.getRefundableBinanceSwaps sdk incoming fuel s
      = Some (Normal ids, s') ->
      exists latest evs,
        trace s' = trace s ++ EvNodeInfo (Normal latest) :: evs
        /\ ids = map swapId
                   (filter (open_and_expired latest)
                      (pages_of (bnb_queries evs))))
  /\ (forall ids s',
         Legacy.getRefundableBinanceSwaps sdk incoming fuel s
         = Some (Normal (Some ids), s') ->
         exists evs,
           trace s' = trace s ++ evs
           /\ ids = map swapId
                      (filter open_swap (pages_of (bnb_queries evs)))).
Proof.
  split; intros ids s' H.
  - apply Index_scan_run in H.
    destruct H as [_ [(e & He & _)|(latest & evs & v' & Hr & Htr & Hrun)]];
      [discriminate|].
    exists latest, evs. split; [exact Htr|].
    inversion Hr; subst.
    now rewrite (index_run_pages _ _ _ _ _ _ _ _ _ Hrun).
  - apply Legacy_scan_run in H.
    destruct H as [_ (evs & out & Hr & Htr & Hrun)].
    exists evs. split; [exact Htr|].
    destruct out as [[v'|x]|e]; cbn [legacy_scan_result] in Hr;
      inversion Hr; subst.
    + now rewrite (legacy_run_pages _ _ _ _ _ _ Hrun v' eq_refl).
    + discriminate (legacy_run_returns_undefined _ _ _ _ _ _ Hrun _ eq_refl).
Qed.

Lemma scan_returns_refundable_witness :
  (exists ids s',
      Index.getRefundableBinanceSwaps scripted true 3 mixed_page
      = Some (Normal ids, s')
      /\ exists latest evs,
          trace s' = trace mixed_page ++ EvNodeInfo (Normal latest) :: evs
          /\ ids = map swapId
                     (filter (open_and_expired latest)
                        (pages_of (bnb_queries evs))))
  /\ (exists ids s',
         Legacy.getRefundableBinanceSwaps scripted true 3 mixed_page
         = Some (Normal (Some ids), s')
         /\ exists evs,
             trace s' = trace mixed_page ++ evs
             /\ ids = map swapId
                        (filter open_swap (pages_of (bnb_queries evs)))).
Proof.
  pose proof (scan_returns_refundable scripted true 3 mixed_page)
    as (HI & HL).
  split; eexists _, _; (split; [vm_compute; reflexivity|]).
  - eapply HI. vm_compute. reflexivity.
  - eapply HL. vm_compute. reflexivity.
Defined.

(** ** From one deputy to the next *)

(** C9, as stated, fails on the entry point: the first deputy's loop reached
    offset 2 and ended on an empty batch, which reset the offset, so the
    first request for the second deputy is sent at the starting offset 0.
    The older copy sends it at 2. *)
Lemma next_deputy_restarts_after_reset :
  option_map (fun p => query_log (trace (snd p)))
    (Index.getRefundableBinanceSwaps scripted true 3 two_deputies)
  = Some [("bnb1d1", 0, 2%nat); ("bnb1d1", 2, 0%nat);
          ("bnb1d2", 0, 1%nat); ("bnb1d2", 2, 0%nat)]
  /\ option_map (fun p => query_log (trace (snd p)))
       (Legacy.getRefundableBinanceSwaps scripted true 3 two_deputies)
     = Some [("bnb1d1", 0, 2%nat); ("bnb1d1", 2, 0%nat);
             ("bnb1d2", 2, 1%nat); ("bnb1d2", 4, 0%nat)].
Proof. split; vm_compute; reflexivity. Qed.

(** C9, amended.  One offset variable per direction is shared by the loops
    of all the deputies, and the first request for the next deputy is sent
    at the value the loop of the deputy before it left.  In the older copy
    nothing resets the variable: after the empty batch that ends a deputy's
    loop, the next deputy's first request is sent at the same offset (and
    a request that raises ends the whole scan).  In the entry point the
    empty batch resets the variable, so the next deputy's first request is
    sent at the direction's starting offset; only when the deputy's loop
    ended on a request that raised, which resets nothing, is it sent at the
    offset of that request. *)
Theorem next_deputy_first_offset {W : Type} (sdk : Sdk W) (incoming : bool)
    (fuel : nat) (s : St W) :
  (forall r s',
      Index.getRefundableBinanceSwaps sdk incoming fuel s = Some (r, s') ->
      exists evs,
        trace s' = trace s ++ evs
        /\ forall pre q q' post,
            bnb_queries evs = pre ++ q :: q' :: post ->
            (empty_page q ->
             q_offset q' = start_offset incoming (this s)
             /\ handover (this s) q q')
            /\ (failed_query q ->
                q_offset q' = q_offset q /\ handover (this s) q q'))
  /\ (forall r s',
         Legacy.getRefundableBinanceSwaps sdk incoming fuel s
         = Some (r, s') ->
         exists evs,
           trace s' = trace s ++ evs
           /\ forall pre q q' post,
               bnb_queries evs = pre ++ q :: q' :: post ->
               (empty_page q ->
                q_offset q' = q_offset q /\ handover (this s) q q')
               /\ (failed_query q -> False)).
Proof.
  split; intros r s' H.
  - apply Index_scan_run in H.
    destruct H as [_ [(e & -> & Htr)|(latest & evs & v' & -> & Htr & Hrun)]].
    + eexists. split; [exact Htr|].
      intros [|p [|p' pre]] q q' post Hqs; discriminate.
    + eexists. split; [exact Htr|]. cbn [bnb_queries].
      intros pre q q' post Hqs.
      eapply index_run_handover; eauto.
  - apply Legacy_scan_run in H.
    destruct H as [_ (evs & out & -> & Htr & Hrun)].
    exists evs. split; [exact Htr|].
    intros pre q q' post Hqs.
    eapply legacy_run_handover; eauto.
Qed.

Lemma next_deputy_first_offset_witness :
  (exists r s',
      Index.getRefundableBinanceSwaps scripted true 3 two_deputies
      = Some (r, s')
      /\ exists evs,
          trace s' = trace two_deputies ++ evs
          /\ forall pre q q' post,
              bnb_queries evs = pre ++ q :: q' :: post ->
              (empty_page q ->
               q_offset q' = start_offset true (this two_deputies)
               /\ handover (this two_deputies) q q')
              /\ (failed_query q ->
                  q_offset q' = q_offset q
                  /\ handover (this two_deputies) q q'))
  /\ (exists r s',
         Legacy.getRefundableBinanceSwaps scripted true 3 two_deputies
         = Some (r, s')
         /\ exists evs,
             trace s' = trace two_deputies ++ evs
             /\ forall pre q q' post,
                 bnb_queries evs = pre ++ q :: q' :: post ->
                 (empty_page q ->
                  q_offset q' = q_offset q
                  /\ handover (this two_deputies) q q')
                 /\ (failed_query q -> False)).
Proof.
  pose proof (next_deputy_first_offset scripted true 3 two_deputies)
    as (HI & HL).
  split; eexists _, _; (split; [vm_compute; reflexivity|]).
  - eapply HI. vm_compute. reflexivity.
  - eapply HL. vm_compute. reflexivity.
Defined.

(** ** The stored offsets *)

(** C7, as stated, fails, in both copies: in this cycle the incoming scan
    of the first deputy gets a full page and goes on to offset 2, yet
    [printOffsets] after the cycle prints the offsets 0 and 0 of the
    construction. *)
Lemma printed_offsets_stay_at_construction :
  new_RefundBot ["bnb1d1"; "bnb1d2"] (Some 2) None None
  = Normal (this two_deputies)
  /\ option_map (fun p => query_log (trace (snd p)))
       (Index.refundSwaps scripted "bnb1bot" 3 two_deputies)
     = Some [("bnb1d1", 0, 2%nat); ("bnb1d1", 2, 0%nat);
             ("bnb1d2", 0, 1%nat); ("bnb1d2", 2, 0%nat);
             ("bnb1d1", 0, 0%nat); ("bnb1d2", 0, 0%nat)]
  /\ option_map (fun p => offset_lines (trace (snd p)))
       (cycle_then_print (Index.refundSwaps scripted "bnb1bot" 3)
          two_deputies)
     = Some [LogOffsetsHeader; LogOffsetIncoming 0; LogOffsetOutgoing 0]
  /\ option_map (fun p => query_log (trace (snd p)))
       (Legacy.refundSwaps scripted "bnb1bot" 3 two_deputies)
     = Some [("bnb1d1", 0, 2%nat); ("bnb1d1", 2, 0%nat);
             ("bnb1d2", 2, 1%nat); ("bnb1d2", 4, 0%nat);
             ("bnb1d1", 0, 0%nat); ("bnb1d2", 0, 0%nat)]
  /\ option_map (fun p => offset_lines (trace (snd p)))
       (cycle_then_print (Legacy.refundSwaps scripted "bnb1bot" 3)
          two_deputies)
     = Some [LogOffsetsHeader; LogOffsetIncoming 0; LogOffsetOutgoing 0].
Proof. repeat split; vm_compute; reflexivity. Qed.

(** C7, amended.  The two offsets are set when the bot is constructed (0
    when omitted) and no code of either copy assigns them afterwards: a
    scan copies them into local variables and advances or resets the
    copies only.  So after any number of cycles, whatever the chains
    answered and however the cycles ended, the bot is the constructed one
    and [printOffsets] prints the offsets of the construction. *)
Theorem stored_offsets_never_change {W : Type} (sdk : Sdk W)
    (bnbChainAddress : string) (deputies : list string)
    (limit offsetIncoming offsetOutgoing : option Z) (bot : RefundBot)
    (w : W) (history : list Event) (ticks fuel : nat) :
  new_RefundBot deputies limit offsetIncoming offsetOutgoing = Normal bot ->
  let constructed :=
    [EvLog LogOffsetsHeader;
     EvLog (LogOffsetIncoming
              (match offsetIncoming with Some o => o | None => 0 end));
     EvLog (LogOffsetOutgoing
              (match offsetOutgoing with Some o => o | None => 0 end))] in
  (forall r s',
      cron ticks (Index.refundSwaps sdk bnbChainAddress fuel)
        (mkSt w bot history)
      = Some (r, s') ->
      this s' = bot
      /\ printOffsets s'
         = Some (Normal tt, mkSt (world s') bot (trace s' ++ constructed)))
  /\ (forall r s',
         cron ticks (Legacy.refundSwaps sdk bnbChainAddress fuel)
           (mkSt w bot history)
         = Some (r, s') ->
         this s' = bot
         /\ printOffsets s'
            = Some (Normal tt, mkSt (world s') bot (trace s' ++ constructed))).
Proof.
  intros Hnew constructed.
  assert (Hprinted : printed_offsets bot = constructed).
  { unfold new_RefundBot in Hnew.
    destruct (Nat.eqb (List.length deputies) 0); [discriminate|].
    inversion Hnew; subst. reflexivity. }
  split; intros r s' H.
  - apply (keeps_cron _ _ (keeps_Index_cycle sdk bnbChainAddress fuel)) in H.
    cbn [this] in H. split; [exact H|].
    rewrite printOffsets_prints, H, Hprinted. reflexivity.
  - apply (keeps_cron _ _ (keeps_Legacy_cycle sdk bnbChainAddress fuel)) in H.
    cbn [this] in H. split; [exact H|].
    rewrite printOffsets_prints, H, Hprinted. reflexivity.
Qed.

Lemma stored_offsets_never_change_witness :
  (exists r s',
      cron 2 (Index.refundSwaps scripted "bnb1bot" 3) two_deputies
      = Some (r, s')
      /\ this s' = this two_deputies
      /\ printOffsets s'
         = Some (Normal tt,
                 mkSt (world s') (this two_deputies)
                   (trace s' ++ [EvLog LogOffsetsHeader;
                                 EvLog (LogOffsetIncoming 0);
                                 EvLog (LogOffsetOutgoing 0)])))
  /\ (exists r s',
         cron 2 (Legacy.refundSwaps scripted "bnb1bot" 3) two_deputies
         = Some (r, s')
         /\ this s' = this two_deputies
         /\ printOffsets s'
            = Some (Normal tt,
                    mkSt (world s') (this two_deputies)
                      (trace s' ++ [EvLog LogOffsetsHeader;
                                    EvLog (LogOffsetIncoming 0);
                                    EvLog (LogOffsetOutgoing 0)]))).
Proof.
  pose proof (stored_offsets_never_change scripted "bnb1bot"
                ["bnb1d1"; "bnb1d2"] (Some 2) None None (this two_deputies)
                (world two_deputies) [] 2 3 eq_refl)
    as (HI & HL).
  split; eexists _, _; (split; [vm_compute; reflexivity|]).
  - eapply HI. vm_compute. reflexivity.
  - eapply HL. vm_compute. reflexivity.
Defined.

(** ** Failures during a cycle *)

(** C3, on the older copy.  The Kava endpoint is down: the scan prints its
    line and returns [undefined], [refundKavaSwaps] raises a [TypeError] on
    [swapIDs.length], nothing in [refundSwaps] catches it, and the cycle
    ends there: Binance Chain is never queried although the deputy has a
    swap to refund. *)
Theorem kava_failure_ends_the_legacy_cycle :
  option_map (fun p => (fst p, trace (snd p)))
    (Legacy.refundSwaps scripted "bnb1bot" 3 kava_down)
  = Some (Throw (TypeError "swapIDs is undefined"),
          [EvGetSwaps (ByPage "Expired" 1 100) 5000
             (Throw (Error "ETIMEDOUT"));
           EvLog LogCouldntQueryKava]).
Proof. vm_compute. reflexivity. Qed.

(** On the same chains the entry point goes on to Binance Chain and refunds
    the deputy's swap. *)
Lemma kava_failure_spares_the_index_cycle :
  option_map (fun p => (fst p, bnb_attempts (trace (snd p))))
    (Index.refundSwaps scripted "bnb1bot" 3 kava_down)
  = Some (Normal tt, [Some "s1"]).
Proof. vm_compute. reflexivity. Qed.

(** The node-info request of the entry point is outside every [try]: when
    it raises, the exception leaves [refundSwaps] and no listing query and
    no refund follow. *)
Lemma node_info_failure_leaves_the_index_cycle :
  option_map (fun p => (fst p, bnb_queries (trace (snd p)),
                        bnb_attempts (trace (snd p))))
    (Index.refundSwaps scripted "bnb1bot" 3 node_info_down)
  = Some (Throw (Error "ETIMEDOUT"), [], []).
Proof. vm_compute. reflexivity. Qed.

(** ** A query that raises *)

(** C4.  The first page of the deputy holds two refundable swaps and the
    request for the second page raises.  In the entry point the scan prints
    its line, but the [return] of the [catch] only leaves the callback of
    [asyncForEach]: the scan returns the two swaps found so far, and both
    are submitted.  In the older copy the [return] leaves the scan with
    [undefined], not with an empty list: [concat] on it raises a
    [TypeError] after the other direction was scanned. *)
Theorem query_error_keeps_what_was_found :
  option_map (fun p => (fst p, query_log (trace (snd p)),
                        log_lines (trace (snd p))))
    (Index.getRefundableBinanceSwaps scripted true 3 page_then_error)
  = Some (Normal ["a"; "b"],
          [("bnb1deputy", 0, 2%nat); ("bnb1deputy", 2, 0%nat)],
          [LogCouldntQueryBnb true])
  /\ option_map (fun p => bnb_attempts (trace (snd p)))
       (Index.refundBinanceChainSwaps scripted "bnb1bot" 3 page_then_error)
     = Some [Some "a"; Some "b"]
  /\ option_map (fun p => (fst p, query_log (trace (snd p)),
                           log_lines (trace (snd p))))
       (Legacy.getRefundableBinanceSwaps scripted true 3 page_then_error)
     = Some (Normal None,
             [("bnb1deputy", 0, 2%nat); ("bnb1deputy", 2, 0%nat)],
             [LogCouldntQueryBnb true])
  /\ option_map (fun p => (fst p, bnb_attempts (trace (snd p))))
       (Legacy.refundBinanceChainSwaps scripted "bnb1bot" 3 page_then_error)
     = Some (Throw (TypeError "incomingSwaps is undefined"), []).
Proof. repeat split; vm_compute; reflexivity. Qed.

(** After a request for one deputy raised, the entry point goes on with the
    next deputy in the same scan. *)
Lemma query_error_moves_to_next_deputy :
  option_map (fun p => (fst p, query_log (trace (snd p))))
    (Index.getRefundableBinanceSwaps scripted true 3 first_deputy_down)
  = Some (Normal ["c"],
          [("bnb1d1", 0, 0%nat); ("bnb1d2", 0, 1%nat); ("bnb1d2", 100, 0%nat)]).
Proof. vm_compute. reflexivity. Qed.

(** The Kava scan of the entry point does return the empty list when a
    later page raises, and nothing is submitted. *)
Lemma kava_query_error_returns_nothing :
  option_map fst (Index.getRefundableKavaSwaps scripted 3 kava_page_then_error)
  = Some (Normal [])
  /\ option_map (fun p => kava_attempts (trace (snd p)))
       (Index.refundKavaSwaps scripted 3 kava_page_then_error)
     = Some [].
Proof. split; vm_compute; reflexivity. Qed.

(** The older copy returns [undefined] from the scan that raised; when that
    is the scan of the swaps the deputy receives, [concat] appends it as an
    item and a refund of [undefined] is submitted. *)
Lemma legacy_query_error_returns_undefined :
  option_map fst
    (Legacy.getRefundableBinanceSwaps scripted false 3 outgoing_down)
  = Some (Normal None)
  /\ option_map (fun p => bnb_attempts (trace (snd p)))
       (Legacy.refundBinanceChainSwaps scripted "bnb1bot" 3 outgoing_down)
     = Some [Some "s1"; None].
Proof. split; vm_compute; reflexivity. Qed.

(** ** Termination of the scans *)

(** *** The loops of a scan, one after the other *)

Section LoopsInSequence.
Context {W A L B : Type}.

Lemma asyncForEach_more_fuel (bodies : A -> L -> M W (step L L)) ds :
  forall fuel v s x,
    asyncForEach ds (fun d v => while fuel (bodies d) v) v s = Some x ->
    forall fuel', (fuel <= fuel')%nat ->
    asyncForEach ds (fun d v => while fuel' (bodies d) v) v s = Some x.
Proof.
  induction ds as [|d ds IH]; intros fuel v s x H fuel' Hle; [exact H|].
  cbn [asyncForEach] in *. unfold bind in *.
  destruct (while fuel (bodies d) v s) as [[[v1|e] s1]|] eqn:Hw;
    try discriminate;
    rewrite (while_more_fuel _ _ _ _ _ Hw fuel' Hle); eauto.
Qed.

Lemma for_of_more_fuel (bodies : A -> L -> M W (step L (flow L B))) ds :
  forall fuel v s x,
    for_of ds (fun d v => while fuel (bodies d) v) v s = Some x ->
    forall fuel', (fuel <= fuel')%nat ->
    for_of ds (fun d v => while fuel' (bodies d) v) v s = Some x.
Proof.
  induction ds as [|d ds IH]; intros fuel v s x H fuel' Hle; [exact H|].
  cbn [for_of] in *. unfold bind in *.
  destruct (while fuel (bodies d) v s) as [[[[v1|b]|e] s1]|] eqn:Hw;
    try discriminate;
    rewrite (while_more_fuel _ _ _ _ _ Hw fuel' Hle); eauto.
Qed.
End LoopsInSequence.

Section ScanTermination.
Context {W : Type} (sdk : Sdk W).
Variable incoming : bool.

Lemma Index_loops_stop latest fuel ds :
  forall v s,
    asyncForEach ds
      (fun d v => while fuel (Index.bnb_scan_body sdk incoming latest d) v)
      v s <> None ->
    index_scan_stops sdk incoming latest ds v s.
Proof.
  induction ds as [|d ds IH]; intros v s H; [constructor|].
  cbn [asyncForEach] in H. unfold bind in H.
  destruct (while fuel (Index.bnb_scan_body sdk incoming latest d) v s)
    as [[r1 s1]|] eqn:Hw; [|now elim H].
  apply index_stops_cons.
  - apply (while_stops_iff _ _ (Index_bnb_page sdk incoming latest d)
             (Index_bnb_stop sdk incoming latest d)).
    exists fuel. rewrite Hw. discriminate.
  - intros fuel' v' s' H'. unfold index_bnb_loop in H'.
    pose proof (while_deterministic _ _ _ _ _ _ _ Hw H') as Heq.
    inversion Heq; subst. apply IH. exact H.
Qed.

Lemma Index_loops_complete latest ds v s :
  index_scan_stops sdk incoming latest ds v s ->
  exists fuel x,
    asyncForEach ds
      (fun d v => while fuel (Index.bnb_scan_body sdk incoming latest d) v)
      v s = Some x.
Proof.
  induction 1 as [v s|d ds v s Hstop _ IH].
  - exists 0%nat, (Normal v, s). reflexivity.
  - apply (while_stops_iff _ _ (Index_bnb_page sdk incoming latest d)
             (Index_bnb_stop sdk incoming latest d)) in Hstop.
    destruct Hstop as [fuel1 Hfuel1].
    destruct (while fuel1 (Index.bnb_scan_body sdk incoming latest d) v s)
      as [[[v1|e] s1]|] eqn:Hw; [| |now elim Hfuel1].
    + destruct (IH fuel1 v1 s1 Hw) as (fuel2 & x & Hrest).
      exists (Nat.max fuel1 fuel2), x. cbn [asyncForEach]. unfold bind.
      rewrite (while_more_fuel _ _ _ _ _ Hw (Nat.max fuel1 fuel2)) by lia.
      apply (asyncForEach_more_fuel _ _ _ _ _ _ Hrest). lia.
    + exists fuel1, (Throw e, s1). cbn [asyncForEach]. unfold bind.
      now rewrite Hw.
Qed.

(** The scan of the entry point completes exactly when, unless its
    node-info request raised, the loops of all its deputies stop. *)
Lemma Index_scan_terminates s :
  terminates (Index.getRefundableBinanceSwaps sdk incoming) s
  <-> (forall latest w,
          sdk_nodeInfo sdk (world s) = (Normal latest, w) ->
          index_scan_stops sdk incoming latest (deputyAddresses (this s))
            (scan_start (this s)) (after_node_info s latest w)).
Proof.
  unfold terminates, Index.getRefundableBinanceSwaps, scan_start,
    after_node_info.
  split.
  - intros [fuel H] latest w Hnode.
    apply (Index_loops_stop latest fuel). intros Hnone. apply H.
    run. rewrite Hnode. run. now rewrite Hnone.
  - intros H.
    destruct (sdk_nodeInfo sdk (world s)) as [[latest|e] w] eqn:Hnode.
    + destruct (Index_loops_complete _ _ _ _ (H latest w eq_refl))
        as (fuel & x & Hx).
      exists fuel. run. rewrite Hnode. run. rewrite Hx.
      destruct x as [[v|e] s1]; discriminate.
    + exists 0%nat. run. rewrite Hnode. discriminate.
Qed.

Lemma Legacy_loops_stop fuel ds :
  forall v s,
    for_of ds
      (fun d v => while fuel (Legacy.bnb_scan_body sdk incoming d) v) v s
    <> None ->
    legacy_scan_stops sdk incoming ds v s.
Proof.
  induction ds as [|d ds IH]; intros v s H; [constructor|].
  cbn [for_of] in H. unfold bind in H.
  destruct (while fuel (Legacy.bnb_scan_body sdk incoming d) v s)
    as [[r1 s1]|] eqn:Hw; [|now elim H].
  apply legacy_stops_cons.
  - apply (while_stops_iff _ _ (Legacy_bnb_page sdk incoming d)
             (Legacy_bnb_stop sdk incoming d)).
    exists fuel. rewrite Hw. discriminate.
  - intros fuel' v' s' H'. unfold legacy_bnb_loop in H'.
    pose proof (while_deterministic _ _ _ _ _ _ _ Hw H') as Heq.
    inversion Heq; subst. apply IH. exact H.
Qed.

Lemma Legacy_loops_complete ds v s :
  legacy_scan_stops sdk incoming ds v s ->
  exists fuel x,
    for_of ds
      (fun d v => while fuel (Legacy.bnb_scan_body sdk incoming d) v) v s
    = Some x.
Proof.
  induction 1 as [v s|d ds v s Hstop _ IH].
  - exists 0%nat, (Normal (Fallthrough v), s). reflexivity.
  - apply (while_stops_iff _ _ (Legacy_bnb_page sdk incoming d)
             (Legacy_bnb_stop sdk incoming d)) in Hstop.
    destruct Hstop as [fuel1 Hfuel1].
    destruct (while fuel1 (Legacy.bnb_scan_body sdk incoming d) v s)
      as [[[[v1|b]|e] s1]|] eqn:Hw; [| | |now elim Hfuel1].
    + destruct (IH fuel1 v1 s1 Hw) as (fuel2 & x & Hrest).
      exists (Nat.max fuel1 fuel2), x. cbn [for_of]. unfold bind.
      rewrite (while_more_fuel _ _ _ _ _ Hw (Nat.max fuel1 fuel2)) by lia.
      apply (for_of_more_fuel _ _ _ _ _ _ Hrest). lia.
    + eexists fuel1, _. cbn [for_of]. unfold bind. rewrite Hw. reflexivity.
    + eexists fuel1, _. cbn [for_of]. unfold bind. rewrite Hw. reflexivity.
Qed.

Lemma Legacy_scan_terminates s :
  terminates (Legacy.getRefundableBinanceSwaps sdk incoming) s
  <-> legacy_scan_stops sdk incoming (deputyAddresses (this s))
        (scan_start (this s)) s.
Proof.
  unfold terminates, Legacy.getRefundableBinanceSwaps, scan_start.
  split.
  - intros [fuel H]. apply (Legacy_loops_stop fuel). intros Hnone. apply H.
    run. now rewrite Hnone.
  - intros H. destruct (Legacy_loops_complete _ _ _ H) as (fuel & x & Hx).
    exists fuel. run. rewrite Hx.
    destruct x as [[[v|b]|e] s1]; discriminate.
Qed.
End ScanTermination.

Ltac drain :=
  repeat (first
    [ apply drains_now; vm_compute; reflexivity
    | eapply (drains_later _ _ _ _ _ _ _ _);
      [vm_compute; reflexivity | vm_compute; reflexivity | ] ]).

Ltac fail_after :=
  repeat (first
    [ apply fails_now; vm_compute; reflexivity
    | eapply (fails_later _ _ _ _ _ _ _ _);
      [vm_compute; reflexivity | vm_compute; reflexivity | ] ]).

Ltac stop :=
  repeat (first
    [ apply stops_now; intros ?; vm_compute; discriminate
    | eapply stops_later;
      [vm_compute; reflexivity | vm_compute; reflexivity | ] ]).

(** C10, as stated, fails, in both copies: Kava answers with one page of one
    swap and then with an error, so the non-empty pages are finitely many
    and the scan completes; the page it fetched holds [swapA], whose ID is
    calculated without error, yet the scan of the entry point returns the
    empty list and that of the older copy [undefined]. *)
Lemma error_after_a_page_returns_no_item :
  client_fails (Index.kava_scan_body scripted) (index_kava_verdict scripted)
    ([], 0) kava_page_then_error [swapA]
  /\ calculate_swapIDs scripted [swapA] [] = Normal ["hashA/kava1a/bnb1a"]
  /\ option_map (fun p => (fst p, kava_items (trace (snd p))))
       (Index.getRefundableKavaSwaps scripted 3 kava_page_then_error)
     = Some (Normal [], [swapA])
  /\ option_map (fun p => (fst p, kava_items (trace (snd p))))
       (Legacy.getRefundableKavaSwaps scripted 3 kava_page_then_error)
     = Some (Normal None, [swapA]).
Proof.
  split.
  { change [swapA] with ([swapA] ++ []). fail_after. }
  repeat split; vm_compute; reflexivity.
Qed.

(** C10, amended.  Each of the four page-until-empty loops (the Kava scan
    and the loop over one deputy and direction of Binance Chain, in both
    copies) completes with some fuel exactly when the chain eventually
    answers one of its requests with an empty batch or an error; a scan
    of Binance Chain completes exactly when the loops of its deputies, one
    after the other, do (and, in the entry point, also when its node-info
    request raises).

    When the chain answers with finitely many pages of items and then with
    an empty batch, the loop completes and has collected the items of all
    the pages that pass its filter: a Binance Chain loop has appended them
    to [openSwaps], and a Kava scan returns the swap IDs calculated for all
    the items, unless [calculateSwapID] raises on one, which the scan then
    raises.  A scan of Binance Chain that returns a list returns the IDs of
    the matching items of all the pages it was given.

    When the pages are followed by an error, the loop completes as well.
    The Kava scan of the entry point then returns the empty list, and a
    Binance Chain loop of the entry point keeps the matching items of the
    pages before the error.  The loops of the older copy end their scan
    with [undefined], or with the [TypeError] of an absent batch. *)
Theorem page_until_empty_loops {W : Type} (sdk : Sdk W) :
  (forall s,
      terminates (Index.getRefundableKavaSwaps sdk) s
      <-> client_stops (Index.kava_scan_body sdk) (index_kava_verdict sdk)
            ([], 0) s)
  /\ (forall s items,
         client_drains (Index.kava_scan_body sdk) (index_kava_verdict sdk)
           ([], 0) s items ->
         exists fuel r s',
           Index.getRefundableKavaSwaps sdk fuel s = Some (r, s')
           /\ swapIDs_outcome sdk items r)
  /\ (forall s items,
         client_fails (Index.kava_scan_body sdk) (index_kava_verdict sdk)
           ([], 0) s items ->
         exists fuel s',
           Index.getRefundableKavaSwaps sdk fuel s = Some (Normal [], s'))
  /\ (forall incoming latest deputy v s,
         terminates (index_bnb_loop sdk incoming latest deputy v) s
         <-> client_stops (Index.bnb_scan_body sdk incoming latest deputy)
               (index_bnb_verdict sdk incoming deputy) v s)
  /\ (forall incoming latest deputy v s items,
         client_drains (Index.bnb_scan_body sdk incoming latest deputy)
           (index_bnb_verdict sdk incoming deputy) v s items ->
         exists fuel v' s',
           index_bnb_loop sdk incoming latest deputy v fuel s
           = Some (Normal v', s')
           /\ openSwaps v'
              = openSwaps v ++ filter (open_and_expired latest) items)
  /\ (forall incoming latest deputy v s items,
         client_fails (Index.bnb_scan_body sdk incoming latest deputy)
           (index_bnb_verdict sdk incoming deputy) v s items ->
         exists fuel v' s',
           index_bnb_loop sdk incoming latest deputy v fuel s
           = Some (Normal v', s')
           /\ openSwaps v'
              = openSwaps v ++ filter (open_and_expired latest) items)
  /\ (forall incoming s,
         terminates (Index.getRefundableBinanceSwaps sdk incoming) s
         <-> (forall latest w,
                 sdk_nodeInfo sdk (world s) = (Normal latest, w) ->
                 index_scan_stops sdk incoming latest
                   (deputyAddresses (this s)) (scan_start (this s))
                   (after_node_info s latest w)))
  /\ (forall incoming fuel s ids s',
         Index.getRefundableBinanceSwaps sdk incoming fuel s
         = Some (Normal ids, s') ->
         exists latest evs,
           trace s' = trace s ++ EvNodeInfo (Normal latest) :: evs
           /\ ids = map swapId
                      (filter (open_and_expired latest)
                         (pages_of (bnb_queries evs))))
  /\ (forall s,
         terminates (Legacy.getRefundableKavaSwaps sdk) s
         <-> client_stops (Legacy.kava_scan_body sdk)
               (legacy_kava_verdict sdk) ([], 1) s)
  /\ (forall s items,
         client_drains (Legacy.kava_scan_body sdk) (legacy_kava_verdict sdk)
           ([], 1) s items ->
         exists fuel r s',
           Legacy.getRefundableKavaSwaps sdk fuel s = Some (r, s')
           /\ legacy_swapIDs_outcome sdk items r)
  /\ (forall s items,
         client_fails (Legacy.kava_scan_body sdk) (legacy_kava_verdict sdk)
           ([], 1) s items ->
         exists fuel r s',
           Legacy.getRefundableKavaSwaps sdk fuel s = Some (r, s')
           /\ (r = Normal None
               \/ r = Throw (TypeError "swapBatch is undefined")))
  /\ (forall incoming deputy v s,
         terminates (legacy_bnb_loop sdk incoming deputy v) s
         <-> client_stops (Legacy.bnb_scan_body sdk incoming deputy)
               (legacy_bnb_verdict sdk incoming deputy) v s)
  /\ (forall incoming deputy v s items,
         client_drains (Legacy.bnb_scan_body sdk incoming deputy)
           (legacy_bnb_verdict sdk incoming deputy) v s items ->
         exists fuel v' s',
           legacy_bnb_loop sdk incoming deputy v fuel s
           = Some (Normal (Fallthrough v'), s')
           /\ openSwaps v' = openSwaps v ++ filter open_swap items)
  /\ (forall incoming deputy v s items,
         client_fails (Legacy.bnb_scan_body sdk incoming deputy)
           (legacy_bnb_verdict sdk incoming deputy) v s items ->
         exists fuel r s',
           legacy_bnb_loop sdk incoming deputy v fuel s = Some (r, s')
           /\ returns_undefined r)
  /\ (forall incoming s,
         terminates (Legacy.getRefundableBinanceSwaps sdk incoming) s
         <-> legacy_scan_stops sdk incoming (deputyAddresses (this s))
               (scan_start (this s)) s)
  /\ (forall incoming fuel s ids s',
         Legacy.getRefundableBinanceSwaps sdk incoming fuel s
         = Some (Normal (Some ids), s') ->
         exists evs,
           trace s' = trace s ++ evs
           /\ ids = map swapId
                      (filter open_swap (pages_of (bnb_queries evs)))).
Proof.
  repeat match goal with |- _ /\ _ => split end.
  - intros s. rewrite Index_kava_scan_terminates.
    apply while_stops_iff;
      [apply Index_kava_page | apply Index_kava_stop].
  - intros s items H.
    destruct (Index_kava_scan_drains sdk s items H) as (fuel & s' & Hrun).
    eexists fuel, _, s'. split; [exact Hrun|].
    apply calculate_swapIDs_outcome.
  - intros s items H.
    destruct (while_fails _ _ fst (fun items => items)
                (fun a b => eq_refl) eq_refl (Index_kava_collects sdk)
                (fun _ => returns_nothing) (Index_kava_fails sdk) _ _ _ H)
      as (fuel & l' & r & s' & Hrun & _ & ->).
    exists fuel, s'. unfold Index.getRefundableKavaSwaps, bind.
    now rewrite Hrun.
  - intros incoming latest deputy v s.
    apply while_stops_iff;
      [apply Index_bnb_page | apply Index_bnb_stop].
  - intros incoming latest deputy v s items H.
    destruct (while_drains _ _ openSwaps (filter (open_and_expired latest))
                (fun r => Some (openSwaps r))
                (fun a b => filter_app _ a b) eq_refl
                (Index_bnb_collects sdk incoming latest deputy)
                (Index_bnb_nothing sdk incoming latest deputy) _ _ _ H)
      as (fuel & r & s' & Hrun & Hr).
    exists fuel, r, s'. split; [exact Hrun | congruence].
  - intros incoming latest deputy v s items H.
    destruct (while_fails _ _ openSwaps (filter (open_and_expired latest))
                (fun a b => filter_app _ a b) eq_refl
                (Index_bnb_collects sdk incoming latest deputy)
                (fun v r => r = Normal v)
                (Index_bnb_fails sdk incoming latest deputy) _ _ _ H)
      as (fuel & v' & r & s' & Hrun & Hacc & ->).
    exists fuel, v', s'. split; [exact Hrun | exact Hacc].
  - intros incoming s. apply Index_scan_terminates.
  - intros incoming fuel s ids s' H. apply Index_scan_run in H.
    destruct H as [_ [(e & He & _)|(latest & evs & v' & Hr & Htr & Hrun)]];
      [discriminate|].
    exists latest, evs. split; [exact Htr|].
    inversion Hr; subst.
    now rewrite (index_run_pages _ _ _ _ _ _ _ _ _ Hrun).
  - intros s. rewrite Legacy_kava_scan_terminates.
    apply while_stops_iff;
      [apply Legacy_kava_page | apply Legacy_kava_stop].
  - intros s items H.
    destruct (Legacy_kava_scan_drains sdk s items H) as (fuel & s' & Hrun).
    eexists fuel, _, s'. split; [exact Hrun|].
    pose proof (calculate_swapIDs_outcome sdk items) as Hids.
    unfold legacy_swapIDs_outcome.
    destruct (calculate_swapIDs sdk items []); exact Hids.
  - intros s items H.
    destruct (while_fails _ _ fst (fun items => items)
                (fun a b => eq_refl) eq_refl (Legacy_kava_collects sdk)
                (fun _ => returns_undefined) (Legacy_kava_fails sdk) _ _ _ H)
      as (fuel & l' & r & s' & Hrun & _ & Hr).
    unfold Legacy.getRefundableKavaSwaps, bind.
    destruct Hr as [-> | ->]; eexists fuel, _, s'; rewrite Hrun;
      (split; [reflexivity | auto]).
  - intros incoming deputy v s.
    apply while_stops_iff;
      [apply Legacy_bnb_page | apply Legacy_bnb_stop].
  - intros incoming deputy v s items H.
    destruct (while_drains _ _ openSwaps (filter open_swap)
                (fun r => match r with
                          | Fallthrough v' => Some (openSwaps v')
                          | Return _ => None
                          end)
                (fun a b => filter_app _ a b) eq_refl
                (Legacy_bnb_collects sdk incoming deputy)
                (Legacy_bnb_nothing sdk incoming deputy) _ _ _ H)
      as (fuel & r & s' & Hrun & Hr).
    destruct r as [v'|x]; [|discriminate].
    exists fuel, v', s'. split; [exact Hrun | congruence].
  - intros incoming deputy v s items H.
    destruct (while_fails _ _ openSwaps (filter open_swap)
                (fun a b => filter_app _ a b) eq_refl
                (Legacy_bnb_collects sdk incoming deputy)
                (fun _ => returns_undefined)
                (Legacy_bnb_fails sdk incoming deputy) _ _ _ H)
      as (fuel & v' & r & s' & Hrun & _ & Hr).
    exists fuel, r, s'. auto.
  - intros incoming s. apply Legacy_scan_terminates.
  - intros incoming fuel s ids s' H. apply Legacy_scan_run in H.
    destruct H as [_ (evs & out & Hr & Htr & Hrun)].
    exists evs. split; [exact Htr|].
    destruct out as [[v'|x]|e]; cbn [legacy_scan_result] in Hr;
      inversion Hr; subst.
    + now rewrite (legacy_run_pages _ _ _ _ _ _ Hrun v' eq_refl).
    + discriminate (legacy_run_returns_undefined _ _ _ _ _ _ Hrun _ eq_refl).
Qed.

(** The loops on explicit chains: Kava lists two swaps and then nothing, or
    one swap and then raises; the deputy created one swap and then
    nothing, or a full page after which the request raises. *)
Lemma page_until_empty_loops_witness :
  (terminates (Index.getRefundableKavaSwaps scripted) two_expired
   /\ (exists fuel r s',
          Index.getRefundableKavaSwaps scripted fuel two_expired
          = Some (r, s')
          /\ swapIDs_outcome scripted [swapA; swapB] r)
   /\ exists fuel s',
       Index.getRefundableKavaSwaps scripted fuel kava_page_then_error
       = Some (Normal [], s'))
  /\ (terminates
        (index_bnb_loop scripted true 50 "bnb1deputy" (mkScanVars [] 0 0))
        short_page
      /\ (exists fuel v' s',
             index_bnb_loop scripted true 50 "bnb1deputy" (mkScanVars [] 0 0)
               fuel short_page
             = Some (Normal v', s')
             /\ openSwaps v' = [open_expired "s1"])
      /\ (exists fuel v' s',
             index_bnb_loop scripted true 50 "bnb1deputy" (mkScanVars [] 0 0)
               fuel page_then_error
             = Some (Normal v', s')
             /\ openSwaps v' = [open_expired "a"; open_expired "b"])
      /\ terminates (Index.getRefundableBinanceSwaps scripted true)
           short_page)
  /\ (terminates (Legacy.getRefundableKavaSwaps scripted) two_expired
      /\ (exists fuel r s',
             Legacy.getRefundableKavaSwaps scripted fuel two_expired
             = Some (r, s')
             /\ legacy_swapIDs_outcome scripted [swapA; swapB] r)
      /\ exists fuel r s',
          Legacy.getRefundableKavaSwaps scripted fuel kava_page_then_error
          = Some (r, s')
          /\ (r = Normal None
              \/ r = Throw (TypeError "swapBatch is undefined")))
  /\ (terminates
        (legacy_bnb_loop scripted true "bnb1deputy" (mkScanVars [] 0 0))
        short_page
      /\ (exists fuel v' s',
             legacy_bnb_loop scripted true "bnb1deputy" (mkScanVars [] 0 0)
               fuel short_page
             = Some (Normal (Fallthrough v'), s')
             /\ openSwaps v' = [open_expired "s1"])
      /\ (exists fuel r s',
             legacy_bnb_loop scripted true "bnb1deputy" (mkScanVars [] 0 0)
               fuel page_then_error
             = Some (r, s')
             /\ returns_undefined r)
      /\ terminates (Legacy.getRefundableBinanceSwaps scripted true)
           short_page).
Proof.
  destruct (page_until_empty_loops scripted)
    as (HIk & HIkd & HIkf & HIb & HIbd & HIbf & HIs & _
        & HLk & HLkd & HLkf & HLb & HLbd & HLbf & HLs & _).
  repeat match goal with |- _ /\ _ => split end.
  - apply HIk. stop.
  - apply (HIkd two_expired ([swapA; swapB] ++ [])). drain.
  - apply (HIkf kava_page_then_error ([swapA] ++ [])). fail_after.
  - apply HIb. stop.
  - apply (HIbd true 50 "bnb1deputy" (mkScanVars [] 0 0) short_page
             ([open_expired "s1"] ++ [])).
    drain.
  - apply (HIbf true 50 "bnb1deputy" (mkScanVars [] 0 0) page_then_error
             ([open_expired "a"; open_expired "b"] ++ [])).
    fail_after.
  - apply HIs. intros latest w Hnode. vm_compute in Hnode.
    inversion Hnode; subst; clear Hnode.
    apply index_stops_cons; [stop | intros; apply index_stops_nil].
  - apply HLk. stop.
  - apply (HLkd two_expired ([swapA; swapB] ++ [])). drain.
  - apply (HLkf kava_page_then_error ([swapA] ++ [])). fail_after.
  - apply HLb. stop.
  - apply (HLbd true "bnb1deputy" (mkScanVars [] 0 0) short_page
             ([open_expired "s1"] ++ [])).
    drain.
  - apply (HLbf true "bnb1deputy" (mkScanVars [] 0 0) page_then_error
             ([open_expired "a"; open_expired "b"] ++ [])).
    fail_after.
  - apply HLs. apply legacy_stops_cons; [stop | intros; apply legacy_stops_nil].
Defined.

(** * More of the bot *)

(** ** What a computation may leave in the trace *)

Section Emits.
Context {W : Type}.
Variable P : Event -> Prop.

Lemma emits_ret {A} (a : A) : emits (W := W) P (ret a).
Proof.
  intros s r s' H. inversion H; subst. exists []. now rewrite app_nil_r.
Qed.

Lemma emits_throw {A} e : emits (W := W) (A := A) P (throw e).
Proof.
  intros s r s' H. inversion H; subst. exists []. now rewrite app_nil_r.
Qed.

Lemma emits_lift {A} (x : result A) : emits (W := W) P (lift x).
Proof.
  intros s r s' H. inversion H; subst. exists []. now rewrite app_nil_r.
Qed.

Lemma emits_get_this : emits (W := W) P get_this.
Proof.
  intros s r s' H. inversion H; subst. exists []. now rewrite app_nil_r.
Qed.

Lemma emits_emit e : P e -> emits (W := W) P (emit e).
Proof.
  intros He s r s' H. inversion H; subst. exists [e]. auto.
Qed.

Lemma emits_call {A} (f : W -> result A * W) ev :
  (forall r, P (ev r)) -> emits P (call f ev).
Proof.
  intros Hev s r s' H. unfold call in H.
  destruct (f (world s)) as [r0 w]. inversion H; subst.
  exists [ev r]. auto.
Qed.

Lemma emits_bind {A B} (m : M W A) (k : A -> M W B) :
  emits P m -> (forall a, emits P (k a)) -> emits P (bind m k).
Proof.
  intros Hm Hk s r s' H. unfold bind in H.
  destruct (m s) as [[[a|e] s1]|] eqn:E; try discriminate.
  - destruct (Hm _ _ _ E) as (evs1 & Htr1 & HP1).
    destruct (Hk a _ _ _ H) as (evs2 & Htr2 & HP2).
    exists (evs1 ++ evs2). split.
    + now rewrite Htr2, Htr1, app_assoc.
    + apply Forall_app; auto.
  - inversion H; subst. exact (Hm _ _ _ E).
Qed.

Lemma emits_try {A} (m : M W A) : emits P m -> emits P (try m).
Proof.
  intros Hm s r s' H. unfold try in H.
  destruct (m s) as [[x s1]|] eqn:E; try discriminate.
  inversion H; subst. exact (Hm _ _ _ E).
Qed.

Lemma emits_while {L R} (body : L -> M W (step L R)) fuel :
  (forall l, emits P (body l)) -> forall l, emits P (while fuel body l).
Proof.
  intros Hbody. induction fuel as [|fuel IH]; intros l;
    [intros s r s' H; discriminate|].
  cbn [while]. apply emits_bind; [apply Hbody|].
  intros [l'|x]; [apply IH | apply emits_ret].
Qed.

Lemma emits_asyncForEach {A L} (cb : A -> L -> M W L) array :
  (forall x l, emits P (cb x l)) ->
  forall l, emits P (asyncForEach array cb l).
Proof.
  intros Hcb. induction array as [|x rest IH]; intros l; cbn [asyncForEach].
  - apply emits_ret.
  - apply emits_bind; [apply Hcb | exact IH].
Qed.

Lemma emits_for_of {A L B} (body : A -> L -> M W (flow L B)) array :
  (forall x l, emits P (body x l)) ->
  forall l, emits P (for_of array body l).
Proof.
  intros Hb. induction array as [|x rest IH]; intros l; cbn [for_of].
  - apply emits_ret.
  - apply emits_bind; [apply Hb|].
    intros [l'|b]; [apply IH | apply emits_ret].
Qed.
End Emits.

Lemma emits_weaken {W A} (P Q : Event -> Prop) (m : M W A) :
  (forall e, P e -> Q e) -> emits P m -> emits Q m.
Proof.
  intros HPQ Hm s r s' H. destruct (Hm _ _ _ H) as (evs & Htr & HP).
  exists evs. split; [exact Htr|]. eapply Forall_impl; eauto.
Qed.

(** Takes a computation of the bot apart down to its calls and prints. *)
Ltac emits_steps :=
  repeat first
    [ apply emits_ret
    | apply emits_throw
    | apply emits_lift
    | apply emits_get_this
    | apply emits_try
    | apply emits_call; intros ?; exact I
    | apply emits_call; intros ?; reflexivity
    | apply emits_emit; exact I
    | apply emits_bind; [|intros ?]
    | apply emits_while; intros ?
    | apply emits_asyncForEach; intros ? ?
    | apply emits_for_of; intros ? ?
    | match goal with
      | |- emits _ (match ?x with _ => _ end) => destruct x
      | |- emits _ (let '(_, _) := ?x in _) => destruct x
      end ].

Section EmitsOfTheBot.
Context {W : Type} (sdk : Sdk W).
Variable bnbChainAddress : string.

Lemma emits_Index_kava_scan fuel :
  emits kava_scan_event (Index.getRefundableKavaSwaps sdk fuel).
Proof.
  unfold Index.getRefundableKavaSwaps, Index.kava_scan_body, log, sleep.
  emits_steps.
Qed.

Lemma emits_Legacy_kava_scan fuel :
  emits kava_scan_event (Legacy.getRefundableKavaSwaps sdk fuel).
Proof.
  unfold Legacy.getRefundableKavaSwaps, Legacy.kava_scan_body, log, sleep.
  emits_steps.
Qed.

Lemma emits_Index_kava_submit ids :
  emits kava_submit_event (Index.refundKavaSwaps_submit sdk ids).
Proof.
  unfold Index.refundKavaSwaps_submit, Index.kava_refund_callback, log, sleep.
  emits_steps.
Qed.

Lemma emits_Legacy_kava_submit ids :
  emits kava_submit_event (Legacy.refundKavaSwaps_submit sdk ids).
Proof.
  unfold Legacy.refundKavaSwaps_submit, Legacy.kava_refund_body, log, sleep.
  emits_steps.
Qed.

Lemma emits_Index_bnb_scan incoming fuel :
  emits (bnb_scan_event incoming)
    (Index.getRefundableBinanceSwaps sdk incoming fuel).
Proof.
  unfold Index.getRefundableBinanceSwaps, Index.bnb_scan_body, bnb_query,
    log, sleep.
  emits_steps.
Qed.

Lemma emits_Legacy_bnb_scan incoming fuel :
  emits (bnb_scan_event incoming)
    (Legacy.getRefundableBinanceSwaps sdk incoming fuel).
Proof.
  unfold Legacy.getRefundableBinanceSwaps, Legacy.bnb_scan_body, bnb_query,
    log, sleep.
  emits_steps.
Qed.

Lemma emits_Index_bnb_submit ids :
  emits bnb_submit_event
    (Index.refundBinanceChainSwaps_submit sdk bnbChainAddress ids).
Proof.
  unfold Index.refundBinanceChainSwaps_submit, Index.bnb_refund_callback,
    log, sleep.
  emits_steps.
Qed.

Lemma emits_Legacy_bnb_submit inc out :
  emits bnb_submit_event
    (Legacy.refundBinanceChainSwaps_submit sdk bnbChainAddress inc out).
Proof.
  unfold Legacy.refundBinanceChainSwaps_submit, Legacy.bnb_refund_body,
    log, sleep.
  emits_steps.
Qed.
End EmitsOfTheBot.

(** ** The phases of a cycle *)

Lemma in_phases_nil kinds : in_phases kinds [].
Proof.
  induction kinds as [|kind kinds IH]; cbn [in_phases]; [reflexivity|].
  exists [], []. auto.
Qed.

Lemma in_phases_app kinds1 :
  forall kinds2 evs1 evs2,
    in_phases kinds1 evs1 -> in_phases kinds2 evs2 ->
    in_phases (kinds1 ++ kinds2) (evs1 ++ evs2).
Proof.
  induction kinds1 as [|kind kinds1 IH]; intros kinds2 evs1 evs2 H1 H2;
    cbn [in_phases app] in *.
  - subst. exact H2.
  - destruct H1 as (now & later & -> & Hnow & Hlater).
    exists now, (later ++ evs2). rewrite app_assoc. auto.
Qed.

Section Phases.
Context {W : Type}.

Lemma emits_one_phase {A} kind (m : M W A) :
  emits kind m -> emits_phases [kind] m.
Proof.
  intros Hm s r s' H. destruct (Hm _ _ _ H) as (evs & Htr & Hkind).
  exists evs. split; [exact Htr|]. exists evs, [].
  rewrite app_nil_r. cbn [in_phases]. auto.
Qed.

Lemma emits_phases_bind {A B} kinds1 kinds2 (m : M W A) (k : A -> M W B) :
  emits_phases kinds1 m -> (forall a, emits_phases kinds2 (k a)) ->
  emits_phases (kinds1 ++ kinds2) (bind m k).
Proof.
  intros Hm Hk s r s' H. unfold bind in H.
  destruct (m s) as [[[a|e] s1]|] eqn:E; try discriminate.
  - destruct (Hm _ _ _ E) as (evs1 & Htr1 & H1).
    destruct (Hk a _ _ _ H) as (evs2 & Htr2 & H2).
    exists (evs1 ++ evs2). split.
    + now rewrite Htr2, Htr1, app_assoc.
    + now apply in_phases_app.
  - inversion H; subst. destruct (Hm _ _ _ E) as (evs1 & Htr1 & H1).
    exists evs1. split; [exact Htr1|].
    rewrite <- (app_nil_r evs1).
    apply in_phases_app; [exact H1 | apply in_phases_nil].
Qed.
End Phases.

(** X9.  A cycle of either copy runs in five phases, in this order: the
    Kava scan (listing requests and prints only), the Kava submissions
    (the metadata request, refunds, prints and pauses), the scan of the
    swaps the deputies created, the scan of the swaps they receive, and the
    Binance Chain submissions.  Nothing of a later phase happens before an
    earlier phase has ended, however the cycle ends. *)
Theorem cycle_runs_in_phases {W : Type} (sdk : Sdk W)
    (bnbChainAddress : string) (fuel : nat) (s : St W) :
  (forall r s',
      Index.refundSwaps sdk bnbChainAddress fuel s = Some (r, s') ->
      exists evs, trace s' = trace s ++ evs /\ in_phases cycle_phases evs)
  /\ (forall r s',
         Legacy.refundSwaps sdk bnbChainAddress fuel s = Some (r, s') ->
         exists evs, trace s' = trace s ++ evs /\ in_phases cycle_phases evs).
Proof.
  split; intros r s'.
  - apply (emits_phases_bind [kava_scan_event; kava_submit_event]
             [bnb_scan_event true; bnb_scan_event false; bnb_submit_event]).
    + apply (emits_phases_bind [kava_scan_event] [kava_submit_event]).
      * apply emits_one_phase, emits_Index_kava_scan.
      * intros ids. apply emits_one_phase, emits_Index_kava_submit.
    + intros _.
      apply (emits_phases_bind [bnb_scan_event true]
               [bnb_scan_event false; bnb_submit_event]).
      * apply emits_one_phase, emits_Index_bnb_scan.
      * intros inc.
        apply (emits_phases_bind [bnb_scan_event false] [bnb_submit_event]).
        -- apply emits_one_phase, emits_Index_bnb_scan.
        -- intros out. apply emits_one_phase, emits_Index_bnb_submit.
  - apply (emits_phases_bind [kava_scan_event; kava_submit_event]
             [bnb_scan_event true; bnb_scan_event false; bnb_submit_event]).
    + apply (emits_phases_bind [kava_scan_event] [kava_submit_event]).
      * apply emits_one_phase, emits_Legacy_kava_scan.
      * intros ids. apply emits_one_phase, emits_Legacy_kava_submit.
    + intros _.
      apply (emits_phases_bind [bnb_scan_event true]
               [bnb_scan_event false; bnb_submit_event]).
      * apply emits_one_phase, emits_Legacy_bnb_scan.
      * intros inc.
        apply (emits_phases_bind [bnb_scan_event false] [bnb_submit_event]).
        -- apply emits_one_phase, emits_Legacy_bnb_scan.
        -- intros out. apply emits_one_phase, emits_Legacy_bnb_submit.
Qed.

Lemma cycle_runs_in_phases_witness :
  (exists r s',
      Index.refundSwaps scripted "bnb1bot" 3 one_on_each_chain = Some (r, s')
      /\ exists evs,
          trace s' = trace one_on_each_chain ++ evs
          /\ in_phases cycle_phases evs)
  /\ (exists r s',
         Legacy.refundSwaps scripted "bnb1bot" 3 one_on_each_chain
         = Some (r, s')
         /\ exists evs,
             trace s' = trace one_on_each_chain ++ evs
             /\ in_phases cycle_phases evs).
Proof.
  pose proof (cycle_runs_in_phases scripted "bnb1bot" 3 one_on_each_chain)
    as (HI & HL).
  split; eexists _, _; (split; [vm_compute; reflexivity|]).
  - eapply HI. vm_compute. reflexivity.
  - eapply HL. vm_compute. reflexivity.
Defined.

(** ** What the Kava scans return *)

Section KavaOutcome.
Context {W : Type} (sdk : Sdk W).

Lemma Index_kava_while_outcome fuel :
  forall found offset s r s',
    while fuel (Index.kava_scan_body sdk) (found, offset) s = Some (r, s') ->
    exists evs,
      trace s' = trace s ++ evs
      /\ ((kava_query_failed evs = false
           /\ r = Normal (Fallthrough (found ++ kava_items evs)))
          \/ (kava_query_failed evs = true /\ r = Normal (Return []))).
Proof.
  induction fuel as [|fuel IH]; intros found offset s r s' H;
    [discriminate|].
  rewrite while_S in H.
  destruct (Index_kava_body_cases sdk found offset s)
    as (reply & w & _ & Hbody).
  cbv zeta in Hbody. rewrite Hbody in H. clear Hbody.
  destruct reply as [b|e]; [destruct (present_nonempty b) eqn:Hb|].
  - apply IH in H. destruct H as (evs & Htr & Hout). cbn [trace] in Htr.
    eexists (_ :: evs). split; [rewrite Htr, <- app_assoc; reflexivity|].
    cbn [kava_query_failed kava_items].
    destruct Hout as [[Hok ->]|[Hko ->]]; [left | right]; split; auto.
    now rewrite app_assoc.
  - inversion H; subst. cbn [trace]. eexists [_]. split; [reflexivity|].
    left. cbn [kava_query_failed kava_items].
    rewrite (empty_batch_items b Hb), !app_nil_r. auto.
  - inversion H; subst. cbn [trace]. eexists [_; _].
    split; [reflexivity|]. right. auto.
Qed.

Lemma Legacy_kava_while_outcome fuel :
  forall found page s r s',
    while fuel (Legacy.kava_scan_body sdk) (found, page) s = Some (r, s') ->
    exists evs,
      trace s' = trace s ++ evs
      /\ ((kava_query_failed evs = false /\ kava_batch_absent evs = false
           /\ r = Normal (Fallthrough (found ++ kava_items evs)))
          \/ (kava_query_failed evs = true /\ r = Normal (Return None))
          \/ (kava_query_failed evs = false /\ kava_batch_absent evs = true
              /\ r = Throw (TypeError "swapBatch is undefined"))).
Proof.
  induction fuel as [|fuel IH]; intros found page s r s' H;
    [discriminate|].
  rewrite while_S in H.
  destruct (Legacy_kava_body_cases sdk found page s)
    as (reply & w & _ & Hbody).
  cbv zeta in Hbody. rewrite Hbody in H. clear Hbody.
  destruct reply as [[b|]|e]; [destruct (nonempty b) eqn:Hb| |].
  - apply IH in H. destruct H as (evs & Htr & Hout). cbn [trace] in Htr.
    eexists (_ :: evs). split; [rewrite Htr, <- app_assoc; reflexivity|].
    cbn [kava_query_failed kava_batch_absent kava_items batch_items].
    destruct Hout as [(Hok & Hpresent & ->)|[[Hko ->]|(Hok & Habsent & ->)]];
      [left | right; left | right; right]; repeat split; auto.
    now rewrite app_assoc.
  - inversion H; subst. cbn [trace]. eexists [_]. split; [reflexivity|].
    left. cbn [kava_query_failed kava_batch_absent kava_items batch_items].
    rewrite (nonempty_false b Hb), !app_nil_r. auto.
  - inversion H; subst. cbn [trace]. eexists [_]. split; [reflexivity|].
    right; right. auto.
  - inversion H; subst. cbn [trace]. eexists [_; _].
    split; [reflexivity|]. right; left. auto.
Qed.
End KavaOutcome.

Lemma Index_kava_scan_result {W : Type} (sdk : Sdk W) fuel s r s' :
  Index.getRefundableKavaSwaps sdk fuel s = Some (r, s') ->
  exists evs,
    trace s' = trace s ++ evs
    /\ r = if kava_query_failed evs then Normal []
           else calculate_swapIDs sdk (kava_items evs) [].
Proof.
  unfold Index.getRefundableKavaSwaps, bind, lift. intros H.
  destruct (while fuel _ _ s) as [[r0 s0]|] eqn:Hw; [|discriminate].
  apply Index_kava_while_outcome in Hw.
  destruct Hw as (evs & Htr & [[Hok ->]|[Hko ->]]);
    inversion H; subst; exists evs; rewrite ?Hok, ?Hko; auto.
Qed.

Lemma Legacy_kava_scan_result {W : Type} (sdk : Sdk W) fuel s r s' :
  Legacy.getRefundableKavaSwaps sdk fuel s = Some (r, s') ->
  exists evs,
    trace s' = trace s ++ evs
    /\ r = if kava_query_failed evs then Normal None
           else if kava_batch_absent evs
                then Throw (TypeError "swapBatch is undefined")
                else match calculate_swapIDs sdk (kava_items evs) [] with
                     | Normal swapIDs => Normal (Some swapIDs)
                     | Throw e => Throw e
                     end.
Proof.
  unfold Legacy.getRefundableKavaSwaps, bind, lift, ret. intros H.
  destruct (while fuel _ _ s) as [[r0 s0]|] eqn:Hw; [|discriminate].
  apply Legacy_kava_while_outcome in Hw.
  destruct Hw as (evs & Htr
                  & [(Hok & Hpresent & ->)|[[Hko ->]|(Hok & Habsent & ->)]]);
    exists evs; rewrite ?Hok, ?Hko, ?Hpresent, ?Habsent;
    [destruct (calculate_swapIDs sdk _ []) | |];
    inversion H; subst; auto.
Qed.

(** X1.  The Kava scan of the entry point raises nothing but an exception
    of [calculateSwapID].  When one of its listing requests raised it
    returns the empty list, whatever the pages before had brought.
    Otherwise it calculates the swap IDs of the items of all the pages it
    was given, in order: it returns them all, each the ID calculated for the
    item at its place, or it raises the exception of the first item on
    which [calculateSwapID] raises. *)
Theorem index_kava_scan_outcome {W : Type} (sdk : Sdk W) (fuel : nat)
    (s : St W) (r : result (list string)) (s' : St W) :
  Index.getRefundableKavaSwaps sdk fuel s = Some (r, s') ->
  exists evs,
    trace s' = trace s ++ evs
    /\ if kava_query_failed evs then r = Normal []
       else swapIDs_outcome sdk (kava_items evs) r.
Proof.
  intros H. destruct (Index_kava_scan_result sdk _ _ _ _ H) as (evs & Htr & ->).
  exists evs. split; [exact Htr|].
  destruct (kava_query_failed evs); [reflexivity|].
  apply calculate_swapIDs_outcome.
Qed.

(** On a chain whose second request raises, and on one that lists a swap
    whose ID cannot be calculated. *)
Lemma index_kava_scan_outcome_witness :
  (exists r s',
      Index.getRefundableKavaSwaps scripted 3 kava_page_then_error
      = Some (r, s')
      /\ exists evs,
          trace s' = trace kava_page_then_error ++ evs
          /\ if kava_query_failed evs then r = Normal []
             else swapIDs_outcome scripted (kava_items evs) r)
  /\ (exists r s',
         Index.getRefundableKavaSwaps scripted 3 unhashable_swap
         = Some (r, s')
         /\ (exists e, r = Throw e)
         /\ exists evs,
             trace s' = trace unhashable_swap ++ evs
             /\ if kava_query_failed evs then r = Normal []
                else swapIDs_outcome scripted (kava_items evs) r).
Proof.
  split.
  - eexists _, _. split; [vm_compute; reflexivity|].
    eapply (index_kava_scan_outcome scripted 3). vm_compute. reflexivity.
  - eexists _, _. split; [vm_compute; reflexivity|].
    split; [eexists; reflexivity|].
    eapply (index_kava_scan_outcome scripted 3). vm_compute. reflexivity.
Defined.

(** X2.  The Kava scan of the older copy ends in one of four ways.  When a
    listing request raised it returns [undefined]; when the chain returned
    no batch at all it raises the [TypeError] of [swapBatch.length]; and
    otherwise it calculates the swap IDs of the items of all the pages, in
    order: it returns them all, or raises the exception of the first item
    on which [calculateSwapID] raises. *)
Theorem legacy_kava_scan_outcome {W : Type} (sdk : Sdk W) (fuel : nat)
    (s : St W) (r : result (option (list string))) (s' : St W) :
  Legacy.getRefundableKavaSwaps sdk fuel s = Some (r, s') ->
  exists evs,
    trace s' = trace s ++ evs
    /\ if kava_query_failed evs then r = Normal None
       else if kava_batch_absent evs
            then r = Throw (TypeError "swapBatch is undefined")
            else legacy_swapIDs_outcome sdk (kava_items evs) r.
Proof.
  intros H.
  destruct (Legacy_kava_scan_result sdk _ _ _ _ H) as (evs & Htr & ->).
  exists evs. split; [exact Htr|].
  destruct (kava_query_failed evs); [reflexivity|].
  destruct (kava_batch_absent evs); [reflexivity|].
  pose proof (calculate_swapIDs_outcome sdk (kava_items evs)) as Hids.
  unfold legacy_swapIDs_outcome.
  destruct (calculate_swapIDs sdk (kava_items evs) []); exact Hids.
Qed.

(** On a chain that lists two swaps, and on one that lists a swap whose ID
    cannot be calculated. *)
Lemma legacy_kava_scan_outcome_witness :
  (exists r s',
      Legacy.getRefundableKavaSwaps scripted 3 two_expired = Some (r, s')
      /\ exists evs,
          trace s' = trace two_expired ++ evs
          /\ if kava_query_failed evs then r = Normal None
             else if kava_batch_absent evs
                  then r = Throw (TypeError "swapBatch is undefined")
                  else legacy_swapIDs_outcome scripted (kava_items evs) r)
  /\ (exists r s',
         Legacy.getRefundableKavaSwaps scripted 3 unhashable_swap
         = Some (r, s')
         /\ (exists e, r = Throw e)
         /\ exists evs,
             trace s' = trace unhashable_swap ++ evs
             /\ if kava_query_failed evs then r = Normal None
                else if kava_batch_absent evs
                     then r = Throw (TypeError "swapBatch is undefined")
                     else legacy_swapIDs_outcome scripted (kava_items evs) r).
Proof.
  split.
  - eexists _, _. split; [vm_compute; reflexivity|].
    eapply (legacy_kava_scan_outcome scripted 3). vm_compute. reflexivity.
  - eexists _, _. split; [vm_compute; reflexivity|].
    split; [eexists; reflexivity|].
    eapply (legacy_kava_scan_outcome scripted 3). vm_compute. reflexivity.
Defined.

(** ** More on the Binance Chain scan *)

Section MoreIndexRunFacts.
Variables (incoming : bool) (lim start_in start_out latest : Z).
Local Abbreviation run := (index_run incoming lim start_in start_out latest).

Lemma index_run_configured ds v qs v' :
  run ds v qs v' ->
  Forall (fun q => q_incoming q = incoming /\ q_limit q = lim
                   /\ In (q_address q) ds) qs.
Proof.
  induction 1 as [v|d ds v e qs v' _ IH|d ds v b qs v' Hb _ IH
                 |d ds v b qs v' Hb _ IH].
  - apply Forall_nil.
  - apply Forall_cons; [cbn; auto|].
    eapply Forall_impl; [|exact IH]. cbn. intuition.
  - apply Forall_cons; [cbn; auto|].
    eapply Forall_impl; [|exact IH]. cbn. intuition.
  - apply Forall_cons; [cbn; auto | exact IH].
Qed.

Lemma index_run_deputies ds v qs v' :
  run ds v qs v' -> map q_address (filter ends_loop qs) = ds.
Proof.
  induction 1 as [v|d ds v e qs v' _ IH|d ds v b qs v' Hb _ IH
                 |d ds v b qs v' Hb _ IH];
    cbn [filter ends_loop query_of q_reply map q_address]; auto.
  - now rewrite IH.
  - rewrite Hb. cbn [negb map q_address]. now rewrite IH.
  - rewrite Hb. cbn [negb]. exact IH.
Qed.

Lemma index_run_not_below ds v qs v' :
  run ds v qs v' ->
  0 <= lim ->
  (if incoming then start_in else start_out) <= v_offset incoming v ->
  Forall (fun q => (if incoming then start_in else start_out) <= q_offset q)
    qs.
Proof.
  induction 1 as [v|d ds v e qs v' _ IH|d ds v b qs v' Hb _ IH
                 |d ds v b qs v' Hb _ IH]; intros Hlim Hv.
  - apply Forall_nil.
  - apply Forall_cons; [exact Hv | now apply IH].
  - apply Forall_cons; [exact Hv|].
    apply IH; auto. destruct incoming; cbn; lia.
  - apply Forall_cons; [exact Hv|].
    apply IH; auto. rewrite v_offset_advance.
    pose proof (offset_after_page_ge lim (v_offset incoming v)
                  (List.length (batch_items b)) Hlim).
    lia.
Qed.
End MoreIndexRunFacts.

Section MoreLegacyRunFacts.
Variables (incoming : bool) (lim : Z).
Local Abbreviation run := (legacy_run incoming lim).

Lemma legacy_run_configured ds v qs out :
  run ds v qs out ->
  Forall (fun q => q_incoming q = incoming /\ q_limit q = lim
                   /\ In (q_address q) ds) qs.
Proof.
  induction 1 as [v|d ds v e|d ds v|d ds v b qs out Hb _ IH
                 |d ds v b qs out Hb _ IH].
  - apply Forall_nil.
  - apply Forall_cons; [cbn; auto | apply Forall_nil].
  - apply Forall_cons; [cbn; auto | apply Forall_nil].
  - apply Forall_cons; [cbn; auto|].
    eapply Forall_impl; [|exact IH]. cbn. intuition.
  - apply Forall_cons; [cbn; auto | exact IH].
Qed.

Lemma legacy_run_deputies ds v qs out :
  run ds v qs out ->
  forall v', out = Normal (Fallthrough v') ->
  map q_address (filter ends_loop qs) = ds.
Proof.
  induction 1 as [v|d ds v e|d ds v|d ds v b qs out Hb _ IH
                 |d ds v b qs out Hb _ IH];
    intros v' Hout; try discriminate;
    cbn [filter ends_loop query_of q_reply map q_address present_nonempty];
    auto.
  - rewrite Hb. cbn [negb map q_address]. now rewrite (IH v' Hout).
  - rewrite Hb. cbn [negb]. exact (IH v' Hout).
Qed.

Lemma legacy_run_not_below ds v qs out start :
  run ds v qs out ->
  0 <= lim ->
  start <= v_offset incoming v ->
  Forall (fun q => start <= q_offset q) qs.
Proof.
  induction 1 as [v|d ds v e|d ds v|d ds v b qs out Hb _ IH
                 |d ds v b qs out Hb _ IH]; intros Hlim Hv.
  - apply Forall_nil.
  - apply Forall_cons; [exact Hv | apply Forall_nil].
  - apply Forall_cons; [exact Hv | apply Forall_nil].
  - apply Forall_cons; [exact Hv | now apply IH].
  - apply Forall_cons; [exact Hv|].
    apply IH; auto. rewrite v_offset_advance.
    pose proof (offset_after_page_ge lim (v_offset incoming v)
                  (List.length b) Hlim).
    lia.
Qed.

Lemma legacy_run_step_up ds v q q' post out :
  run ds v (q :: q' :: post) out ->
  0 <= lim ->
  q_offset q <= q_offset q'.
Proof.
  intros H Hlim. inversion H; subst;
    match goal with
    | Hrest : run _ _ (q' :: post) _ |- _ =>
        apply legacy_run_head in Hrest;
        destruct Hrest as (d' & ds' & reply & _ & ->)
    end;
    cbn [query_of q_offset]; [lia|].
  rewrite v_offset_advance. now apply offset_after_page_ge.
Qed.
End MoreLegacyRunFacts.

Lemma asked_next_after lim q n q' :
  q_address q' = q_address q ->
  q_offset q' = offset_after_page lim (q_offset q) n ->
  asked_next lim q n q'.
Proof.
  intros Haddr Hoff. repeat split; auto; rewrite Hoff; unfold offset_after_page.
  - intros Hn Hsum.
    replace (Z.of_nat n <=? lim) with true by (symmetry; apply Z.leb_le; lia).
    now apply js_add_exact.
  - intros Hn.
    replace (Z.of_nat n <=? lim) with false
      by (symmetry; apply Z.leb_gt; lia).
    reflexivity.
Qed.

Lemma index_run_next incoming lim start_in start_out latest ds v qs v'
    pre q post b :
  index_run incoming lim start_in start_out latest ds v qs v' ->
  qs = pre ++ q :: post ->
  q_reply q = Normal (Some b) -> nonempty b = true ->
  exists q' post',
    post = q' :: post'
    /\ q_address q' = q_address q
    /\ q_offset q' = offset_after_page lim (q_offset q) (List.length b).
Proof.
  intros H -> Hq Hb. apply index_run_suffix in H.
  destruct H as (skipped & rest & v1 & _ & Hrun).
  destruct (index_run_head _ _ _ _ _ _ _ _ _ _ Hrun)
    as (d & ds' & reply & -> & ->).
  cbn [q_reply query_of] in Hq.
  exact (index_run_after_page _ _ _ _ _ _ _ _ _ b _ _ Hrun Hq Hb).
Qed.

Lemma legacy_run_next incoming lim ds v qs out pre q post b :
  legacy_run incoming lim ds v qs out ->
  qs = pre ++ q :: post ->
  q_reply q = Normal (Some b) -> nonempty b = true ->
  exists q' post',
    post = q' :: post'
    /\ q_address q' = q_address q
    /\ q_offset q' = offset_after_page lim (q_offset q) (List.length b).
Proof.
  intros H -> Hq Hb. apply legacy_run_suffix in H.
  destruct H as (skipped & rest & v1 & _ & Hrun).
  destruct (legacy_run_head _ _ _ _ _ _ _ Hrun)
    as (d & ds' & reply & -> & ->).
  cbn [q_reply query_of] in Hq.
  exact (legacy_run_after_page _ _ _ _ _ _ b _ _ Hrun Hq Hb).
Qed.

(** X5.  A scan of one direction, in either copy, sends listing requests
    only in that direction, only with the bot's page size and only to
    deputies of the bot's list. *)
Theorem scan_asks_as_configured {W : Type} (sdk : Sdk W) (incoming : bool)
    (fuel : nat) (s : St W) :
  (forall r s',
      Index.getRefundableBinanceSwaps sdk incoming fuel s = Some (r, s') ->
      exists evs,
        trace s' = trace s ++ evs
        /\ Forall (as_configured incoming (this s)) (bnb_queries evs))
  /\ (forall r s',
         Legacy.getRefundableBinanceSwaps sdk incoming fuel s
         = Some (r, s') ->
         exists evs,
           trace s' = trace s ++ evs
           /\ Forall (as_configured incoming (this s)) (bnb_queries evs)).
Proof.
  split; intros r s' H.
  - apply Index_scan_run in H.
    destruct H as [_ [(e & -> & Htr)|(latest & evs & v' & -> & Htr & Hrun)]].
    + eexists. split; [exact Htr|]. apply Forall_nil.
    + eexists. split; [exact Htr|]. cbn [bnb_queries].
      exact (index_run_configured _ _ _ _ _ _ _ _ _ Hrun).
  - apply Legacy_scan_run in H.
    destruct H as [_ (evs & out & -> & Htr & Hrun)].
    exists evs. split; [exact Htr|].
    exact (legacy_run_configured _ _ _ _ _ _ Hrun).
Qed.

Lemma scan_asks_as_configured_witness :
  (exists r s',
      Index.getRefundableBinanceSwaps scripted true 3 two_deputies
      = Some (r, s')
      /\ exists evs,
          trace s' = trace two_deputies ++ evs
          /\ Forall (as_configured true (this two_deputies))
               (bnb_queries evs))
  /\ (exists r s',
         Legacy.getRefundableBinanceSwaps scripted true 3 two_deputies
         = Some (r, s')
         /\ exists evs,
             trace s' = trace two_deputies ++ evs
             /\ Forall (as_configured true (this two_deputies))
                  (bnb_queries evs)).
Proof.
  pose proof (scan_asks_as_configured scripted true 3 two_deputies)
    as (HI & HL).
  split; eexists _, _; (split; [vm_compute; reflexivity|]).
  - eapply HI. vm_compute. reflexivity.
  - eapply HL. vm_compute. reflexivity.
Defined.

(** X6.  A scan that returns a list has run the loop of every deputy exactly
    once, in the order of the bot's list: the queries that ended a loop
    (answered by an empty batch, by none, or, in the entry point, by an
    error) are addressed to the deputies of the list, one each, in order. *)
Theorem scan_visits_each_deputy_once {W : Type} (sdk : Sdk W)
    (incoming : bool) (fuel : nat) (s : St W) :
  (forall ids s',
      Index.getRefundableBinanceSwaps sdk incoming fuel s
      = Some (Normal ids, s') ->
      exists evs,
        trace s' = trace s ++ evs
        /\ map q_address (filter ends_loop (bnb_queries evs))
           = deputyAddresses (this s))
  /\ (forall ids s',
         Legacy.getRefundableBinanceSwaps sdk incoming fuel s
         = Some (Normal (Some ids), s') ->
         exists evs,
           trace s' = trace s ++ evs
           /\ map q_address (filter ends_loop (bnb_queries evs))
              = deputyAddresses (this s)).
Proof.
  split; intros ids s' H.
  - apply Index_scan_run in H.
    destruct H as [_ [(e & He & _)|(latest & evs & v' & _ & Htr & Hrun)]];
      [discriminate|].
    eexists. split; [exact Htr|]. cbn [bnb_queries].
    exact (index_run_deputies _ _ _ _ _ _ _ _ _ Hrun).
  - apply Legacy_scan_run in H.
    destruct H as [_ (evs & out & Hr & Htr & Hrun)].
    exists evs. split; [exact Htr|].
    destruct out as [[v'|x]|e]; cbn [legacy_scan_result] in Hr;
      inversion Hr; subst.
    + exact (legacy_run_deputies _ _ _ _ _ _ Hrun v' eq_refl).
    + discriminate (legacy_run_returns_undefined _ _ _ _ _ _ Hrun _ eq_refl).
Qed.

Lemma scan_visits_each_deputy_once_witness :
  (exists ids s',
      Index.getRefundableBinanceSwaps scripted true 3 first_deputy_down
      = Some (Normal ids, s')
      /\ exists evs,
          trace s' = trace first_deputy_down ++ evs
          /\ map q_address (filter ends_loop (bnb_queries evs))
             = deputyAddresses (this first_deputy_down))
  /\ (exists ids s',
         Legacy.getRefundableBinanceSwaps scripted true 3 two_deputies
         = Some (Normal (Some ids), s')
         /\ exists evs,
             trace s' = trace two_deputies ++ evs
             /\ map q_address (filter ends_loop (bnb_queries evs))
                = deputyAddresses (this two_deputies)).
Proof.
  split; eexists _, _; (split; [vm_compute; reflexivity|]).
  - eapply (proj1 (scan_visits_each_deputy_once scripted true 3
                     first_deputy_down)).
    vm_compute. reflexivity.
  - eapply (proj2 (scan_visits_each_deputy_once scripted true 3
                     two_deputies)).
    vm_compute. reflexivity.
Defined.

(** X7.  In a scan of either copy, a page with at least one item is always
    followed by another request to the same deputy.  When the page had at
    most [limit] items, the request is sent at the sum of the offset and
    [limit] as JavaScript adds two numbers: their exact sum while that
    stays within 2^53, and the nearest double beyond.  When the page had
    more than [limit] items, the request is sent at the very same offset
    (so a chain that returns oversized pages, or any page when [limit] is 0
    or less, is asked the same request again). *)
Theorem request_after_a_page {W : Type} (sdk : Sdk W) (incoming : bool)
    (fuel : nat) (s : St W) :
  (forall r s',
      Index.getRefundableBinanceSwaps sdk incoming fuel s = Some (r, s') ->
      exists evs,
        trace s' = trace s ++ evs
        /\ forall pre q post b,
            bnb_queries evs = pre ++ q :: post ->
            q_reply q = Normal (Some b) -> nonempty b = true ->
            exists q' post',
              post = q' :: post'
              /\ asked_next (limit (this s)) q (List.length b) q')
  /\ (forall r s',
         Legacy.getRefundableBinanceSwaps sdk incoming fuel s
         = Some (r, s') ->
         exists evs,
           trace s' = trace s ++ evs
           /\ forall pre q post b,
               bnb_queries evs = pre ++ q :: post ->
               q_reply q = Normal (Some b) -> nonempty b = true ->
               exists q' post',
                 post = q' :: post'
                 /\ asked_next (limit (this s)) q (List.length b) q').
Proof.
  split; intros r s' H.
  - apply Index_scan_run in H.
    destruct H as [_ [(e & -> & Htr)|(latest & evs & v' & -> & Htr & Hrun)]].
    + eexists. split; [exact Htr|].
      intros [|p pre] q post b Hqs; discriminate.
    + eexists. split; [exact Htr|]. cbn [bnb_queries].
      intros pre q post b Hqs Hq Hb.
      destruct (index_run_next _ _ _ _ _ _ _ _ _ _ _ _ _ Hrun Hqs Hq Hb)
        as (q' & post' & Hpost & Haddr & Hoff).
      exists q', post'. split; [exact Hpost|].
      now apply asked_next_after.
  - apply Legacy_scan_run in H.
    destruct H as [_ (evs & out & -> & Htr & Hrun)].
    exists evs. split; [exact Htr|].
    intros pre q post b Hqs Hq Hb.
    destruct (legacy_run_next _ _ _ _ _ _ _ _ _ _ Hrun Hqs Hq Hb)
      as (q' & post' & Hpost & Haddr & Hoff).
    exists q', post'. split; [exact Hpost|].
    now apply asked_next_after.
Qed.

Lemma request_after_a_page_witness :
  (exists r s',
      Index.getRefundableBinanceSwaps scripted true 3 two_deputies
      = Some (r, s')
      /\ exists evs,
          trace s' = trace two_deputies ++ evs
          /\ forall pre q post b,
              bnb_queries evs = pre ++ q :: post ->
              q_reply q = Normal (Some b) -> nonempty b = true ->
              exists q' post',
                post = q' :: post'
                /\ asked_next (limit (this two_deputies)) q
                     (List.length b) q')
  /\ (exists r s',
         Legacy.getRefundableBinanceSwaps scripted true 3 two_deputies
         = Some (r, s')
         /\ exists evs,
             trace s' = trace two_deputies ++ evs
             /\ forall pre q post b,
                 bnb_queries evs = pre ++ q :: post ->
                 q_reply q = Normal (Some b) -> nonempty b = true ->
                 exists q' post',
                   post = q' :: post'
                   /\ asked_next (limit (this two_deputies)) q
                        (List.length b) q').
Proof.
  pose proof (request_after_a_page scripted true 3 two_deputies)
    as (HI & HL).
  split; eexists _, _; (split; [vm_compute; reflexivity|]).
  - eapply HI. vm_compute. reflexivity.
  - eapply HL. vm_compute. reflexivity.
Defined.

(** X8.  When the page size is not negative, no request of a scan is sent
    below the bot's stored offset for the direction, in either copy; and in
    the older copy, which never resets, the offsets of successive requests
    of a scan never decrease. *)
Theorem offsets_stay_above_start {W : Type} (sdk : Sdk W) (incoming : bool)
    (fuel : nat) (s : St W) :
  0 <= limit (this s) ->
  (forall r s',
      Index.getRefundableBinanceSwaps sdk incoming fuel s = Some (r, s') ->
      exists evs,
        trace s' = trace s ++ evs
        /\ Forall (fun q => start_offset incoming (this s) <= q_offset q)
             (bnb_queries evs))
  /\ (forall r s',
         Legacy.getRefundableBinanceSwaps sdk incoming fuel s
         = Some (r, s') ->
         exists evs,
           trace s' = trace s ++ evs
           /\ Forall (fun q => start_offset incoming (this s) <= q_offset q)
                (bnb_queries evs)
           /\ forall pre q q' post,
               bnb_queries evs = pre ++ q :: q' :: post ->
               q_offset q <= q_offset q').
Proof.
  intros Hlim. split; intros r s' H.
  - apply Index_scan_run in H.
    destruct H as [_ [(e & -> & Htr)|(latest & evs & v' & -> & Htr & Hrun)]].
    + eexists. split; [exact Htr|]. apply Forall_nil.
    + eexists. split; [exact Htr|]. cbn [bnb_queries].
      apply (index_run_not_below _ _ _ _ _ _ _ _ _ Hrun Hlim).
      rewrite start_offset_v_offset. unfold start_offset.
      destruct incoming; lia.
  - apply Legacy_scan_run in H.
    destruct H as [_ (evs & out & -> & Htr & Hrun)].
    exists evs. split; [exact Htr|]. split.
    + apply (legacy_run_not_below _ _ _ _ _ _ _ Hrun Hlim).
      rewrite start_offset_v_offset. lia.
    + intros pre q q' post Hqs. rewrite Hqs in Hrun.
      apply legacy_run_suffix in Hrun.
      destruct Hrun as (skipped & rest & v1 & _ & Hrun).
      exact (legacy_run_step_up _ _ _ _ _ _ _ _ Hrun Hlim).
Qed.

Lemma offsets_stay_above_start_witness :
  (exists r s',
      Index.getRefundableBinanceSwaps scripted true 3 two_deputies
      = Some (r, s')
      /\ exists evs,
          trace s' = trace two_deputies ++ evs
          /\ Forall (fun q => start_offset true (this two_deputies)
                              <= q_offset q)
               (bnb_queries evs))
  /\ (exists r s',
         Legacy.getRefundableBinanceSwaps scripted true 3 two_deputies
         = Some (r, s')
         /\ exists evs,
             trace s' = trace two_deputies ++ evs
             /\ Forall (fun q => start_offset true (this two_deputies)
                                 <= q_offset q)
                  (bnb_queries evs)
             /\ forall pre q q' post,
                 bnb_queries evs = pre ++ q :: q' :: post ->
                 q_offset q <= q_offset q').
Proof.
  assert (Hlim : 0 <= limit (this two_deputies)) by (cbn; lia).
  pose proof (offsets_stay_above_start scripted true 3 two_deputies Hlim)
    as (HI & HL).
  split; eexists _, _; (split; [vm_compute; reflexivity|]).
  - eapply HI. vm_compute. reflexivity.
  - eapply HL. vm_compute. reflexivity.
Defined.

(** ** What a cycle can raise *)

Section Raises.
Context {W : Type}.
Variable Q : exn -> Prop.

Lemma raises_ret {A} (a : A) : raises_only (W := W) Q (ret a).
Proof. intros s e s' H. discriminate. Qed.

Lemma raises_get_this : raises_only (W := W) Q get_this.
Proof. intros s e s' H. discriminate. Qed.

Lemma raises_emit ev : raises_only (W := W) Q (emit ev).
Proof. intros s e s' H. discriminate. Qed.

Lemma raises_throw {A} e : Q e -> raises_only (W := W) (A := A) Q (throw e).
Proof. intros He s e' s' H. inversion H; subst. exact He. Qed.

Lemma raises_try {A} (m : M W A) : raises_only Q (try m).
Proof.
  intros s e s' H. unfold try in H.
  destruct (m s) as [[x s1]|]; discriminate.
Qed.

Lemma raises_bind {A B} (m : M W A) (k : A -> M W B) :
  raises_only Q m -> (forall a, raises_only Q (k a)) ->
  raises_only Q (bind m k).
Proof.
  intros Hm Hk s e s' H. unfold bind in H.
  destruct (m s) as [[[a|e0] s1]|] eqn:E; try discriminate.
  - exact (Hk a _ _ _ H).
  - inversion H; subst. exact (Hm _ _ _ E).
Qed.

Lemma raises_while {L R} (body : L -> M W (step L R)) fuel :
  (forall l, raises_only Q (body l)) ->
  forall l, raises_only Q (while fuel body l).
Proof.
  intros Hbody. induction fuel as [|fuel IH]; intros l;
    [intros s e s' H; discriminate|].
  cbn [while]. apply raises_bind; [apply Hbody|].
  intros [l'|x]; [apply IH | apply raises_ret].
Qed.

Lemma raises_asyncForEach {A L} (cb : A -> L -> M W L) array :
  (forall x l, raises_only Q (cb x l)) ->
  forall l, raises_only Q (asyncForEach array cb l).
Proof.
  intros Hcb. induction array as [|x rest IH]; intros l; cbn [asyncForEach].
  - apply raises_ret.
  - apply raises_bind; [apply Hcb | exact IH].
Qed.

Lemma raises_for_of {A L B} (body : A -> L -> M W (flow L B)) array :
  (forall x l, raises_only Q (body x l)) ->
  forall l, raises_only Q (for_of array body l).
Proof.
  intros Hb. induction array as [|x rest IH]; intros l; cbn [for_of].
  - apply raises_ret.
  - apply raises_bind; [apply Hb|].
    intros [l'|b]; [apply IH | apply raises_ret].
Qed.
End Raises.

(** Takes a computation apart down to its [try] blocks and [throw]s. *)
Ltac raises_steps :=
  repeat first
    [ apply raises_ret
    | apply raises_get_this
    | apply raises_try
    | apply raises_emit
    | apply raises_throw; eexists; reflexivity
    | apply raises_bind; [|intros ?]
    | apply raises_while; intros ?
    | apply raises_asyncForEach; intros ? ?
    | apply raises_for_of; intros ? ?
    | match goal with
      | |- raises_only _ (match ?x with _ => _ end) => destruct x
      | |- raises_only _ (let '(_, _) := ?x in _) => destruct x
      end ].

Lemma raises_Legacy_bnb_submit {W : Type} (sdk : Sdk W) bnbChainAddress
    inc out :
  raises_only is_TypeError
    (Legacy.refundBinanceChainSwaps_submit sdk bnbChainAddress inc out).
Proof.
  unfold Legacy.refundBinanceChainSwaps_submit, Legacy.bnb_refund_body,
    log, sleep.
  destruct inc as [inc|]; cbn [Legacy.concat_ids]; raises_steps.
Qed.

Lemma raises_Legacy_kava_submit {W : Type} (sdk : Sdk W) swapIDs :
  raises_only is_TypeError (Legacy.refundKavaSwaps_submit sdk swapIDs).
Proof.
  unfold Legacy.refundKavaSwaps_submit, Legacy.kava_refund_body, log, sleep.
  raises_steps.
Qed.

Lemma raises_Legacy_bnb_pass {W : Type} (sdk : Sdk W) bnbChainAddress fuel :
  raises_only is_TypeError
    (Legacy.refundBinanceChainSwaps sdk bnbChainAddress fuel).
Proof.
  unfold Legacy.refundBinanceChainSwaps, Legacy.getRefundableBinanceSwaps,
    Legacy.bnb_scan_body, log, sleep.
  raises_steps. apply raises_Legacy_bnb_submit.
Qed.

Lemma kava_scan_no_attempts evs :
  Forall kava_scan_event evs -> kava_attempts evs = [].
Proof.
  induction 1 as [|e evs He _ IH]; [reflexivity|].
  destruct e; cbn [kava_attempts]; auto; elim He.
Qed.

Lemma kava_scan_no_bnb_attempts evs :
  Forall kava_scan_event evs -> bnb_attempts evs = [].
Proof.
  induction 1 as [|e evs He _ IH]; [reflexivity|].
  destruct e; cbn [bnb_attempts]; auto; elim He.
Qed.

(** X4.  Every request the older copy sends to a chain sits in a [try]: no
    exception of a request leaves a cycle.  What can leave it is a
    [TypeError] of the bot's own making, from reading [length] or [concat]
    of [undefined], or the exception that [calculateSwapID], which is
    called outside every [try], raised on a swap that Kava listed in this
    cycle; the cycle then ends within the Kava scan, before anything is
    submitted. *)
Theorem legacy_cycle_raises_in_two_ways {W : Type} (sdk : Sdk W)
    (bnbChainAddress : string) (fuel : nat) (s : St W) (e : exn)
    (s' : St W) :
  Legacy.refundSwaps sdk bnbChainAddress fuel s = Some (Throw e, s') ->
  is_TypeError e
  \/ exists evs,
      trace s' = trace s ++ evs
      /\ first_to_raise sdk (kava_items evs) e
      /\ kava_attempts evs = []
      /\ bnb_attempts evs = [].
Proof.
  unfold Legacy.refundSwaps, Legacy.refundKavaSwaps, bind. intros H.
  destruct (Legacy.getRefundableKavaSwaps sdk fuel s)
    as [[[swapIDs|e0] s0]|] eqn:Hscan; [| |discriminate].
  - left.
    destruct (Legacy.refundKavaSwaps_submit sdk swapIDs s0)
      as [[[u|e1] s1]|] eqn:Hsub; [| |discriminate].
    + exact (raises_Legacy_bnb_pass sdk bnbChainAddress fuel _ _ _ H).
    + inversion H; subst.
      exact (raises_Legacy_kava_submit sdk swapIDs _ _ _ Hsub).
  - inversion H; subst; clear H.
    destruct (emits_Legacy_kava_scan sdk fuel _ _ _ Hscan)
      as (evs' & Htr' & Hkind).
    destruct (Legacy_kava_scan_result sdk _ _ _ _ Hscan) as (evs & Htr & Hr).
    rewrite Htr in Htr'. apply app_inv_head in Htr'. subst evs'.
    destruct (kava_query_failed evs); [discriminate|].
    destruct (kava_batch_absent evs).
    { left. inversion Hr. eexists. reflexivity. }
    right. exists evs. split; [exact Htr|].
    pose proof (calculate_swapIDs_outcome sdk (kava_items evs)) as Hids.
    destruct (calculate_swapIDs sdk (kava_items evs) []); [discriminate|].
    inversion Hr; subst.
    split; [exact Hids|].
    split; [now apply kava_scan_no_attempts
           | now apply kava_scan_no_bnb_attempts].
Qed.

(** On a chain whose Kava request raises, where the cycle ends with a
    [TypeError], and on one that lists a swap whose ID cannot be
    calculated. *)
Lemma legacy_cycle_raises_in_two_ways_witness :
  (exists e s',
      Legacy.refundSwaps scripted "bnb1bot" 3 kava_down = Some (Throw e, s')
      /\ (is_TypeError e
          \/ exists evs,
              trace s' = trace kava_down ++ evs
              /\ first_to_raise scripted (kava_items evs) e
              /\ kava_attempts evs = []
              /\ bnb_attempts evs = []))
  /\ (exists e s',
         Legacy.refundSwaps scripted "bnb1bot" 3 unhashable_swap
         = Some (Throw e, s')
         /\ (is_TypeError e
             \/ exists evs,
                 trace s' = trace unhashable_swap ++ evs
                 /\ first_to_raise scripted (kava_items evs) e
                 /\ kava_attempts evs = []
                 /\ bnb_attempts evs = [])).
Proof.
  split.
  - eexists _, _. split; [vm_compute; reflexivity|].
    eapply (legacy_cycle_raises_in_two_ways scripted "bnb1bot" 3 kava_down).
    vm_compute. reflexivity.
  - eexists _, _. split; [vm_compute; reflexivity|].
    eapply (legacy_cycle_raises_in_two_ways scripted "bnb1bot" 3
              unhashable_swap).
    vm_compute. reflexivity.
Defined.

(** ** What the Binance Chain pass of the entry point submits *)

Lemma no_bnb_attempts evs :
  Forall no_bnb_submission evs -> bnb_attempts evs = [].
Proof.
  induction 1 as [|e evs He _ IH]; [reflexivity|].
  destruct e; cbn [bnb_attempts]; auto. elim He.
Qed.

Lemma bnb_scan_no_submission incoming e :
  bnb_scan_event incoming e -> no_bnb_submission e.
Proof. destruct e; cbn; auto. Qed.

Lemma kava_scan_no_submission e : kava_scan_event e -> no_bnb_submission e.
Proof. destruct e; cbn; auto. Qed.

Lemma kava_submit_no_submission e :
  kava_submit_event e -> no_bnb_submission e.
Proof. destruct e; cbn; auto. Qed.

Section IndexBnbPass.
Context {W : Type} (sdk : Sdk W).
Variable bnbChainAddress : string.

Lemma emits_Index_kava_pass fuel :
  emits no_bnb_submission (Index.refundKavaSwaps sdk fuel).
Proof.
  unfold Index.refundKavaSwaps. apply emits_bind.
  - eapply emits_weaken; [|apply emits_Index_kava_scan].
    apply kava_scan_no_submission.
  - intros ids. eapply emits_weaken; [|apply emits_Index_kava_submit].
    apply kava_submit_no_submission.
Qed.

(** A scan of the entry point that raises did so at its node-info request
    and has sent nothing else. *)
Lemma Index_scan_raises incoming fuel s e s' :
  Index.getRefundableBinanceSwaps sdk incoming fuel s = Some (Throw e, s') ->
  trace s' = trace s ++ [EvNodeInfo (Throw e)].
Proof.
  intros H. apply Index_scan_run in H.
  destruct H as [_ [(e0 & He & Htr)|(latest & evs & v' & Hr & _)]];
    [inversion He; subst; exact Htr | discriminate].
Qed.

(** A scan of the entry point that returns: the height it read, the pages
    it was given and what it returns. *)
Lemma Index_scan_returns incoming fuel s ids s' :
  Index.getRefundableBinanceSwaps sdk incoming fuel s
  = Some (Normal ids, s') ->
  exists latest evs,
    trace s' = trace s ++ EvNodeInfo (Normal latest) :: evs
    /\ Forall (bnb_scan_event incoming) evs
    /\ ids = map swapId
               (filter (open_and_expired latest)
                  (pages_of (bnb_queries evs))).
Proof.
  intros H.
  destruct (emits_Index_bnb_scan sdk incoming fuel _ _ _ H)
    as (all & Hall & Hkind).
  apply Index_scan_run in H.
  destruct H as [_ [(e & He & _)|(latest & evs & v' & Hr & Htr & Hrun)]];
    [discriminate|].
  exists latest, evs. split; [exact Htr|].
  rewrite Htr in Hall. apply app_inv_head in Hall. subst all.
  split; [now inversion Hkind|].
  inversion Hr; subst.
  now rewrite (index_run_pages _ _ _ _ _ _ _ _ _ Hrun).
Qed.
End IndexBnbPass.

(** The Kava pass of the entry point: either [calculateSwapID] raised on a
    swap the scan was listed, and the pass ended there, or the pass has
    completed and has gone on with the IDs of the scan. *)
Lemma Index_kava_pass_trace {W : Type} (sdk : Sdk W) fuel s r s' :
  Index.refundKavaSwaps sdk fuel s = Some (r, s') ->
  exists scan,
    Forall kava_scan_event scan
    /\ ((exists e,
            r = Throw e
            /\ trace s' = trace s ++ scan
            /\ kava_query_failed scan = false
            /\ first_to_raise sdk (kava_items scan) e)
        \/ (exists ids meta replies,
               r = Normal tt
               /\ (if kava_query_failed scan then ids = []
                   else ids_of_items sdk (kava_items scan) ids)
               /\ List.length replies = List.length ids
               /\ trace s' = trace s ++ scan
                    ++ kava_submit_events (Some Index.fee) 25000 ids meta
                         replies)).
Proof.
  unfold Index.refundKavaSwaps, bind. intros H.
  destruct (Index.getRefundableKavaSwaps sdk fuel s) as [[r0 s0]|] eqn:Hscan;
    [|discriminate].
  destruct (emits_Index_kava_scan sdk fuel _ _ _ Hscan)
    as (scan' & Htr' & Hkind).
  destruct (Index_kava_scan_result sdk _ _ _ _ Hscan) as (scan & Htr & Hr).
  rewrite Htr in Htr'. apply app_inv_head in Htr'. subst scan'.
  exists scan. split; [exact Hkind|].
  assert (Hout : if kava_query_failed scan then r0 = Normal []
                 else swapIDs_outcome sdk (kava_items scan) r0).
  { subst r0. destruct (kava_query_failed scan); [reflexivity|].
    apply calculate_swapIDs_outcome. }
  clear Hr. destruct r0 as [ids|e].
  - right.
    destruct (Index_kava_submit_trace sdk ids s0)
      as (meta & replies & s1 & Hlen & Hrun & _ & Htr1).
    rewrite Hrun in H. inversion H; subst; clear H.
    exists ids, meta, replies. split; [reflexivity|].
    split.
    { destruct (kava_query_failed scan); [now inversion Hout | exact Hout]. }
    split; [exact Hlen|].
    rewrite Htr1, Htr, <- !app_assoc. reflexivity.
  - left. inversion H; subst; clear H. exists e.
    destruct (kava_query_failed scan); [discriminate|]. auto.
Qed.

(** X10.  When the Binance Chain pass of the entry point completes, the
    refunds it has submitted are, in order, those of the swaps listed to
    the incoming scan that are open and expired at the height that scan
    read, followed by those listed to the outgoing scan that are open and
    expired at the height the outgoing scan read; no refund is submitted
    before both scans have ended. *)
Theorem index_bnb_pass_refunds_listed_swaps {W : Type} (sdk : Sdk W)
    (bnbChainAddress : string) (fuel : nat) (s s' : St W) :
  Index.refundBinanceChainSwaps sdk bnbChainAddress fuel s
  = Some (Normal tt, s') ->
  exists height_in scan_in height_out scan_out submissions,
    trace s' = trace s
               ++ (EvNodeInfo (Normal height_in) :: scan_in)
               ++ (EvNodeInfo (Normal height_out) :: scan_out)
               ++ submissions
    /\ bnb_attempts scan_in = []
    /\ bnb_attempts scan_out = []
    /\ bnb_attempts submissions
       = map (fun swap => Some (swapId swap))
           (filter (open_and_expired height_in)
              (pages_of (bnb_queries scan_in))
            ++ filter (open_and_expired height_out)
                 (pages_of (bnb_queries scan_out))).
Proof.
  unfold Index.refundBinanceChainSwaps, bind. intros H.
  destruct (Index.getRefundableBinanceSwaps sdk true fuel s)
    as [[[inc|e] s1]|] eqn:Hin; try discriminate.
  destruct (Index.getRefundableBinanceSwaps sdk false fuel s1)
    as [[[out|e] s2]|] eqn:Hout; try discriminate.
  destruct (Index_scan_returns sdk true fuel s inc s1 Hin)
    as (h_in & scan_in & Htr1 & Hk1 & Hinc).
  destruct (Index_scan_returns sdk false fuel s1 out s2 Hout)
    as (h_out & scan_out & Htr2 & Hk2 & Hout').
  destruct (Index_bnb_submit_trace sdk bnbChainAddress (inc ++ out) s2)
    as (replies & s3 & Hlen & Hrun & _ & Htr3).
  rewrite Hrun in H. inversion H; subst s3; clear H.
  exists h_in, scan_in, h_out, scan_out,
    (bnb_submit_events bnbChainAddress 5000 (map Some (inc ++ out)) replies).
  split; [rewrite Htr3, Htr2, Htr1, <- !app_assoc; reflexivity|].
  split; [apply no_bnb_attempts; eapply Forall_impl;
          [apply bnb_scan_no_submission | exact Hk1]|].
  split; [apply no_bnb_attempts; eapply Forall_impl;
          [apply bnb_scan_no_submission | exact Hk2]|].
  unfold bnb_submit_events. cbn [bnb_attempts].
  rewrite bnb_batch_attempts by (rewrite length_map; exact Hlen).
  rewrite Hinc, Hout', map_app, !map_map, <- map_app. reflexivity.
Qed.

Lemma index_bnb_pass_refunds_listed_swaps_witness :
  exists s',
    Index.refundBinanceChainSwaps scripted "bnb1bot" 3 mixed_page
    = Some (Normal tt, s')
    /\ exists height_in scan_in height_out scan_out submissions,
        trace s' = trace mixed_page
                   ++ (EvNodeInfo (Normal height_in) :: scan_in)
                   ++ (EvNodeInfo (Normal height_out) :: scan_out)
                   ++ submissions
        /\ bnb_attempts scan_in = []
        /\ bnb_attempts scan_out = []
        /\ bnb_attempts submissions
           = map (fun swap => Some (swapId swap))
               (filter (open_and_expired height_in)
                  (pages_of (bnb_queries scan_in))
                ++ filter (open_and_expired height_out)
                     (pages_of (bnb_queries scan_out))).
Proof.
  eexists. split; [vm_compute; reflexivity|].
  eapply (index_bnb_pass_refunds_listed_swaps scripted "bnb1bot" 3).
  vm_compute. reflexivity.
Defined.

(** X3.  An exception leaves a cycle of the entry point in two places
    only.  One is the node-info request of a scan of Binance Chain: the
    cycle then ends right at that request.  The other is the Kava scan,
    when [calculateSwapID], which is called outside every [try], raises on
    a swap that Kava listed: the cycle then ends within that scan, which
    has only sent listing requests and printed.  Either way the cycle has
    submitted nothing to Binance Chain, whatever its scans had found. *)
Theorem index_cycle_raises_in_two_places {W : Type} (sdk : Sdk W)
    (bnbChainAddress : string) (fuel : nat) (s : St W) (e : exn)
    (s' : St W) :
  Index.refundSwaps sdk bnbChainAddress fuel s = Some (Throw e, s') ->
  exists evs,
    bnb_attempts evs = []
    /\ (trace s' = trace s ++ evs ++ [EvNodeInfo (Throw e)]
        \/ (trace s' = trace s ++ evs
            /\ Forall kava_scan_event evs
            /\ first_to_raise sdk (kava_items evs) e)).
Proof.
  unfold Index.refundSwaps, bind. intros H.
  destruct (Index.refundKavaSwaps sdk fuel s) as [[r1 s1]|] eqn:Hk;
    [|discriminate].
  destruct (emits_Index_kava_pass sdk fuel _ _ _ Hk) as (evs1 & Htr1 & Hk1).
  destruct (Index_kava_pass_trace sdk _ _ _ _ Hk)
    as (scan & Hkind & [(e0 & -> & Htr & _ & Hraise)
                       |(ids & meta & replies & -> & _)]).
  { inversion H; subst. exists scan.
    split; [now apply kava_scan_no_bnb_attempts|]. right. auto. }
  unfold Index.refundBinanceChainSwaps, bind in H.
  destruct (Index.getRefundableBinanceSwaps sdk true fuel s1)
    as [[[inc|e1] s2]|] eqn:Hin; try discriminate.
  - destruct (emits_Index_bnb_scan sdk true fuel _ _ _ Hin)
      as (evs2 & Htr2 & Hk2).
    destruct (Index.getRefundableBinanceSwaps sdk false fuel s2)
      as [[[out|e2] s3]|] eqn:Hout; try discriminate.
    + destruct (Index_bnb_submit_trace sdk bnbChainAddress (inc ++ out) s3)
        as (replies' & s4 & _ & Hrun & _).
      rewrite Hrun in H. discriminate.
    + inversion H; subst. apply Index_scan_raises in Hout.
      exists (evs1 ++ evs2). split.
      * apply no_bnb_attempts, Forall_app. split; [exact Hk1|].
        eapply Forall_impl; [apply bnb_scan_no_submission | exact Hk2].
      * left. rewrite Hout, Htr2, Htr1, <- !app_assoc. reflexivity.
  - inversion H; subst. apply Index_scan_raises in Hin.
    exists evs1. split.
    + now apply no_bnb_attempts.
    + left. rewrite Hin, Htr1, <- !app_assoc. reflexivity.
Qed.

(** On a chain whose node-info request raises, and on one that lists a swap
    whose ID cannot be calculated while the deputy has a swap to refund. *)
Lemma index_cycle_raises_in_two_places_witness :
  (exists e s',
      Index.refundSwaps scripted "bnb1bot" 3 node_info_down
      = Some (Throw e, s')
      /\ exists evs,
          bnb_attempts evs = []
          /\ (trace s' = trace node_info_down ++ evs ++ [EvNodeInfo (Throw e)]
              \/ (trace s' = trace node_info_down ++ evs
                  /\ Forall kava_scan_event evs
                  /\ first_to_raise scripted (kava_items evs) e)))
  /\ (exists e s',
         Index.refundSwaps scripted "bnb1bot" 3 unhashable_swap
         = Some (Throw e, s')
         /\ exists evs,
             bnb_attempts evs = []
             /\ (trace s' = trace unhashable_swap ++ evs
                            ++ [EvNodeInfo (Throw e)]
                 \/ (trace s' = trace unhashable_swap ++ evs
                     /\ Forall kava_scan_event evs
                     /\ first_to_raise scripted (kava_items evs) e))).
Proof.
  split.
  - eexists _, _. split; [vm_compute; reflexivity|].
    eapply (index_cycle_raises_in_two_places scripted "bnb1bot" 3).
    vm_compute. reflexivity.
  - eexists _, _. split; [vm_compute; reflexivity|].
    eapply (index_cycle_raises_in_two_places scripted "bnb1bot" 3).
    vm_compute. reflexivity.
Defined.

(** ** What the Kava pass of the entry point submits *)

Lemma kava_scan_no_metadata evs :
  Forall kava_scan_event evs -> metadata_fetches evs = [].
Proof.
  induction 1 as [|e evs He _ IH]; [reflexivity|].
  destruct e; cbn [metadata_fetches]; auto; elim He.
Qed.

(** X11.  The Kava pass of the entry point raises nothing but an exception
    of [calculateSwapID]: its scan raises it on a swap it was listed, and
    the pass ends there, having requested no metadata and submitted
    nothing.  Otherwise the pass completes: after its scan it prints the
    number of swap IDs and requests the account metadata, once in the whole
    pass.  When that request returned the sequence [base], the pass then
    submits exactly one refund for each ID, in order, the IDs being those
    calculated for the swaps its scan was listed, or none when a listing
    request of the scan had raised; and as long as [base] is not negative
    and [base] plus the number of IDs is at most 2^53, the refund at
    position [i] carries the sequence [base + i].  When the metadata
    request raised, the pass submits nothing. *)
Theorem index_kava_pass_refunds_listed_swaps {W : Type} (sdk : Sdk W)
    (fuel : nat) (s : St W) (r : result unit) (s' : St W) :
  Index.refundKavaSwaps sdk fuel s = Some (r, s') ->
  exists scan,
    kava_attempts scan = []
    /\ metadata_fetches scan = []
    /\ match r with
       | Throw e =>
           trace s' = trace s ++ scan
           /\ kava_query_failed scan = false
           /\ first_to_raise sdk (kava_items scan) e
       | Normal _ =>
           exists ids meta submissions,
             trace s' = trace s ++ scan
                        ++ [EvLog (LogKavaCount (List.length ids));
                            EvLoadMetaData meta]
                        ++ submissions
             /\ (if kava_query_failed scan then ids = []
                 else ids_of_items sdk (kava_items scan) ids)
             /\ metadata_fetches submissions = []
             /\ match meta with
                | Normal base =>
                    map fst (kava_attempts submissions) = ids
                    /\ (0 <= base ->
                        base + Z.of_nat (List.length ids) <= 2 ^ 53 ->
                        kava_attempts submissions = numbered base ids)
                | Throw _ => kava_attempts submissions = []
                end
       end.
Proof.
  intros H.
  destruct (Index_kava_pass_trace sdk _ _ _ _ H)
    as (scan & Hkind & [(e & -> & Htr & Hok & Hraise)
                       |(ids & meta & replies & -> & Hids & Hlen & Htr)]);
    exists scan;
    (split; [now apply kava_scan_no_attempts|]);
    (split; [now apply kava_scan_no_metadata|]); [auto|].
  unfold kava_submit_events in Htr.
  eexists ids, meta, _. split; [exact Htr|].
  split; [exact Hids|].
  destruct meta as [base|e]; [|auto].
  split; [apply kava_batch_metadata|].
  rewrite (kava_batch_attempts _ _ ids base 0 replies Hlen).
  split; [apply js_numbered_ids|].
  intros Hbase Hsum.
  rewrite js_numbered_exact by lia. now rewrite Z.add_0_r.
Qed.

(** On a chain that lists two swaps, and on one that lists a swap whose ID
    cannot be calculated. *)
Lemma index_kava_pass_refunds_listed_swaps_witness :
  (exists s',
      Index.refundKavaSwaps scripted 3 two_expired = Some (Normal tt, s')
      /\ exists scan,
          kava_attempts scan = []
          /\ metadata_fetches scan = []
          /\ exists ids meta submissions,
              trace s' = trace two_expired ++ scan
                         ++ [EvLog (LogKavaCount (List.length ids));
                             EvLoadMetaData meta]
                         ++ submissions
              /\ (if kava_query_failed scan then ids = []
                  else ids_of_items scripted (kava_items scan) ids)
              /\ metadata_fetches submissions = []
              /\ match meta with
                 | Normal base =>
                     map fst (kava_attempts submissions) = ids
                     /\ (0 <= base ->
                         base + Z.of_nat (List.length ids) <= 2 ^ 53 ->
                         kava_attempts submissions = numbered base ids)
                 | Throw _ => kava_attempts submissions = []
                 end)
  /\ (exists e s',
         Index.refundKavaSwaps scripted 3 unhashable_swap
         = Some (Throw e, s')
         /\ exists scan,
             kava_attempts scan = []
             /\ metadata_fetches scan = []
             /\ trace s' = trace unhashable_swap ++ scan
             /\ kava_query_failed scan = false
             /\ first_to_raise scripted (kava_items scan) e).
Proof.
  split.
  - eexists. split; [vm_compute; reflexivity|].
    refine (index_kava_pass_refunds_listed_swaps scripted 3 two_expired
              (Normal tt) _ _).
    vm_compute. reflexivity.
  - eexists _, _. split; [vm_compute; reflexivity|].
    refine (index_kava_pass_refunds_listed_swaps scripted 3 unhashable_swap
              (Throw _) _ _).
    vm_compute. reflexivity.
Defined.

(** ** The time a cycle spends pausing *)

Section Leaves.
Context {W : Type}.
Variable T : list Event -> Prop.
Hypothesis T_nil : T [].
Hypothesis T_app : forall a b, T a -> T b -> T (a ++ b).

Lemma leaves_ret {A} (a : A) : leaves (W := W) T (ret a).
Proof.
  intros s r s' H. inversion H; subst. exists []. now rewrite app_nil_r.
Qed.

Lemma leaves_throw {A} e : leaves (W := W) (A := A) T (throw e).
Proof.
  intros s r s' H. inversion H; subst. exists []. now rewrite app_nil_r.
Qed.

Lemma leaves_bind {A B} (m : M W A) (k : A -> M W B) :
  leaves T m -> (forall a, leaves T (k a)) -> leaves T (bind m k).
Proof.
  intros Hm Hk s r s' H. unfold bind in H.
  destruct (m s) as [[[a|e] s1]|] eqn:E; try discriminate.
  - destruct (Hm _ _ _ E) as (evs1 & Htr1 & H1).
    destruct (Hk a _ _ _ H) as (evs2 & Htr2 & H2).
    exists (evs1 ++ evs2). split; [|now apply T_app].
    now rewrite Htr2, Htr1, app_assoc.
  - inversion H; subst. exact (Hm _ _ _ E).
Qed.

Lemma leaves_asyncForEach {A L} (cb : A -> L -> M W L) array :
  (forall x l, leaves T (cb x l)) ->
  forall l, leaves T (asyncForEach array cb l).
Proof.
  intros Hcb. induction array as [|x rest IH]; intros l; cbn [asyncForEach].
  - apply leaves_ret.
  - apply leaves_bind; [apply Hcb | exact IH].
Qed.

Lemma emits_leaves {A} (P : Event -> Prop) (m : M W A) :
  (forall evs, Forall P evs -> T evs) -> emits P m -> leaves T m.
Proof.
  intros HP Hm s r s' H. destruct (Hm _ _ _ H) as (evs & Htr & Hall).
  exists evs. auto.
Qed.
End Leaves.

Lemma total_pause_app a b : total_pause (a ++ b) = total_pause a + total_pause b.
Proof.
  induction a as [|e a IH]; [reflexivity|].
  destruct e; cbn [app total_pause]; rewrite ?IH; lia.
Qed.

Lemma kava_attempts_app a b :
  kava_attempts (a ++ b) = kava_attempts a ++ kava_attempts b.
Proof.
  induction a as [|e a IH]; simpl; auto.
  destruct e; simpl; rewrite ?IH; auto.
Qed.

Section Accounting.
Variables kava_ms bnb_ms : Z.

Lemma accounted_nil : pauses_accounted kava_ms bnb_ms [].
Proof. unfold pauses_accounted. cbn. lia. Qed.

Lemma accounted_app a b :
  pauses_accounted kava_ms bnb_ms a -> pauses_accounted kava_ms bnb_ms b ->
  pauses_accounted kava_ms bnb_ms (a ++ b).
Proof.
  unfold pauses_accounted. intros Ha Hb.
  rewrite total_pause_app, kava_attempts_app, bnb_attempts_app, !length_app.
  lia.
Qed.

Lemma accounted_quiet evs :
  Forall no_pause_no_submission evs -> pauses_accounted kava_ms bnb_ms evs.
Proof.
  unfold pauses_accounted.
  induction 1 as [|e evs He _ IH]; [cbn; lia|].
  destruct e; cbn [total_pause kava_attempts bnb_attempts]; auto; elim He.
Qed.

Lemma accounted_kava_item fee sequence id reply :
  pauses_accounted kava_ms bnb_ms
    (kava_item_events fee kava_ms sequence id reply).
Proof.
  unfold pauses_accounted, kava_item_events.
  destruct reply; cbn; lia.
Qed.

Lemma accounted_bnb_item from id reply :
  pauses_accounted kava_ms bnb_ms (bnb_item_events from bnb_ms id reply).
Proof.
  unfold pauses_accounted, bnb_item_events, bnb_reply_events.
  destruct reply as [[res|]|e]; cbn; try lia.
  destruct (res_status res =? 200); cbn; try lia.
  destruct (res_hashes res); cbn; lia.
Qed.
End Accounting.

Lemma scan_events_quiet_kava e : kava_scan_event e -> no_pause_no_submission e.
Proof. destruct e; cbn; auto. Qed.

Lemma scan_events_quiet_bnb incoming e :
  bnb_scan_event incoming e -> no_pause_no_submission e.
Proof. destruct e; cbn; auto. Qed.

Section CyclePauses.
Context {W : Type} (sdk : Sdk W).
Variable bnbChainAddress : string.

Ltac scan_is_quiet lemma :=
  eapply emits_leaves;
  [intros evs Hevs; apply accounted_quiet; exact Hevs
  |eapply emits_weaken; [|apply lemma];
   first [apply scan_events_quiet_kava | apply scan_events_quiet_bnb]].

Ltac quiet_step :=
  eapply emits_leaves;
  [intros evs Hevs; apply accounted_quiet; exact Hevs
  |first [apply emits_emit; exact I
         |apply emits_try, emits_call; intros ?; exact I]].

Lemma kava_submit_accounted ms bnb_ms (cb : Z -> string -> Z -> M W Z) fee
    ids :
  (forall base id i s,
      exists reply s',
        cb base id i s = Some (Normal (js_add i 1), s')
        /\ this s' = this s
        /\ trace s' = trace s
             ++ kava_item_events fee ms (sequence_of base i) id reply) ->
  leaves (pauses_accounted ms bnb_ms)
    (log (LogKavaCount (List.length ids)) ;;
     r <- try (call (sdk_loadMetaData sdk) EvLoadMetaData) ;;
     match r with
     | Throw e => log (LogExn e) ;; ret tt
     | Normal accountData_sequence =>
         asyncForEach ids (cb accountData_sequence) 0 ;; ret tt
     end).
Proof.
  intros Hcb.
  pose proof (accounted_nil ms bnb_ms) as Hnil.
  pose proof (accounted_app ms bnb_ms) as Happ.
  unfold log. apply leaves_bind; auto; [quiet_step | intros _].
  apply leaves_bind; auto; [quiet_step | intros [base|e]].
  - apply leaves_bind; auto; [|intros ?; now apply leaves_ret].
    apply leaves_asyncForEach; auto. intros id i s r s' H.
    destruct (Hcb base id i s) as (reply & s1 & Hrun & _ & Htr).
    rewrite Hrun in H. inversion H; subst.
    eexists. split; [exact Htr | apply accounted_kava_item].
  - apply leaves_bind; auto; [quiet_step | intros ?; now apply leaves_ret].
Qed.

Lemma bnb_submit_accounted {A} kava_ms ms (cb : A -> unit -> M W unit)
    (js : A -> option string) (ids : list A) n :
  (forall id u s,
      exists reply s',
        cb id u s = Some (Normal tt, s')
        /\ this s' = this s
        /\ trace s' = trace s
             ++ bnb_item_events bnbChainAddress ms (js id) reply) ->
  leaves (pauses_accounted kava_ms ms)
    (log (LogBnbCount n) ;; asyncForEach ids cb tt).
Proof.
  intros Hcb.
  pose proof (accounted_nil kava_ms ms) as Hnil.
  pose proof (accounted_app kava_ms ms) as Happ.
  unfold log. apply leaves_bind; auto; [quiet_step | intros _].
  apply leaves_asyncForEach; auto. intros id u s r s' H.
  destruct (Hcb id u s) as (reply & s1 & Hrun & _ & Htr).
  rewrite Hrun in H. inversion H; subst.
  eexists. split; [exact Htr | apply accounted_bnb_item].
Qed.

Lemma Index_cycle_accounted fuel :
  leaves (pauses_accounted 25000 5000)
    (Index.refundSwaps sdk bnbChainAddress fuel).
Proof.
  pose proof (accounted_nil 25000 5000) as Hnil.
  pose proof (accounted_app 25000 5000) as Happ.
  unfold Index.refundSwaps. apply leaves_bind; auto; [|intros _].
  - unfold Index.refundKavaSwaps. apply leaves_bind; auto.
    + scan_is_quiet (emits_Index_kava_scan sdk fuel).
    + intros ids. unfold Index.refundKavaSwaps_submit.
      apply (kava_submit_accounted 25000 5000
               (Index.kava_refund_callback sdk) (Some Index.fee)).
      apply Index_kava_callback_trace.
  - unfold Index.refundBinanceChainSwaps.
    apply leaves_bind; auto;
      [scan_is_quiet (emits_Index_bnb_scan sdk true fuel) | intros inc].
    apply leaves_bind; auto;
      [scan_is_quiet (emits_Index_bnb_scan sdk false fuel) | intros out].
    unfold Index.refundBinanceChainSwaps_submit.
    apply (bnb_submit_accounted 25000 5000 _ Some).
    apply Index_bnb_callback_trace.
Qed.

Lemma Legacy_cycle_accounted fuel :
  leaves (pauses_accounted 7000 3000)
    (Legacy.refundSwaps sdk bnbChainAddress fuel).
Proof.
  pose proof (accounted_nil 7000 3000) as Hnil.
  pose proof (accounted_app 7000 3000) as Happ.
  unfold Legacy.refundSwaps. apply leaves_bind; auto; [|intros _].
  - unfold Legacy.refundKavaSwaps. apply leaves_bind; auto.
    + scan_is_quiet (emits_Legacy_kava_scan sdk fuel).
    + intros [ids|]; unfold Legacy.refundKavaSwaps_submit;
        [|now apply leaves_throw].
      apply (kava_submit_accounted 7000 3000
               (Legacy.kava_refund_body sdk) None).
      apply Legacy_kava_body_trace.
  - unfold Legacy.refundBinanceChainSwaps.
    apply leaves_bind; auto;
      [scan_is_quiet (emits_Legacy_bnb_scan sdk true fuel) | intros inc].
    apply leaves_bind; auto;
      [scan_is_quiet (emits_Legacy_bnb_scan sdk false fuel) | intros out].
    unfold Legacy.refundBinanceChainSwaps_submit.
    destruct (Legacy.concat_ids inc out) as [ids|e];
      [|now apply leaves_throw].
    apply (bnb_submit_accounted 7000 3000 _ (fun id => id)).
    apply Legacy_bnb_body_trace.
Qed.
End CyclePauses.

(** X12.  Whatever the chains answer and however the cycle ends, the time a
    cycle spends in [sleep] is one fixed pause per refund it submitted: in
    the entry point 25000 ms for each Kava refund plus 5000 ms for each
    Binance Chain refund, in the older copy 7000 ms and 3000 ms.  A cycle
    that submits nothing never pauses. *)
Theorem cycle_pause_time {W : Type} (sdk : Sdk W) (bnbChainAddress : string)
    (fuel : nat) (s : St W) :
  (forall r s',
      Index.refundSwaps sdk bnbChainAddress fuel s = Some (r, s') ->
      exists evs,
        trace s' = trace s ++ evs /\ pauses_accounted 25000 5000 evs)
  /\ (forall r s',
         Legacy.refundSwaps sdk bnbChainAddress fuel s = Some (r, s') ->
         exists evs,
           trace s' = trace s ++ evs /\ pauses_accounted 7000 3000 evs).
Proof.
  split; intros r s'.
  - apply Index_cycle_accounted.
  - apply Legacy_cycle_accounted.
Qed.

Lemma cycle_pause_time_witness :
  (exists r s',
      Index.refundSwaps scripted "bnb1bot" 3 one_on_each_chain = Some (r, s')
      /\ exists evs,
          trace s' = trace one_on_each_chain ++ evs
          /\ pauses_accounted 25000 5000 evs)
  /\ (exists r s',
         Legacy.refundSwaps scripted "bnb1bot" 3 one_on_each_chain
         = Some (r, s')
         /\ exists evs,
             trace s' = trace one_on_each_chain ++ evs
             /\ pauses_accounted 7000 3000 evs).
Proof.
  pose proof (cycle_pause_time scripted "bnb1bot" 3 one_on_each_chain)
    as (HI & HL).
  split; eexists _, _; (split; [vm_compute; reflexivity|]).
  - eapply HI. vm_compute. reflexivity.
  - eapply HL. vm_compute. reflexivity.
Defined.

(** * The iteration helper *)

Section Iteration.
Context {W : Type} {A L : Type}.
Variable cb : A -> L -> M W L.

Lemma asyncForEach_app (a b : list A) :
  forall l s,
    asyncForEach (a ++ b) cb l s
    = bind (asyncForEach a cb l) (asyncForEach b cb) s.
Proof.
  induction a as [|x a IH]; intros l s.
  - reflexivity.
  - cbn [asyncForEach app]. unfold bind.
    destruct (cb x l s) as [[[l1|e] s1]|]; try reflexivity.
    rewrite IH. reflexivity.
Qed.
End Iteration.

(** X13.  [asyncForEach] over two arrays one after the other is
    [asyncForEach] over the first and then over the second, the callback's
    variables carried across; and the first callback that raises ends it:
    its exception is the iteration's, and no later item is visited. *)
Theorem asyncForEach_in_sequence {W A L : Type} (cb : A -> L -> M W L) :
  (forall a b l s,
      asyncForEach (a ++ b) cb l s
      = bind (asyncForEach a cb l) (asyncForEach b cb) s)
  /\ (forall before x after l s l1 s1 e s2,
         asyncForEach before cb l s = Some (Normal l1, s1) ->
         cb x l1 s1 = Some (Throw e, s2) ->
         asyncForEach (before ++ x :: after) cb l s = Some (Throw e, s2)).
Proof.
  split.
  - intros a b. apply asyncForEach_app.
  - intros before x after l s l1 s1 e s2 Hbefore Hx.
    rewrite asyncForEach_app. unfold bind at 1. rewrite Hbefore.
    cbn [asyncForEach]. unfold bind. rewrite Hx. reflexivity.
Qed.

Lemma asyncForEach_in_sequence_witness :
  let cb := fun (x : Z) (l : Z) =>
              if (x =? 2)%Z then throw (W := Script) (Error "refused")
              else ret (l + x)%Z in
  asyncForEach ([1; 1] ++ 2 :: [5; 7])%Z cb 0%Z two_expired
  = Some (Throw (Error "refused"), two_expired).
Proof.
  intros cb.
  apply (proj2 (asyncForEach_in_sequence cb) [1; 1]%Z 2%Z [5; 7]%Z 0%Z
           two_expired 2%Z two_expired).
  - reflexivity.
  - reflexivity.
Defined.

(** * Start-up *)

Lemma split_on_nonempty (sep : Ascii.ascii) (s : string) :
  split_on sep s <> [].
Proof.
  destruct s as [|c rest]; cbn [split_on]; [discriminate|].
  destruct (Ascii.eqb c sep); [discriminate|].
  destruct (split_on sep rest); discriminate.
Qed.

Lemma concat_split_on (sep : Ascii.ascii) (s : string) :
  String.concat (String sep EmptyString) (split_on sep s) = s.
Proof.
  induction s as [|c rest IH]; cbn [split_on]; [reflexivity|].
  pose proof (split_on_nonempty sep rest) as Hne.
  destruct (Ascii.eqb c sep) eqn:Hc.
  - apply Ascii.eqb_eq in Hc. subst c.
    destruct (split_on sep rest) as [|piece pieces]; [contradiction|].
    transitivity
      (String sep (String.concat (String sep EmptyString) (piece :: pieces)));
      [reflexivity | now rewrite IH].
  - destruct (split_on sep rest) as [|piece pieces]; [contradiction|].
    transitivity
      (String c (String.concat (String sep EmptyString) (piece :: pieces)));
      [now destruct pieces | now rewrite IH].
Qed.

Lemma length_split_on (sep : Ascii.ascii) (s : string) :
  List.length (split_on sep s) = S (count_char sep s).
Proof.
  induction s as [|c rest IH]; cbn [split_on count_char]; [reflexivity|].
  destruct (Ascii.eqb c sep).
  - cbn [List.length]. now rewrite IH.
  - destruct (split_on sep rest) as [|piece pieces]; [discriminate IH|].
    exact IH.
Qed.

Lemma split_on_pieces (sep : Ascii.ascii) (s : string) :
  Forall (fun piece => has_char sep piece = false) (split_on sep s).
Proof.
  induction s as [|c rest IH]; cbn [split_on].
  - apply Forall_cons; [reflexivity | apply Forall_nil].
  - destruct (Ascii.eqb c sep) eqn:Hc.
    + apply Forall_cons; [reflexivity | exact IH].
    + destruct (split_on sep rest) as [|piece pieces].
      * apply Forall_cons; [|apply Forall_nil].
        cbn [has_char]. now rewrite Hc.
      * inversion IH as [|? ? Hpiece Hpieces]; subst.
        apply Forall_cons; [|exact Hpieces].
        cbn [has_char]. now rewrite Hc, Hpiece.
Qed.


(** X14.  Whatever [BINANCE_CHAIN_DEPUTY_ADDRESSES] holds, once it is set
    [start.js] builds a bot: [split(',')] never gives an empty array, so
    the constructor's guard cannot fire there.  The bot has limit 100 and
    both offsets 0; its deputies are the comma-free pieces of the
    variable, one more than it has commas, and joining them with commas
    gives the variable back.  An empty variable thus gives one deputy, the
    empty address. *)
Theorem start_always_builds_a_bot (env : Env) (list : string) :
  BINANCE_CHAIN_DEPUTY_ADDRESSES env = Some list ->
  exists bot,
    bot_of_env env = Normal bot
    /\ deputyAddresses bot <> []
    /\ String.concat "," (deputyAddresses bot) = list
    /\ List.length (deputyAddresses bot) = S (count_char comma list)
    /\ Forall (fun d => has_char comma d = false) (deputyAddresses bot)
    /\ limit bot = 100
    /\ offsetIncoming bot = 0
    /\ offsetOutgoing bot = 0
    /\ (list = "" -> deputyAddresses bot = [""]).
Proof.
  intros Henv. unfold bot_of_env, new_RefundBot. rewrite Henv.
  rewrite length_split_on. cbn [Nat.eqb].
  eexists. split; [reflexivity|]. cbn [deputyAddresses limit offsetIncoming
                                        offsetOutgoing].
  split; [apply split_on_nonempty|].
  split; [apply (concat_split_on comma)|].
  split; [apply length_split_on|].
  split; [apply split_on_pieces|].
  repeat (split; [reflexivity|]).
  intros ->. reflexivity.
Qed.

Lemma start_always_builds_a_bot_witness :
  exists bot,
    bot_of_env example_env = Normal bot
    /\ deputyAddresses bot <> []
    /\ String.concat "," (deputyAddresses bot) = "bnb1d1,bnb1d2"
    /\ List.length (deputyAddresses bot)
       = S (count_char comma "bnb1d1,bnb1d2")
    /\ Forall (fun d => has_char comma d = false) (deputyAddresses bot)
    /\ limit bot = 100
    /\ offsetIncoming bot = 0
    /\ offsetOutgoing bot = 0
    /\ ("bnb1d1,bnb1d2" = "" -> deputyAddresses bot = [""]).
Proof.
  apply (start_always_builds_a_bot example_env "bnb1d1,bnb1d2").
  reflexivity.
Defined.

(** Symbolic execution of start-up code: one case split per SDK call. *)
Ltac boot_unfold :=
  unfold main, index_initKavaClient, legacy_initKavaClient,
    initBnbChainClient, bbind, bcall, btry, bprint, bpure, assign, bret,
    bthrow.

Ltac boot_call :=
  match goal with
  | |- context [new_KavaClient ?sdk ?u ?r ?w] =>
      destruct (new_KavaClient sdk u r w) as [[[]|?] ?] eqn:?
  | |- context [kava_setWallet ?sdk ?m ?w] =>
      destruct (kava_setWallet sdk m w) as [[[]|?] ?] eqn:?
  | |- context [kava_setNewWallet ?sdk ?m ?w] =>
      destruct (kava_setNewWallet sdk m w) as [[[]|?] ?] eqn:?
  | |- context [kava_initChain ?sdk ?w] =>
      destruct (kava_initChain sdk w) as [[[]|?] ?] eqn:?
  | |- context [new_BnbChain ?sdk ?u ?w] =>
      destruct (new_BnbChain sdk u w) as [[[]|?] ?] eqn:?
  | |- context [bnb_chooseNetwork ?sdk ?n ?w] =>
      destruct (bnb_chooseNetwork sdk n w) as [[[]|?] ?] eqn:?
  | |- context [getPrivateKeyFromMnemonic ?sdk ?m] =>
      destruct (getPrivateKeyFromMnemonic sdk m) as [?|?] eqn:?
  | |- context [bnb_setPrivateKey ?sdk ?k ?w] =>
      destruct (bnb_setPrivateKey sdk k w) as [[[]|?] ?] eqn:?
  | |- context [bnb_initChain ?sdk ?w] =>
      destruct (bnb_initChain sdk w) as [[[]|?] ?] eqn:?
  | |- context [getAddressFromPrivateKey ?sdk ?k ?p] =>
      destruct (getAddressFromPrivateKey sdk k p) as [?|?] eqn:?
  | |- context [cron_schedule ?sdk ?x ?j ?w] =>
      destruct (cron_schedule sdk x j w) as [[[]|?] ?] eqn:?
  end;
  cbn [b_world b_clients b_trace].

Ltac boot_run := boot_unfold; cbn [b_world b_clients b_trace];
                 repeat boot_call.

Ltac boot_result :=
  let H := fresh "Hrun" in
  intros H; inversion H; subst; clear H;
  cbn [b_world b_clients b_trace c_kavaClient c_bnbClient c_bnbChainAddress].

(** The events of a finished run, read off its trace. *)
Ltac new_events :=
  rewrite <- ?app_assoc; cbn [app];
  first [ now (exists []; rewrite app_nil_r)
        | eexists; split; [reflexivity|]
        | exists []; split; [now rewrite app_nil_r|] ].


Section StartUpFacts.
Context {W : Type} (sdk : StartSdk W).

(** X15.  Each [init] method checks its arguments before anything else:
    with a required argument missing or empty it raises an [Error] and
    neither calls the SDK nor touches the bot; with all of them present
    the first thing it does is construct the client, from the URLs it was
    given. *)
Theorem init_checks_arguments_first (b : Boot W) :
  (forall lcdURL kavaRpcURL mnemonic,
      (falsy lcdURL || falsy kavaRpcURL || falsy mnemonic = true ->
       exists msg,
         index_initKavaClient sdk lcdURL kavaRpcURL mnemonic b
         = (Throw (Error msg), b))
      /\ (falsy lcdURL || falsy kavaRpcURL || falsy mnemonic = false ->
          exists reply rest,
            b_trace (snd (index_initKavaClient sdk lcdURL kavaRpcURL
                            mnemonic b))
            = b_trace b
              ++ BvNewKavaClient (text lcdURL) (Some (text kavaRpcURL)) reply
                 :: rest))
  /\ (forall lcdURL mnemonic,
         (falsy lcdURL || falsy mnemonic = true ->
          exists msg,
            legacy_initKavaClient sdk lcdURL mnemonic b
            = (Throw (Error msg), b))
         /\ (falsy lcdURL || falsy mnemonic = false ->
             exists reply rest,
               b_trace (snd (legacy_initKavaClient sdk lcdURL mnemonic b))
               = b_trace b
                 ++ BvNewKavaClient (text lcdURL) None reply :: rest))
  /\ (forall lcdURL mnemonic network,
         (falsy lcdURL || falsy mnemonic = true ->
          exists msg,
            initBnbChainClient sdk lcdURL mnemonic network b
            = (Throw (Error msg), b))
         /\ (falsy lcdURL || falsy mnemonic = false ->
             exists reply rest,
               b_trace (snd (initBnbChainClient sdk lcdURL mnemonic network
                               b))
               = b_trace b ++ BvNewBnbChain (text lcdURL) reply :: rest)).
Proof.
  split; [|split].
  - intros lcdURL kavaRpcURL mnemonic. split; intros Hargs.
    + unfold index_initKavaClient, bthrow.
      destruct (falsy lcdURL); [eexists; reflexivity|].
      destruct (falsy kavaRpcURL); [eexists; reflexivity|].
      destruct (falsy mnemonic); [eexists; reflexivity|discriminate Hargs].
    + apply orb_false_iff in Hargs as [Hargs Hmn].
      apply orb_false_iff in Hargs as [Hlcd Hrpc].
      unfold index_initKavaClient. rewrite Hlcd, Hrpc, Hmn.
      boot_run; cbn [snd b_trace]; rewrite <- ?app_assoc; cbn [app];
        eexists _, _; reflexivity.
  - intros lcdURL mnemonic. split; intros Hargs.
    + unfold legacy_initKavaClient, bthrow.
      destruct (falsy lcdURL); [eexists; reflexivity|].
      destruct (falsy mnemonic); [eexists; reflexivity|discriminate Hargs].
    + apply orb_false_iff in Hargs as [Hlcd Hmn].
      unfold legacy_initKavaClient. rewrite Hlcd, Hmn.
      boot_run; cbn [snd b_trace]; rewrite <- ?app_assoc; cbn [app];
        eexists _, _; reflexivity.
  - intros lcdURL mnemonic network. split; intros Hargs.
    + unfold initBnbChainClient, bthrow.
      destruct (falsy lcdURL); [eexists; reflexivity|].
      destruct (falsy mnemonic); [eexists; reflexivity|discriminate Hargs].
    + apply orb_false_iff in Hargs as [Hlcd Hmn].
      unfold initBnbChainClient. rewrite Hlcd, Hmn.
      boot_run; cbn [snd b_trace]; rewrite <- ?app_assoc; cbn [app];
        eexists _, _; reflexivity.
Qed.
End StartUpFacts.

Lemma init_checks_arguments_first_witness :
  (exists msg,
      index_initKavaClient reachable (Some "https://kava.example") (Some "")
        (Some "kava words") fresh_boot
      = (Throw (Error msg), fresh_boot))
  /\ (exists reply rest,
         b_trace (snd (initBnbChainClient unreachable
                         (Some "https://dex.example") (Some "bnb words")
                         None fresh_boot))
         = b_trace fresh_boot
           ++ BvNewBnbChain (text (Some "https://dex.example")) reply
              :: rest).
Proof.
  pose proof (init_checks_arguments_first reachable fresh_boot)
    as (HI & _ & _).
  pose proof (init_checks_arguments_first unreachable fresh_boot)
    as (_ & _ & HB).
  split.
  - apply (proj1 (HI (Some "https://kava.example") (Some "")
                    (Some "kava words"))).
    reflexivity.
  - apply (proj2 (HB (Some "https://dex.example") (Some "bnb words") None)).
    reflexivity.
Defined.





Section Connections.
Context {W : Type} (sdk : StartSdk W).

End Connections.


Lemma bnbAddrPrefix_mainnet (network : string) :
  (bnbAddrPrefix network = "bnb" <-> network = "mainnet")
  /\ (bnbAddrPrefix network = "bnb" \/ bnbAddrPrefix network = "tbnb").
Proof.
  unfold bnbAddrPrefix.
  destruct (String.eqb network "mainnet") eqn:Hn.
  - apply String.eqb_eq in Hn. split; [tauto | now left].
  - apply String.eqb_neq in Hn. split; [|now right].
    split; [discriminate | contradiction].
Qed.

Section BnbAddress.
Context {W : Type} (sdk : StartSdk W).

(** X17.  [initBnbChainClient] sets the bot's Binance Chain address only
    when the connection succeeded, and then to the address the SDK derives
    from the mnemonic's private key with prefix [bnb] for network
    [mainnet] and [tbnb] for any other, the default [testnet] included.
    On every other outcome, a failed connection among them, the address is
    left as it was.  The Kava client is never touched. *)
Theorem bnb_address_needs_a_connection
    (lcdURL mnemonic network : option string) (b b' : Boot W)
    (r : result InitReturn) :
  initBnbChainClient sdk lcdURL mnemonic network b = (r, b') ->
  c_kavaClient (b_clients b') = c_kavaClient (b_clients b)
  /\ (r = Normal ReturnedThis ->
      exists key prefix address,
        getPrivateKeyFromMnemonic sdk (text mnemonic) = Normal key
        /\ (prefix = "bnb" <-> network = Some "mainnet")
        /\ (prefix = "bnb" \/ prefix = "tbnb")
        /\ getAddressFromPrivateKey sdk key prefix = Normal address
        /\ c_bnbChainAddress (b_clients b') = Some address
        /\ c_bnbClient (b_clients b') = Some (text lcdURL))
  /\ (r <> Normal ReturnedThis ->
      c_bnbChainAddress (b_clients b')
      = c_bnbChainAddress (b_clients b)).
Proof.
  unfold initBnbChainClient.
  destruct (falsy lcdURL), (falsy mnemonic);
    boot_run; boot_result;
    (split; [reflexivity|]);
    (split; [intros Hthis; try discriminate Hthis
            | intros Hother; try reflexivity; try now elim Hother]).
  match goal with
  | Hk : getPrivateKeyFromMnemonic _ _ = Normal ?k,
    Ha : getAddressFromPrivateKey _ ?k ?p = Normal ?a |- _ =>
      exists k, p, a
  end.
  split; [reflexivity|].
  match goal with
  | |- (bnbAddrPrefix ?n = _ <-> _) /\ _ =>
      pose proof (bnbAddrPrefix_mainnet n) as [Hiff Hor]
  end.
  split; [|split; [exact Hor | split; [assumption | split; reflexivity]]].
  rewrite Hiff. destruct network as [n|].
  - split; [now intros -> | now intros [= ->]].
  - split; discriminate.
Qed.
End BnbAddress.

Lemma bnb_address_needs_a_connection_witness :
  exists b',
    initBnbChainClient reachable (Some "https://dex.example")
      (Some "bnb words") (Some "mainnet") fresh_boot
    = (Normal ReturnedThis, b')
    /\ c_bnbChainAddress (b_clients b') = Some "bnb1key:bnb words"
    /\ c_kavaClient (b_clients b') = c_kavaClient (b_clients fresh_boot).
Proof.
  eexists. split; [vm_compute; reflexivity|].
  split; [reflexivity|].
  eapply (bnb_address_needs_a_connection reachable
            (Some "https://dex.example") (Some "bnb words")
            (Some "mainnet") fresh_boot).
  vm_compute. reflexivity.
Defined.

Ltac schedule_case :=
  split;
  [ split;
    [ intros Heq; first [discriminate Heq | reflexivity]
    | intros Heq; first [discriminate Heq | reflexivity] ]
  | split;
    [ first [ left; reflexivity | right; left; reflexivity
            | right; right; reflexivity ]
    | split;
      [ intros Heq; first [discriminate Heq | eexists; reflexivity]
      | reflexivity ] ] ].

Section Scheduling.
Context {W : Type} (sdk : StartSdk W).

(** X18.  [main] schedules last: every call of [cron.schedule] comes after
    everything the two [init] methods do.  It schedules the refund cycle
    under [CRONTAB] and then the offset printout under ["* 1 * * *"]; it
    completes normally exactly when both jobs are scheduled, which needs
    the bot to have been built, and an exception leaves none scheduled, or
    the refund cycle alone. *)
Theorem start_schedules_last (env : Env) (b b' : Boot W)
    (r : result unit) :
  main sdk env b = (r, b') ->
  exists evs,
    b_trace b' = b_trace b ++ evs
    /\ (r = Normal tt <-> scheduled evs = both_jobs env)
    /\ (scheduled evs = []
        \/ scheduled evs = [(CRONTAB env, RunRefundSwaps)]
        \/ scheduled evs = both_jobs env)
    /\ (r = Normal tt -> exists bot, bot_of_env env = Normal bot)
    /\ evs = filter (fun ev => negb (is_schedule ev)) evs
             ++ filter is_schedule evs.
Proof.
  unfold main, bpure, bbind at 1.
  destruct (bot_of_env env) as [bot|e] eqn:Hbot.
  - unfold index_initKavaClient, initBnbChainClient.
    destruct (falsy (KAVA_LCD_URL env)), (falsy (KAVA_RPC_URL env)),
      (falsy (KAVA_MNEMONIC env)), (falsy (BINANCE_CHAIN_LCD_URL env)),
      (falsy (BINANCE_CHAIN_MNEMONIC env));
      boot_run; boot_result; new_events; cbn [scheduled]; unfold both_jobs;
      schedule_case.
  - boot_result. new_events. cbn [scheduled]. unfold both_jobs.
    schedule_case.
Qed.

End Scheduling.

Lemma start_schedules_last_witness :
  exists r b',
    main reachable example_env fresh_boot = (r, b')
    /\ exists evs,
        b_trace b' = b_trace fresh_boot ++ evs
        /\ (r = Normal tt <-> scheduled evs = both_jobs example_env)
        /\ (scheduled evs = []
            \/ scheduled evs = [(CRONTAB example_env, RunRefundSwaps)]
            \/ scheduled evs = both_jobs example_env)
        /\ (r = Normal tt
            -> exists bot, bot_of_env example_env = Normal bot)
        /\ evs = filter (fun ev => negb (is_schedule ev)) evs
                 ++ filter is_schedule evs.
Proof.
  eexists _, _. split; [vm_compute; reflexivity|].
  apply (start_schedules_last reachable example_env fresh_boot).
  vm_compute. reflexivity.
Defined.

